(** * Version resolution of the [g] Go version manager

    A shallow embedding of the collector registry ([collector.NewCollector]),
    the file-name decoder ([collector/internal]), the version model
    ([version.Semantify], [version.Version]), the finder
    ([version.Finder]), the listing of the fancyindex adapter, the
    verification of a package's checksum and what the commands [use],
    [ls], [ls-remote] and [self update] select, together with the
    properties stated about them.

    Go strings are byte sequences; they are embedded as [string] (a list of
    8-bit [ascii]).  A Go run-time panic is an explicit outcome.  Go maps are
    [gmap]s, and wherever the program ranges over a map the iteration order
    is left open. *)

From Stdlib Require Import ZArith NArith Ascii String List Bool Lia.
From Stdlib Require Import Sorting.Sorted.
From stdpp Require Import base option list gmap strings sorting.

Local Open Scope Z_scope.

(** ** Go's [strings] and [unicode] packages, on byte strings *)

Module GoStrings.

(** [len(s)] *)
Definition len (s : string) : Z := Z.of_nat (String.length s).

(** [s[:n]] and [s[n:]] for [0 <= n <= len(s)]. *)
Definition slice_to (s : string) (n : Z) : string :=
  String.substring 0 (Z.to_nat n) s.

Definition slice_from (s : string) (n : Z) : string :=
  String.substring (Z.to_nat n) (String.length s - Z.to_nat n) s.

(** [strings.HasPrefix(s, prefix)] *)
Definition HasPrefix (s prefix : string) : bool := String.prefix prefix s.

(** [strings.HasSuffix(s, suffix)]:
    [len(s) >= len(suffix) && s[len(s)-len(suffix):] == suffix] *)
Definition HasSuffix (s suffix : string) : bool :=
  (len suffix <=? len s) &&
  String.eqb (slice_from s (len s - len suffix)) suffix.

(** [strings.Index(s, substr)]: the first position of [substr], or -1. *)
Definition Index (s substr : string) : Z :=
  match String.index 0 substr s with
  | Some i => Z.of_nat i
  | None => -1
  end.

(** [strings.Contains(s, substr)] is [Index(s, substr) >= 0]. *)
Definition Contains (s substr : string) : bool := 0 <=? Index s substr.

(** [strings.TrimPrefix(s, prefix)] *)
Definition TrimPrefix (s prefix : string) : string :=
  if HasPrefix s prefix then slice_from s (len prefix) else s.

(** [strings.Split(s, sep)] for a one-byte separator (the program only
    splits on "."): the pieces between the separators, never an empty
    list. *)
Fixpoint Split (s : string) (sep : ascii) : list string :=
  match s with
  | EmptyString => [EmptyString]
  | String c s' =>
      if Ascii.eqb c sep then EmptyString :: Split s' sep
      else match Split s' sep with
           | piece :: pieces => String c piece :: pieces
           | [] => [String c EmptyString]
           end
  end.

(** The six ASCII white-space bytes: tab, line feed, vertical tab, form
    feed, carriage return and space. *)
Definition asciiSpace (c : ascii) : bool :=
  let n := N_of_ascii c in
  ((9 <=? n) && (n <=? 13) || (n =? 32))%N.

(** The white-space runes above U+007F as UTF-8 byte sequences:
    U+0085 and U+00A0 take two bytes; U+1680, U+2000..U+200A, U+2028,
    U+2029, U+202F, U+205F and U+3000 take three.  The decoder accepts
    shortest encodings only, so these are the only byte sequences that
    decode to a white-space rune. *)
Definition space2 (b1 b2 : ascii) : bool :=
  let n1 := N_of_ascii b1 in
  let n2 := N_of_ascii b2 in
  ((n1 =? 194) && ((n2 =? 133) || (n2 =? 160)))%N.

Definition space3 (b1 b2 b3 : ascii) : bool :=
  let n1 := N_of_ascii b1 in
  let n2 := N_of_ascii b2 in
  let n3 := N_of_ascii b3 in
  ((n1 =? 225) && (n2 =? 154) && (n3 =? 128)
   || (n1 =? 226) && (n2 =? 128)
      && ((128 <=? n3) && (n3 <=? 138) || (n3 =? 168) || (n3 =? 169)
          || (n3 =? 175))
   || (n1 =? 226) && (n2 =? 129) && (n3 =? 159)
   || (n1 =? 227) && (n2 =? 128) && (n3 =? 128))%N.

(** Leading white space: runes are decoded front to back and dropped
    while [unicode.IsSpace] holds. *)
Fixpoint TrimLeftSpace (s : string) : string :=
  match s with
  | EmptyString => EmptyString
  | String b1 s1 =>
      if asciiSpace b1 then TrimLeftSpace s1
      else match s1 with
           | String b2 s2 =>
               if space2 b1 b2 then TrimLeftSpace s2
               else match s2 with
                    | String b3 s3 =>
                        if space3 b1 b2 b3 then TrimLeftSpace s3 else s
                    | EmptyString => s
                    end
           | EmptyString => s
           end
  end.

(** Trailing white space, on the reversed string: the last rune is
    decoded back to front, so the bytes of a sequence come in reverse. *)
Fixpoint TrimLeftSpaceRev (r : string) : string :=
  match r with
  | EmptyString => EmptyString
  | String b1 r1 =>
      if asciiSpace b1 then TrimLeftSpaceRev r1
      else match r1 with
           | String b2 r2 =>
               if space2 b2 b1 then TrimLeftSpaceRev r2
               else match r2 with
                    | String b3 r3 =>
                        if space3 b3 b2 b1 then TrimLeftSpaceRev r3 else r
                    | EmptyString => r
                    end
           | EmptyString => r
           end
  end.

Definition TrimRightSpace (s : string) : string :=
  String.rev (TrimLeftSpaceRev (String.rev s)).

(** [strings.TrimSpace(s)] *)
Definition TrimSpace (s : string) : string :=
  TrimRightSpace (TrimLeftSpace s).

(** [unicode.IsNumber(rune(b))] for a byte [b]: the rune is in Latin-1,
    where the category N holds the ten digits, the superscripts U+00B2,
    U+00B3, U+00B9 and the fractions U+00BC..U+00BE. *)
Definition IsNumber (b : ascii) : bool :=
  let n := N_of_ascii b in
  ((48 <=? n) && (n <=? 57) || (n =? 178) || (n =? 179) || (n =? 185)
   || (188 <=? n) && (n <=? 190))%N.

End GoStrings.

Import GoStrings.

(** ** Package [errs] *)

Module Errs.

Inductive error : Type :=
| ErrCollectorNotFound
| ErrEmptyURL
| PackageNotFoundError (kind goos goarch : string)
| VersionNotFoundError (version goos goarch : string)
| MalformedVersionError (version : string)
| URLUnreachableError (url : string).

Definition IsPackageNotFound (e : error) : bool :=
  match e with PackageNotFoundError _ _ _ => true | _ => false end.

Definition IsVersionNotFound (e : error) : bool :=
  match e with VersionNotFoundError _ _ _ => true | _ => false end.

Definition IsMalformedVersion (e : error) : bool :=
  match e with MalformedVersionError _ => true | _ => false end.

End Errs.

Import Errs.

(** A Go result [(value, err)]. *)
Inductive result (A : Type) : Type :=
| Ok (a : A)
| Err (e : error).
Arguments Ok {A} a.
Arguments Err {A} e.

(** A call either returns or panics (index out of range). *)
Inductive outcome (A : Type) : Type :=
| Ret (a : A)
| Panic.
Arguments Ret {A} a.
Arguments Panic {A}.

(** ** Semantic versions ([github.com/Masterminds/semver/v3]) *)

Module Semver.

(** Modelled from the spec: the semantic-version library is a dependency
    whose code is not part of the repository's sources; a version is the
    numeric triple, the prerelease and the build metadata, and versions
    are ordered by semantic-version precedence (numeric triple first, a
    prerelease below its final release, prerelease identifiers compared
    field by field). *)
Record Version : Type := mkVersion {
  major : N;
  minor : N;
  patch : N;
  pre : string;
  metadata : string;
  original : string
}.

Definition isDigit (c : ascii) : bool :=
  let n := N_of_ascii c in ((48 <=? n) && (n <=? 57))%N.

(** Modelled from the spec: the characters of a prerelease or metadata
    identifier, [0-9A-Za-z-]. *)
Definition allowed (c : ascii) : bool :=
  let n := N_of_ascii c in
  (isDigit c || (65 <=? n) && (n <=? 90) || (97 <=? n) && (n <=? 122)
   || (n =? 45))%N.

Fixpoint forallb_str (f : ascii -> bool) (s : string) : bool :=
  match s with
  | EmptyString => true
  | String c s' => f c && forallb_str f s'
  end.

(** The longest prefix of bytes satisfying [f], and the rest. *)
Fixpoint span (f : ascii -> bool) (s : string) : string * string :=
  match s with
  | EmptyString => (EmptyString, EmptyString)
  | String c s' =>
      if f c then let (h, t) := span f s' in (String c h, t)
      else (EmptyString, s)
  end.

Fixpoint digits_value (acc : N) (s : string) : N :=
  match s with
  | EmptyString => acc
  | String c s' => digits_value (10 * acc + (N_of_ascii c - 48))%N s'
  end.

(** [strconv.ParseUint(s, 10, 64)] *)
Definition ParseUint (s : string) : option N :=
  match s with
  | EmptyString => None
  | _ =>
      if forallb_str isDigit s then
        let n := digits_value 0%N s in
        if (n <? 2 ^ 64)%N then Some n else None
      else None
  end.

(** Modelled from the spec: an optional [.digits] group of the version
    pattern. *)
Definition dotNumber (s : string) : string * string :=
  match s with
  | String c s' =>
      if Ascii.eqb c "." then
        match span isDigit s' with
        | (EmptyString, _) => (EmptyString, s)
        | (ds, rest) => (ds, rest)
        end
      else (EmptyString, s)
  | EmptyString => (EmptyString, s)
  end.

(** Modelled from the spec: identifiers separated by dots, each non-empty
    and made of allowed characters. *)
Definition identifiers (s : string) : bool :=
  forallb (fun part => negb (String.eqb part EmptyString)
                       && forallb_str allowed part) (Split s ".").

(** Modelled from the spec: a numeric prerelease identifier must not
    start with a zero. *)
Definition validatePrerelease (p : string) : bool :=
  forallb (fun part =>
             if forallb_str isDigit part then
               negb ((1 <? String.length part)%nat && HasPrefix part "0")
             else forallb_str allowed part) (Split p ".").

(** Modelled from the spec: [semver.NewVersion], the parser of
    [v?MAJOR(.MINOR)?(.PATCH)?(-PRERELEASE)?(+METADATA)?]; a missing
    minor or patch is zero.  [None] is a parse error. *)
Definition NewVersion (v : string) : option Version :=
  let s0 := match v with
            | String c s' => if Ascii.eqb c "v" then s' else v
            | EmptyString => v
            end in
  let (majS, r1) := span isDigit s0 in
  let (minS, r2) := dotNumber r1 in
  let (patS, r3) := dotNumber r2 in
  let (preS, r4) :=
    match r3 with
    | String c s' =>
        if Ascii.eqb c "-"
        then span (fun b => negb (Ascii.eqb b "+")) s'
        else (EmptyString, r3)
    | EmptyString => (EmptyString, r3)
    end in
  let preOk :=
    match r3 with
    | String c _ => if Ascii.eqb c "-" then identifiers preS else true
    | EmptyString => true
    end in
  let metaOk :=
    match r4 with
    | EmptyString => true
    | String c m => Ascii.eqb c "+" && identifiers m
    end in
  let metaS := match r4 with String _ m => m | EmptyString => EmptyString end in
  if preOk && metaOk then
    match ParseUint majS with
    | None => None
    | Some ma =>
        let num (t : string) : option N :=
          match t with EmptyString => Some 0%N | _ => ParseUint t end in
        match num minS, num patS with
        | Some mi, Some pa =>
            if validatePrerelease preS then
              Some (mkVersion ma mi pa preS metaS v)
            else None
        | _, _ => None
        end
    end
  else None.

(** Modelled from the spec: one prerelease identifier against another;
    equal strings are equal, an absent identifier is smallest, numbers are
    below words, numbers compare by value and words bytewise. *)
Definition comparePrePart (s o : string) : comparison :=
  if String.eqb s o then Eq
  else if String.eqb s EmptyString then Lt
  else if String.eqb o EmptyString then Gt
  else match ParseUint o, ParseUint s with
       | None, None => if String.ltb o s then Gt else Lt
       | None, Some _ => Lt
       | Some _, None => Gt
       | Some oi, Some si => if (oi <? si)%N then Gt else Lt
       end.

(** Modelled from the spec: the index loop over the longer of the two
    identifier lists; a missing identifier reads as the empty string. *)
Fixpoint comparePreLoop (l : nat) (sparts oparts : list string)
  : comparison :=
  match l with
  | O => Eq
  | S l' =>
      match comparePrePart (hd EmptyString sparts) (hd EmptyString oparts)
      with
      | Eq => comparePreLoop l' (tl sparts) (tl oparts)
      | d => d
      end
  end.

(** Modelled from the spec: prereleases are compared identifier by
    identifier. *)
Definition comparePrerelease (v o : string) : comparison :=
  let sparts := Split v "." in
  let oparts := Split o "." in
  comparePreLoop (Nat.max (length sparts) (length oparts)) sparts oparts.

(** Modelled from the spec: [Version.Compare], semantic-version
    precedence. *)
Definition Compare (v o : Version) : comparison :=
  match N.compare (major v) (major o) with
  | Eq =>
      match N.compare (minor v) (minor o) with
      | Eq =>
          match N.compare (patch v) (patch o) with
          | Eq =>
              if String.eqb (pre v) EmptyString
                 && String.eqb (pre o) EmptyString then Eq
              else if String.eqb (pre v) EmptyString then Gt
              else if String.eqb (pre o) EmptyString then Lt
              else comparePrerelease (pre v) (pre o)
          | d => d
          end
      | d => d
      end
  | d => d
  end.

(** Modelled from the spec: [Version.LessThan]. *)
Definition LessThan (v o : Version) : bool :=
  match Compare v o with Lt => true | _ => false end.

End Semver.

(** ** Package [version] *)

Module Version.

(** [type PackageKind string] *)
Definition PackageKind : Type := string.
Definition SourceKind : PackageKind := "Source".
Definition ArchiveKind : PackageKind := "Archive".
Definition InstallerKind : PackageKind := "Installer".

Record Package : Type := mkPackage {
  FileName : string;
  URL : string;
  Kind : PackageKind;
  OS : string;
  Arch : string;
  Size : string;
  Checksum : string;
  ChecksumURL : string;
  Algorithm : string
}.

Record Version : Type := mkVersion {
  name : string;
  sv : Semver.Version;
  pkgs : list Package
}.

(** The position at which [Semantify] looks for a prerelease word:
    "alpha" first, then "beta", then "rc"; 0 when there is none. *)
Definition prereleaseIndex (vname : string) : Z :=
  if Contains vname "alpha" then Index vname "alpha"
  else if Contains vname "beta" then Index vname "beta"
  else if Contains vname "rc" then Index vname "rc"
  else 0.

(** The string handed to the parser: a hyphen goes in front of the
    prerelease word unless the word opens the name. *)
Definition hyphenate (vname : string) : string :=
  let idx := prereleaseIndex vname in
  if 0 <? idx
  then slice_to vname idx +:+ "-" +:+ slice_from vname idx
  else vname.

Definition Semantify (vname : string) : result Semver.Version :=
  let vname' := hyphenate vname in
  match Semver.NewVersion vname' with
  | Some sv => Ok sv
  | None => Err (MalformedVersionError vname')
  end.

(** [New(name, WithPackages(pkgs))] *)
Definition New (name : string) (pkgs : list Package) : result Version :=
  match Semantify name with
  | Ok sv => Ok (mkVersion name sv pkgs)
  | Err e => Err e
  end.

Definition Name (v : Version) : string := name v.

(** [Version.match]: some package's file name contains both the OS and
    the architecture. *)
Fixpoint matchPkgs (ps : list Package) (goos goarch : string) : bool :=
  match ps with
  | [] => false
  | pkg :: ps' =>
      if Contains (FileName pkg) goos && Contains (FileName pkg) goarch
      then true
      else matchPkgs ps' goos goarch
  end.

Definition match_ (v : Version) (goos goarch : string) : bool :=
  matchPkgs (pkgs v) goos goarch.

(** Modelled from the spec: [Collection.Less], whose file is not among
    the sources; the collection sorts ascending by semantic version. *)
Definition Less (a b : Version) : bool := Semver.LessThan (sv a) (sv b).

(** A slice sorted by [sort.Sort(Collection(items))]: no element is
    [Less] than one that stands before it. *)
Definition ascending (items : list Version) : Prop :=
  forall i j a b, (i < j)%nat -> items !! i = Some a -> items !! j = Some b ->
                  Less b a = false.

(** [a] may stand before [b] in a sorted collection. *)
Definition notAfter (a b : Version) : Prop := Less b a = false.

#[local] Instance notAfter_dec a b : Decision (notAfter a b).
Proof. unfold notAfter. apply _. Defined.

(** [sort.Sort(Collection(vers))]; the library's sort is not stable, this
    one is one of the orders it may produce. *)
Definition sortCollection (vers : list Version) : list Version :=
  merge_sort notAfter vers.

Definition Latest : string := "latest".

Record Finder : Type := mkFinder {
  kind : PackageKind;
  goos : string;
  goarch : string;
  items : list Version
}.

(** The three options of [NewFinder]; an option is a setter on the
    finder under construction. *)
Definition WithFinderPackageKind (k : PackageKind) (fdr : Finder) : Finder :=
  mkFinder k (goos fdr) (goarch fdr) (items fdr).

Definition WithFinderGoos (os : string) (fdr : Finder) : Finder :=
  mkFinder (kind fdr) os (goarch fdr) (items fdr).

Definition WithFinderGoarch (arch : string) (fdr : Finder) : Finder :=
  mkFinder (kind fdr) (goos fdr) arch (items fdr).

(** The loop of [NewFinder] over its options, [None] being the nil
    function: the guard of the loop tests the slice of options, which is
    never nil inside the loop, so a nil option is called and panics. *)
Fixpoint applyFinderOptions (opts : list (option (Finder -> Finder)))
  (fdr : Finder) : outcome Finder :=
  match opts with
  | [] => Ret fdr
  | None :: _ => Panic
  | Some setter :: rest => applyFinderOptions rest (setter fdr)
  end.

(** [NewFinder(items, opts...)]: the items are sorted first; [GOOS] and
    [GOARCH] stand for [runtime.GOOS] and [runtime.GOARCH]. *)
Definition NewFinder (GOOS GOARCH : string) (items : list Version)
  (opts : list (option (Finder -> Finder))) : outcome Finder :=
  applyFinderOptions opts
    (mkFinder ArchiveKind GOOS GOARCH (sortCollection items)).

(** [WithPackages(pkgs)] *)
Definition WithPackages (ps : list Package) (v : Version) : Version :=
  mkVersion (name v) (sv v) ps.

(** The loop of [New] over its options: a nil option is skipped. *)
Fixpoint applyOptions (opts : list (option (Version -> Version)))
  (v : Version) : Version :=
  match opts with
  | [] => v
  | None :: rest => applyOptions rest v
  | Some setter :: rest => applyOptions rest (setter v)
  end.

(** [New(name, opts...)] with any options. *)
Definition NewWith (name : string) (opts : list (option (Version -> Version)))
  : result Version :=
  match Semantify name with
  | Ok sv => Ok (applyOptions opts (mkVersion name sv []))
  | Err e => Err e
  end.

(** [MustNew(name, opts...)] *)
Definition MustNew (name : string) (opts : list (option (Version -> Version)))
  : outcome Version :=
  match NewWith name opts with
  | Ok v => Ret v
  | Err _ => Panic
  end.

Section Find.

(** The constraint grammar of the semantic-version library:
    [semver.NewConstraint] ([None] is a parse error) and
    [Constraints.Check]. *)
Variable Constraints : Type.
Variable NewConstraint : string -> option Constraints.
Variable Check : Constraints -> Semver.Version -> bool.

Variable fdr : Finder.

(** [for i := n - 1; i >= 0; i--] looking for a platform match. *)
Fixpoint latestLoop (n : nat) : option Version :=
  match n with
  | O => None
  | S i =>
      match items fdr !! i with
      | Some v =>
          if match_ v (goos fdr) (goarch fdr) then Some v
          else latestLoop i
      | None => latestLoop i
      end
  end.

Definition findLatest : result Version :=
  if (length (items fdr) =? 0)%nat then
    Err (VersionNotFoundError Latest (goos fdr) (goarch fdr))
  else
    match latestLoop (length (items fdr)) with
    | Some v => Ok v
    | None => Err (PackageNotFoundError (kind fdr) (goos fdr) (goarch fdr))
    end.

(** The exact-name pass. *)
Fixpoint exactLoop (vname : string) (n : nat) : option Version :=
  match n with
  | O => None
  | S i =>
      match items fdr !! i with
      | Some v =>
          if String.eqb (name v) vname
             && match_ v (goos fdr) (goarch fdr)
          then Some v
          else exactLoop vname i
      | None => exactLoop vname i
      end
  end.

(** The constraint pass; the flag is [versionFound]. *)
Fixpoint constraintLoop (cs : Constraints) (n : nat) (versionFound : bool)
  : option Version * bool :=
  match n with
  | O => (None, versionFound)
  | S i =>
      match items fdr !! i with
      | Some v =>
          if Check cs (sv v) then
            if match_ v (goos fdr) (goarch fdr) then (Some v, true)
            else constraintLoop cs i true
          else constraintLoop cs i versionFound
      | None => constraintLoop cs i versionFound
      end
  end.

Definition Find (vname : string) : result Version :=
  if String.eqb vname Latest then findLatest
  else
    match exactLoop vname (length (items fdr)) with
    | Some v => Ok v
    | None =>
        match NewConstraint vname with
        | None => Err (VersionNotFoundError vname (goos fdr) (goarch fdr))
        | Some cs =>
            match constraintLoop cs (length (items fdr)) false with
            | (Some v, _) => Ok v
            | (None, true) =>
                Err (PackageNotFoundError (kind fdr) (goos fdr)
                       (goarch fdr))
            | (None, false) =>
                Err (VersionNotFoundError vname (goos fdr) (goarch fdr))
            end
        end
    end.

End Find.

Arguments constraintLoop {Constraints} Check fdr cs n versionFound.
Arguments Find {Constraints} NewConstraint Check fdr vname.

Section MustFind.

Variable Constraints : Type.
Variable NewConstraint : string -> option Constraints.
Variable Check : Constraints -> Semver.Version -> bool.

(** [MustFind]: an error of [Find] is a panic. *)
Definition MustFind (fdr : Finder) (vname : string) : outcome Version :=
  match Find NewConstraint Check fdr vname with
  | Ok v => Ret v
  | Err _ => Panic
  end.

(** [Version.MatchConstraint] *)
Definition MatchConstraint (v : Version) (c : Constraints) : bool :=
  Check c (sv v).

End MustFind.

Arguments MustFind {Constraints} NewConstraint Check fdr vname.
Arguments MatchConstraint {Constraints} Check v c.

Section FindPackages.

(** [strings.EqualFold]: equality of two strings under Unicode case
    folding. *)
Variable EqualFold : string -> string -> bool.

(** The loop of [FindPackages] over a slice of package pointers, [None]
    being the nil pointer. *)
Fixpoint findPackagesIn (ptrs : list (option Package)) (kind : PackageKind)
  (prefix : string) : list Package :=
  match ptrs with
  | [] => []
  | None :: rest => findPackagesIn rest kind prefix
  | Some pkg :: rest =>
      if negb (EqualFold (Kind pkg) kind)
         || negb (HasPrefix (FileName pkg) prefix)
      then findPackagesIn rest kind prefix
      else pkg :: findPackagesIn rest kind prefix
  end.

(** [Version.FindPackages(kind, goos, goarch)]; the packages of a
    [Version] are held by value here, so none of its pointers is nil. *)
Definition FindPackages (v : Version) (kind : PackageKind)
  (goos goarch : string) : result (list Package) :=
  let prefix := "go" +:+ name v +:+ "." +:+ goos +:+ "-" +:+ goarch in
  let found := findPackagesIn (Some <$> pkgs v) kind prefix in
  if (length found =? 0)%nat
  then Err (PackageNotFoundError kind goos goarch)
  else Ok found.

End FindPackages.

End Version.

(** ** A fragment of the constraint grammar *)

Module Comparators.

(** Modelled from the spec: the constraint grammar belongs to the
    semantic-version library and the finder is stated for any grammar;
    this fragment, one comparator in front of a complete
    [MAJOR.MINOR.PATCH] version, serves to run the finder on examples.
    As in the library a prerelease version satisfies no constraint that
    names none.  Expressions outside the fragment are rejected here. *)
Inductive comparator : Type := CmpLt | CmpLe | CmpGt | CmpGe | CmpEq.

Record constraint : Type := mkConstraint {
  op : comparator;
  con : Semver.Version
}.

Definition splitOp (s : string) : comparator * string :=
  match s with
  | String "<" (String "=" r) => (CmpLe, r)
  | String ">" (String "=" r) => (CmpGe, r)
  | String "<" r => (CmpLt, r)
  | String ">" r => (CmpGt, r)
  | String "=" r => (CmpEq, r)
  | _ => (CmpEq, s)
  end.

Definition complete (s : string) : bool :=
  match Split s "." with
  | [a; b; c] =>
      forallb (fun part => negb (String.eqb part EmptyString)
                           && Semver.forallb_str Semver.isDigit part) [a; b; c]
  | _ => false
  end.

(** Modelled from the spec: [semver.NewConstraint] on the fragment. *)
Definition NewConstraint (s : string) : option constraint :=
  let (o, r) := splitOp s in
  if complete r then
    match Semver.NewVersion r with
    | Some v => Some (mkConstraint o v)
    | None => None
    end
  else None.

(** Modelled from the spec: [Constraints.Check] on the fragment. *)
Definition Check (c : constraint) (v : Semver.Version) : bool :=
  if negb (String.eqb (Semver.pre v) EmptyString) then false
  else
    match op c, Semver.Compare v (con c) with
    | CmpLt, Lt => true
    | CmpLe, (Lt | Eq) => true
    | CmpGt, Gt => true
    | CmpGe, (Gt | Eq) => true
    | CmpEq, Eq => true
    | _, _ => false
    end.

End Comparators.

(** ** Package [collector/internal]: the file-name decoder *)

Module Internal.

Import Version.

Record GoFileItem : Type := mkItem {
  ItemFileName : string;
  ItemURL : string;
  ItemSize : string
}.

(** [s[0]]: panics on the empty string. *)
Definition firstByte (s : string) : outcome ascii :=
  match s with
  | String b _ => Ret b
  | EmptyString => Panic
  end.

Definition getGoVersion (item : GoFileItem) : outcome string :=
  match Split (TrimPrefix (ItemFileName item) "go") "." with
  | a0 :: a1 :: a2 :: _ =>
      match firstByte a0 with
      | Panic => Panic
      | Ret b0 =>
          if negb (IsNumber b0) then Ret EmptyString
          else
            match firstByte a2 with
            | Panic => Panic
            | Ret b2 =>
                if IsNumber b2 then Ret (a0 +:+ "." +:+ a1 +:+ "." +:+ a2)
                else
                  match firstByte a1 with
                  | Panic => Panic
                  | Ret b1 =>
                      if IsNumber b1 then Ret (a0 +:+ "." +:+ a1)
                      else Ret a0
                  end
            end
      end
  | _ => Ret EmptyString
  end.

Definition isSHA256File (item : GoFileItem) : bool :=
  HasSuffix (ItemFileName item) ".sha256".

Definition isPackageFile (item : GoFileItem) : bool :=
  HasSuffix (ItemFileName item) ".tar.gz"
  || HasSuffix (ItemFileName item) ".pkg"
  || HasSuffix (ItemFileName item) ".zip"
  || HasSuffix (ItemFileName item) ".msi".

Definition getKind (item : GoFileItem) : PackageKind :=
  if HasSuffix (ItemFileName item) ".src.tar.gz" then SourceKind
  else if HasSuffix (ItemFileName item) ".tar.gz"
          || HasSuffix (ItemFileName item) ".zip" then ArchiveKind
  else if HasSuffix (ItemFileName item) ".pkg"
          || HasSuffix (ItemFileName item) ".msi" then InstallerKind
  else "Unknown".

(** The entries of the Go map [osMapping]. *)
Definition osMapping : list (string * string) :=
  [ ("linux", "Linux"); ("darwin", "macOS"); ("windows", "Windows");
    ("freebsd", "FreeBSD"); ("netbsd", "netbsd"); ("openbsd", "openbsd");
    ("solaris", "solaris"); ("plan9", "plan9"); ("aix", "aix");
    ("dragonfly", "dragonfly"); ("illumos", "illumos") ].

(** The entries of the Go map [archMapping]. *)
Definition archMapping : list (string * string) :=
  [ ("-386.", "x86"); ("-amd64.", "x86-64"); ("-arm.", "ARMv6");
    ("-arm64.", "ARM64"); ("-armv6l.", "ARMv6"); ("-ppc64.", "ppc64");
    ("-ppc64le.", "ppc64le"); ("-mips.", "mips"); ("-mipsle.", "mipsle");
    ("-mips64.", "mips64"); ("-mips64le.", "mips64le"); ("-s390x.", "s390x");
    ("-riscv64.", "riscv64"); ("-loong64.", "loong64") ].

(** [for k, v := range table]: the first visited key contained in the
    file name decides.  Go leaves the order of a range over a map open, so
    the visiting order [order] (a permutation of the table) is an
    argument. *)
Fixpoint lookupToken (order : list (string * string)) (fileName : string)
  : string :=
  match order with
  | [] => EmptyString
  | (k, v) :: rest =>
      if Contains fileName k then v else lookupToken rest fileName
  end.

Definition getOS (order : list (string * string)) (item : GoFileItem)
  : string := lookupToken order (ItemFileName item).

Definition getArch (order : list (string * string)) (item : GoFileItem)
  : string := lookupToken order (ItemFileName item).

(** Modelled from the spec: the constant [checksum.SHA256], declared in a
    file that is not among the sources; the fixed label of the checksum
    algorithm. *)
Definition checksum_SHA256 : string := "SHA256".

Section Convert.

(** The orders in which the three map ranges visit their entries: one per
    decoded item for the two token tables, one for the grouped map. *)
Variable osOrder : GoFileItem -> list (string * string).
Variable archOrder : GoFileItem -> list (string * string).
Variable rangeMap :
  gmap string (list Package) -> list (string * list Package).

Definition newPackage (pitem : GoFileItem) : Package :=
  {| FileName := ItemFileName pitem;
     URL := ItemURL pitem;
     Kind := getKind pitem;
     OS := getOS (osOrder pitem) pitem;
     Arch := getArch (archOrder pitem) pitem;
     Size := ItemSize pitem;
     Checksum := EmptyString;
     ChecksumURL := EmptyString;
     Algorithm := EmptyString |}.

(** The body of the loop over the packages of one version for a checksum
    file: the package is updated in place when its file name is a prefix
    of the checksum file's name. *)
Definition attachChecksum (pitem : GoFileItem) (ppkg : Package) : Package :=
  if negb (HasPrefix (ItemFileName pitem) (FileName ppkg)) then ppkg
  else {| FileName := FileName ppkg;
          URL := URL ppkg;
          Kind := Kind ppkg;
          OS := OS ppkg;
          Arch := Arch ppkg;
          Size := Size ppkg;
          Checksum := Checksum ppkg;
          ChecksumURL := ItemURL pitem;
          Algorithm := checksum_SHA256 |}.

(** [pkgMap[ver]], the empty slice when the key is absent. *)
Definition pkgsOf (pkgMap : gmap string (list Package)) (ver : string)
  : list Package := default [] (pkgMap !! ver).

(** One iteration of the first loop of [Convert2Versions]. *)
Definition addItem (pkgMap : gmap string (list Package)) (pitem : GoFileItem)
  : outcome (gmap string (list Package)) :=
  match getGoVersion pitem with
  | Panic => Panic
  | Ret ver =>
      let pkgMap1 :=
        match pkgMap !! ver with
        | Some _ => pkgMap
        | None => <[ver := []]> pkgMap
        end in
      if isPackageFile pitem then
        Ret (<[ver := pkgsOf pkgMap1 ver ++ [newPackage pitem]]> pkgMap1)
      else if isSHA256File pitem then
        Ret (<[ver := attachChecksum pitem <$> pkgsOf pkgMap1 ver]> pkgMap1)
      else Ret pkgMap1
  end.

Fixpoint groupItems (pkgMap : gmap string (list Package))
  (items : list GoFileItem) : outcome (gmap string (list Package)) :=
  match items with
  | [] => Ret pkgMap
  | pitem :: rest =>
      match addItem pkgMap pitem with
      | Panic => Panic
      | Ret pkgMap' => groupItems pkgMap' rest
      end
  end.

(** The second loop: one [Version] per key, the first failure aborts. *)
Fixpoint newVersions (entries : list (string * list Package))
  : result (list Version) :=
  match entries with
  | [] => Ok []
  | (vname, ps) :: rest =>
      match New vname ps with
      | Err e => Err e
      | Ok v =>
          match newVersions rest with
          | Err e => Err e
          | Ok vers => Ok (v :: vers)
          end
      end
  end.

Definition Convert2Versions (items : list GoFileItem)
  : outcome (result (list Version)) :=
  match groupItems ∅ items with
  | Panic => Panic
  | Ret pkgMap =>
      match newVersions (rangeMap pkgMap) with
      | Err e => Ret (Err e)
      | Ok vers => Ret (Ok (sortCollection vers))
      end
  end.

End Convert.

(** The filter of the fancyindex adapter on a row's [href]: it starts with
    "go" and is no directory. *)
Definition keptByAdapter (href : string) : bool :=
  HasPrefix href "go" && negb (HasSuffix href "/").

End Internal.

(** ** Package [collector]: the registry *)

Module Collector.

Definition OriginalOfficialDownloadPageURL : string :=
  "https://golang.org/dl/".
Definition OfficialDownloadPageURL : string := "https://go.dev/dl/".
Definition CNDownloadPageURL : string := "https://golang.google.cn/dl/".
Definition AliYunDownloadPageURL : string :=
  "https://mirrors.aliyun.com/golang/".
Definition HUSTDownloadPageURL : string :=
  "https://mirrors.hust.edu.cn/golang/".
Definition NJUDownloadPageURL : string := "https://mirrors.nju.edu.cn/golang/".
Definition USTCDownloadPageURL : string :=
  "https://mirrors.ustc.edu.cn/golang/".

(** The three implementations of the [Collector] interface. *)
Inductive Adapter : Type := Official | Fancyindex | Autoindex.

Definition official_Name : string := "official".
Definition fancyindex_Name : string := "fancyindex".

(** Modelled from the spec: the constant [autoindex.Name]; the autoindex
    package is not among the sources, its adapter is selected by the
    prefix [autoindex|]. *)
Definition autoindex_Name : string := "autoindex".

Definition adapterName (a : Adapter) : string :=
  match a with
  | Official => official_Name
  | Fancyindex => fancyindex_Name
  | Autoindex => autoindex_Name
  end.

(** The heap of [[]string] backing arrays.  A slice is the address of its
    array and spans it; the nil slice is an address that holds nothing. *)
Abbreviation addr := nat.
Abbreviation heap := (gmap nat (list string)).

Definition elems (h : heap) (a : addr) : list string := default [] (h !! a).

(** [urls[i]] *)
Definition load (h : heap) (a : addr) (i : nat) : string :=
  default EmptyString (elems h a !! i).

(** [urls[i] = v] *)
Definition store (h : heap) (a : addr) (i : nat) (v : string) : heap :=
  <[a := <[i := v]> (elems h a)]> h.

(** [[]string{...}]: a new array at an unused address. *)
Definition alloc (h : heap) (l : list string) : heap * addr :=
  let a := fresh (dom h) in (<[a := l]> h, a).

(** What the loop body decides for the normalized candidate [u]: the
    adapter to construct and its URL, or nothing ([continue]). *)
Definition selectAdapter (u : string) : option (Adapter * string) :=
  let idx := Index u "|" in
  if (0 <? idx) && (idx <? len u - 1) then
    let downloadPageURL := TrimSpace (slice_from u (idx + 1)) in
    let collectorName := TrimSpace (slice_to u idx) in
    if String.eqb collectorName official_Name
    then Some (Official, downloadPageURL)
    else if String.eqb collectorName fancyindex_Name
    then Some (Fancyindex, downloadPageURL)
    else if String.eqb collectorName autoindex_Name
    then Some (Autoindex, downloadPageURL)
    else None
  else if String.eqb u OfficialDownloadPageURL
          || String.eqb u OriginalOfficialDownloadPageURL
          || String.eqb u CNDownloadPageURL
  then Some (Official, u)
  else if String.eqb u AliYunDownloadPageURL
          || String.eqb u HUSTDownloadPageURL
          || String.eqb u NJUDownloadPageURL
  then Some (Fancyindex, u)
  else if String.eqb u USTCDownloadPageURL
  then Some (Autoindex, u)
  else None.

Section Registry.

(** The parsed document of an adapter, and the fetch that its constructor
    performs ([url.Parse], [http.Get], the HTML parser). *)
Variable Document : Type.
Variable loadDocument : Adapter -> string -> result Document.

Record Collector : Type := mkCollector {
  adapter : Adapter;
  url : string;
  doc : Document
}.

Definition Name (c : Collector) : string := adapterName (adapter c).

(** [official.NewCollector], [fancyindex.NewCollector] and
    [autoindex.NewCollector]. *)
Definition newAdapter (a : Adapter) (downloadPageURL : string)
  : result Collector :=
  if String.eqb downloadPageURL EmptyString then Err ErrEmptyURL
  else match loadDocument a downloadPageURL with
       | Err e => Err e
       | Ok d => Ok (mkCollector a downloadPageURL d)
       end.

(** [for i := range urls], with [todo] iterations left. *)
Fixpoint collectorLoop (h : heap) (urls : addr) (todo i : nat)
  : heap * result Collector :=
  match todo with
  | O => (h, Err ErrCollectorNotFound)
  | S todo' =>
      let h1 := store h urls i (TrimSpace (load h urls i)) in
      let h2 := if negb (HasSuffix (load h1 urls i) "/")
                then store h1 urls i (load h1 urls i +:+ "/")
                else h1 in
      match selectAdapter (load h2 urls i) with
      | Some (a, downloadPageURL) => (h2, newAdapter a downloadPageURL)
      | None => collectorLoop h2 urls todo' (S i)
      end
  end.

(** [NewCollector(urls...)] on the heap [h]: the heap after the call and
    the result. *)
Definition NewCollector (h : heap) (urls : addr) : heap * result Collector :=
  let size := length (elems h urls) in
  let '(h0, urls0) :=
    if (size =? 0)%nat
       || (size =? 1)%nat && String.eqb (load h urls 0) EmptyString
    then alloc h [OfficialDownloadPageURL]
    else (h, urls) in
  collectorLoop h0 urls0 (length (elems h0 urls0)) 0.

End Registry.

End Collector.

(** ** Package [version]: checksum verification *)

Module Verify.

Import Version Internal.

(** The errors of [VerifyChecksum]: the sentinel of package [errs], or an
    error of the download or of the comparison. *)
Inductive failure (E : Type) : Type :=
| ErrUnsupportedChecksumAlgorithm
| External (e : E).
Arguments ErrUnsupportedChecksumAlgorithm {E}.
Arguments External {E} e.

Section VerifyChecksum.

(** The errors of the download and of [checksum.VerifyFile]; the constant
    [checksum.SHA1]; [httppkg.DownloadAsBytes] on a URL; and
    [checksum.VerifyFile] on an algorithm, an expected checksum and a file
    name, [None] being the nil error. *)
Variable E : Type.
Variable checksum_SHA1 : string.
Variable DownloadAsBytes : string -> E + string.
Variable VerifyFile : string -> string -> string -> option E.

(** [pkg.VerifyChecksum(filename)]: the package after the call and the
    error, [None] being nil. *)
Definition VerifyChecksum (pkg : Package) (filename : string)
  : Package * option (failure E) :=
  let fetched :=
    if String.eqb (Checksum pkg) EmptyString
       && negb (String.eqb (ChecksumURL pkg) EmptyString)
    then match DownloadAsBytes (ChecksumURL pkg) with
         | inl e => inl e
         | inr data =>
             inr {| FileName := FileName pkg;
                    URL := URL pkg;
                    Kind := Kind pkg;
                    OS := OS pkg;
                    Arch := Arch pkg;
                    Size := Size pkg;
                    Checksum := data;
                    ChecksumURL := ChecksumURL pkg;
                    Algorithm := Algorithm pkg |}
         end
    else inr pkg in
  match fetched with
  | inl e => (pkg, Some (External e))
  | inr pkg1 =>
      if String.eqb (Algorithm pkg1) checksum_SHA256
      then (pkg1, option_map External
                    (VerifyFile checksum_SHA256 (Checksum pkg1) filename))
      else if String.eqb (Algorithm pkg1) checksum_SHA1
      then (pkg1, option_map External
                    (VerifyFile checksum_SHA1 (Checksum pkg1) filename))
      else (pkg1, Some ErrUnsupportedChecksumAlgorithm)
  end.

End VerifyChecksum.

End Verify.

(** ** Package [fancyindex]: the listing of a mirror *)

Module Fancyindex.

Import Version Internal.

(** A row of the listing: the [href] and the text of the anchor in the
    link cell, and the text of the size cell. *)
Record Row : Type := mkRow {
  Href : string;
  Text : string;
  SizeText : string
}.

Section Listing.

Variable osOrder : GoFileItem -> list (string * string).
Variable archOrder : GoFileItem -> list (string * string).
Variable rangeMap :
  gmap string (list Package) -> list (string * list Package).

(** [findGoFileItems] on the rows of the first table, for the collector's
    URL [url]. *)
Fixpoint findGoFileItems (url : string) (rows : list Row)
  : list GoFileItem :=
  match rows with
  | [] => []
  | tr :: rest =>
      if negb (HasPrefix (Href tr) "go") || HasSuffix (Href tr) "/"
      then findGoFileItems url rest
      else mkItem (Text tr) (url +:+ Href tr) (TrimSpace (SizeText tr))
             :: findGoFileItems url rest
  end.

(** [StableVersions], [UnstableVersions] and [ArchivedVersions]: a mirror
    does not tell. *)
Definition StableVersions : result (list Version) := Ok [].
Definition UnstableVersions : result (list Version) := Ok [].
Definition ArchivedVersions : result (list Version) := Ok [].

(** [AllVersions] *)
Definition AllVersions (url : string) (rows : list Row)
  : outcome (result (list Version)) :=
  let items := findGoFileItems url rows in
  if (length items =? 0)%nat then Ret (Ok [])
  else Convert2Versions osOrder archOrder rangeMap items.

End Listing.

End Fancyindex.

(** ** Package [github]: release assets *)

Module Github.

Record Asset : Type := mkAsset {
  AssetName : string;
  ContentType : string;
  BrowserDownloadURL : string
}.

Definition IsCompressedFile (a : Asset) : bool :=
  String.eqb (ContentType a) "application/zip"
  || String.eqb (ContentType a) "application/x-gzip".

End Github.

(** ** Package [cli]: what the commands select *)

Module Cli.

Import Version Github.

Section SelfUpdate.

(** [runtime.GOOS] and [runtime.GOARCH]. *)
Variable GOOS GOARCH : string.

(** The suffix that [findAsset] and [findChecksum] look for. *)
Definition assetSuffix : string :=
  let ext := if String.eqb GOOS "windows" then "zip" else "tar.gz" in
  GOOS +:+ "-" +:+ GOARCH +:+ "." +:+ ext.

(** The loop of [findAsset] from index [i] on. *)
Fixpoint findAssetFrom (items : list Asset) (i : Z) : Z :=
  match items with
  | [] => -1
  | a :: rest =>
      if HasSuffix (BrowserDownloadURL a) assetSuffix then i
      else findAssetFrom rest (i + 1)
  end.

Definition findAsset (items : list Asset) : Z := findAssetFrom items 0.

End SelfUpdate.

(** An entry of a directory: its name, and whether it is a directory. *)
Record DirEntry : Type := mkDirEntry {
  EntryName : string;
  IsDir : bool
}.

(** The loop of [listLocalVersions] over the entries. *)
Fixpoint localItems (dirs : list DirEntry) : list Version :=
  match dirs with
  | [] => []
  | d :: rest =>
      if negb (IsDir d) then localItems rest
      else match NewWith (EntryName d) [] with
           | Err _ => localItems rest
           | Ok v => v :: localItems rest
           end
  end.

(** [listLocalVersions] on the result of [os.ReadDir], [None] being its
    error, which is handed on. *)
Definition listLocalVersions (readDir : option (list DirEntry))
  : option (list Version) :=
  match readDir with
  | None => None
  | Some dirs => Some (sortCollection (localItems dirs))
  end.

Definition stableChannel : string := "stable".
Definition unstableChannel : string := "unstable".
Definition archivedChannel : string := "archived".

(** What the four listing methods of a collector return, [None] being an
    error. *)
Record Remote : Type := mkRemote {
  StableVersions : option (list Version);
  UnstableVersions : option (list Version);
  ArchivedVersions : option (list Version);
  AllVersions : option (list Version)
}.

Section Commands.

Variable Constraints : Type.
Variable NewConstraint : string -> option Constraints.
Variable Check : Constraints -> Semver.Version -> bool.

(** The strict pass of [use]: the first version with the name. *)
Fixpoint strictLoop (versions : list Version) (vname : string)
  : option Version :=
  match versions with
  | [] => None
  | v :: rest =>
      if negb (String.eqb (Name v) vname) then strictLoop rest vname
      else Some v
  end.

(** The fuzzy pass of [use]: [for j := n - 1; j >= 0; j--]. *)
Fixpoint fuzzyLoop (versions : list Version) (cs : Constraints) (n : nat)
  : option Version :=
  match n with
  | O => None
  | S j =>
      match versions !! j with
      | Some v =>
          if negb (MatchConstraint Check v cs) then fuzzyLoop versions cs j
          else Some v
      | None => fuzzyLoop versions cs j
      end
  end.

(** [use] from the listing of the local versions on: the name it hands to
    [switchVersion], or [None] when it exits with status 1 before. *)
Definition useTarget (versions : list Version) (vname : string)
  : option string :=
  match strictLoop versions vname with
  | Some v => Some (Name v)
  | None =>
      match NewConstraint vname with
      | None => None
      | Some cs =>
          match fuzzyLoop versions cs (length versions) with
          | Some v => Some (Name v)
          | None => None
          end
      end
  end.

(** [use] for the argument [arg]: [goMod] is the content of [go.mod]
    ([None] when it cannot be read), [getGoDirective] the extraction of
    its go directive, [local] the result of [listLocalVersions]. *)
Definition use (getGoDirective : string -> string) (goMod : option string)
  (local : option (list Version)) (arg : string) : option string :=
  let named :=
    if String.eqb arg EmptyString then
      match goMod with
      | None => None
      | Some goModData =>
          let goDirective := getGoDirective goModData in
          if String.eqb goDirective EmptyString then None
          else Some goDirective
      end
    else Some arg in
  match named with
  | None => None
  | Some vname =>
      match local with
      | None => None
      | Some versions => useTarget versions vname
      end
  end.

(** The filter of [listRemote], [None] being the nil constraint, on which
    [MatchConstraint] panics. *)
Fixpoint matchLoop (cs : option Constraints) (vs : list Version)
  : outcome (list Version) :=
  match vs with
  | [] => Ret []
  | v :: rest =>
      match cs with
      | None => Panic
      | Some c =>
          match matchLoop cs rest with
          | Panic => Panic
          | Ret newVs =>
              if MatchConstraint Check v c then Ret (v :: newVs)
              else Ret newVs
          end
      end
  end.

(** [listRemote] for the argument [vname]: [newCollector] is the result of
    [collector.NewCollector] with the collector's listings, [None] being
    an error.  The result is the list that is rendered, [None] when the
    command exits with status 1. *)
Definition listRemote (newCollector : option Remote) (vname : string)
  : outcome (option (list Version)) :=
  let parsed : option (option Constraints) :=
    if negb (String.eqb vname EmptyString)
       && negb (String.eqb vname stableChannel)
       && negb (String.eqb vname unstableChannel)
       && negb (String.eqb vname archivedChannel)
       && negb (String.eqb vname Latest)
    then match NewConstraint vname with
         | None => None
         | Some c => Some (Some c)
         end
    else Some None in
  match parsed with
  | None => Ret None
  | Some cs =>
      match newCollector with
      | None => Ret None
      | Some c =>
          if String.eqb vname stableChannel then Ret (StableVersions c)
          else if String.eqb vname unstableChannel
          then Ret (UnstableVersions c)
          else if String.eqb vname archivedChannel
          then Ret (ArchivedVersions c)
          else
            match AllVersions c with
            | None => Ret None
            | Some vs =>
                let latest :=
                  if String.eqb vname Latest then
                    match vs !! (length vs - 1)%nat with
                    | Some v => Ret [v]
                    | None => Panic
                    end
                  else Ret vs in
                match latest with
                | Panic => Panic
                | Ret vs1 =>
                    if negb (String.eqb vname EmptyString)
                       && negb (String.eqb vname Latest)
                    then match matchLoop cs vs1 with
                         | Panic => Panic
                         | Ret newVs => Ret (Some newVs)
                         end
                    else Ret (Some vs1)
                end
            end
      end
  end.

End Commands.

End Cli.

(** ** Sample data *)

Module Samples.

Import Version Internal.

Definition archive (fileName : string) : Package :=
  mkPackage fileName ("https://go.dev/dl/" +:+ fileName) ArchiveKind
    EmptyString EmptyString EmptyString EmptyString EmptyString EmptyString.

Definition go1_18_10 : Version :=
  mkVersion "1.18.10" (Semver.mkVersion 1 18 10 "" "" "1.18.10")
    [archive "go1.18.10.linux-amd64.tar.gz"].

Definition go1_19_0 : Version :=
  mkVersion "1.19.0" (Semver.mkVersion 1 19 0 "" "" "1.19.0")
    [archive "go1.19.0.linux-amd64.tar.gz";
     archive "go1.19.0.darwin-arm64.tar.gz"].

Definition go1_20_1 : Version :=
  mkVersion "1.20.1" (Semver.mkVersion 1 20 1 "" "" "1.20.1")
    [archive "go1.20.1.linux-amd64.tar.gz"].

Definition go1_21rc4 : Version :=
  mkVersion "1.21rc4" (Semver.mkVersion 1 21 0 "rc4" "" "1.21-rc4")
    [archive "go1.21rc4.darwin-arm64.tar.gz"].

(** An ascending corpus: 1.18.10 and 1.20.1 have no build for darwin on
    arm64, 1.19.0 and the release candidate have one. *)
Definition corpus : list Version :=
  [go1_18_10; go1_19_0; go1_20_1; go1_21rc4].

Definition darwinArm64 (items : list Version) : Finder :=
  mkFinder ArchiveKind "darwin" "arm64" items.

Definition listing : list GoFileItem :=
  [ mkItem "go1.21.4.linux-amd64.tar.gz"
      "https://mirrors.aliyun.com/golang/go1.21.4.linux-amd64.tar.gz" "63M";
    mkItem "go1.21.4.src.tar.gz"
      "https://mirrors.aliyun.com/golang/go1.21.4.src.tar.gz" "26M";
    mkItem "go1.21.4.linux-amd64.tar.gz.sha256"
      "https://mirrors.aliyun.com/golang/go1.21.4.linux-amd64.tar.gz.sha256"
      "64" ].

(** One way to range over the maps: the tables as written, the grouped
    map in the order of its list of entries. *)
Definition convert (items : list GoFileItem)
  : outcome (result (list Version)) :=
  Convert2Versions (fun _ => osMapping) (fun _ => archMapping)
    map_to_list items.

(** A fetch that always succeeds, with an empty document. *)
Definition noFetch (a : Collector.Adapter) (downloadPageURL : string)
  : result unit := Ok tt.

(** The listing as the rows of a mirror's table, with a directory and a
    file of another product among them. *)
Definition rows : list Fancyindex.Row :=
  [ Fancyindex.mkRow "../" "Parent directory/" "-";
    Fancyindex.mkRow "go1.21.4.linux-amd64.tar.gz"
      "go1.21.4.linux-amd64.tar.gz" " 63M ";
    Fancyindex.mkRow "go1.21.4.src.tar.gz" "go1.21.4.src.tar.gz" " 26M ";
    Fancyindex.mkRow "go1.21.4.linux-amd64.tar.gz.sha256"
      "go1.21.4.linux-amd64.tar.gz.sha256" " 64 ";
    Fancyindex.mkRow "rust-1.70.tar.gz" "rust-1.70.tar.gz" " 90M " ].

Definition mirror (rows : list Fancyindex.Row)
  : outcome (result (list Version)) :=
  Fancyindex.AllVersions (fun _ => osMapping) (fun _ => archMapping)
    map_to_list "https://mirrors.aliyun.com/golang/" rows.

(** The assets of a release. *)
Definition assets : list Github.Asset :=
  [ Github.mkAsset "sha256sum.txt" "text/plain"
      "https://github.com/voidint/g/releases/download/v1.8.0/sha256sum.txt";
    Github.mkAsset "g1.8.0.darwin-arm64.tar.gz" "application/x-gzip"
      "https://github.com/voidint/g/releases/download/v1.8.0/g1.8.0.darwin-arm64.tar.gz";
    Github.mkAsset "g1.8.0.linux-amd64.tar.gz" "application/x-gzip"
      "https://github.com/voidint/g/releases/download/v1.8.0/g1.8.0.linux-amd64.tar.gz" ].

(** The entries of a versions directory. *)
Definition entries : list Cli.DirEntry :=
  [ Cli.mkDirEntry "1.20.14" true;
    Cli.mkDirEntry "invalid_version" true;
    Cli.mkDirEntry "1.24rc3" true;
    Cli.mkDirEntry "1.19.0" false ].

(** A download that always delivers, and a comparison that always
    agrees. *)
Definition fetched (url : string) : unit + string := inr "0f1e2d"%string.
Definition agrees (algo expected filename : string) : option unit := None.

(** What the listing converts to. *)
Definition linuxArchive : Package :=
  mkPackage "go1.21.4.linux-amd64.tar.gz"
    "https://mirrors.aliyun.com/golang/go1.21.4.linux-amd64.tar.gz"
    ArchiveKind "Linux" "x86-64" "63M" ""
    "https://mirrors.aliyun.com/golang/go1.21.4.linux-amd64.tar.gz.sha256"
    "SHA256".

Definition sourceArchive : Package :=
  mkPackage "go1.21.4.src.tar.gz"
    "https://mirrors.aliyun.com/golang/go1.21.4.src.tar.gz"
    SourceKind "" "" "26M" "" "" "".

Definition go1_21_4 : Version :=
  mkVersion "1.21.4" (Semver.mkVersion 1 21 4 "" "" "1.21.4")
    [linuxArchive; sourceArchive].

End Samples.

Import Version Internal Collector.

(** ** The vocabulary of the statements *)

(** [sub] occurs in [s]. *)
Definition substring_of (sub s : string) : Prop :=
  exists p q, s = p +:+ sub +:+ q.

(** [s] ends with [suf]. *)
Definition ends_with (s suf : string) : Prop := exists p, s = p +:+ suf.

(** [s] starts with [p]. *)
Definition starts_with (s p : string) : Prop := exists q, s = p +:+ q.

(** The last byte of a non-empty string. *)
Fixpoint lastByte (s : string) : option ascii :=
  match s with
  | EmptyString => None
  | String c EmptyString => Some c
  | String _ s' => lastByte s'
  end.

(** Some package of [v] has a file name that contains both [os] and
    [arch]. *)
Definition platform_match (v : Version) (os arch : string) : Prop :=
  exists pkg, pkg ∈ pkgs v /\ substring_of os (FileName pkg)
              /\ substring_of arch (FileName pkg).

(** The three loops of the finder walk the slice from its last index down
    and stop at the first version that passes a test. *)
Fixpoint scanDown (P : Version -> bool) (l : list Version) (n : nat)
  : option Version :=
  match n with
  | O => None
  | S i =>
      match l !! i with
      | Some v => if P v then Some v else scanDown P l i
      | None => scanDown P l i
      end
  end.

Section FinderTests.

Variable Constraints : Type.
Variable Check : Constraints -> Semver.Version -> bool.
Variable fdr : Version.Finder.

(** The tests of the three loops. *)
Definition passLatest (v : Version) : bool :=
  match_ v (goos fdr) (goarch fdr).

Definition passExact (vname : string) (v : Version) : bool :=
  String.eqb (name v) vname && match_ v (goos fdr) (goarch fdr).

Definition passConstraint (cs : Constraints) (v : Version) : bool :=
  Check cs (sv v) && match_ v (goos fdr) (goarch fdr).

End FinderTests.

Arguments passConstraint {Constraints} Check fdr cs v.

(** The dot-separated components that [getGoVersion] works on. *)
Definition components (item : GoFileItem) : list string :=
  Split (TrimPrefix (ItemFileName item) "go") ".".

(** The component is non-empty and [unicode.IsNumber] holds of its first
    byte. *)
Definition numeric_leading (s : string) : bool :=
  match s with
  | String b _ => IsNumber b
  | EmptyString => false
  end.

(** A non-numeric second component after a numeric first one makes the
    version the first component alone. *)
Definition second_decides (item : GoFileItem) : Prop :=
  forall a0 a1 a2 rest,
    components item = a0 :: a1 :: a2 :: rest ->
    numeric_leading a0 = true -> numeric_leading a1 = false ->
    getGoVersion item = Ret a0.

(** A candidate as the loop rewrites it: white space trimmed, a trailing
    slash enforced. *)
Definition normalize (s : string) : string :=
  let t := TrimSpace s in if HasSuffix t "/" then t else t +:+ "/".

(** The table of well-known download pages. *)
Definition wellKnown : list (string * Adapter) :=
  [ (OfficialDownloadPageURL, Official);
    (OriginalOfficialDownloadPageURL, Official);
    (CNDownloadPageURL, Official);
    (AliYunDownloadPageURL, Fancyindex);
    (HUSTDownloadPageURL, Fancyindex);
    (NJUDownloadPageURL, Fancyindex);
    (USTCDownloadPageURL, Autoindex) ].

(** Left to right: the slice as the loop leaves it, and the selection of
    the first candidate that resolves. *)
Fixpoint resolve (l : list string) : list string * option (Adapter * string) :=
  match l with
  | [] => ([], None)
  | s :: rest =>
      match selectAdapter (normalize s) with
      | Some sel => (normalize s :: rest, Some sel)
      | None => let (rest', r) := resolve rest in (normalize s :: rest', r)
      end
  end.

(** The selection of the first candidate, from the left, that resolves. *)
Fixpoint firstSelected (l : list string) : option (Adapter * string) :=
  match l with
  | [] => None
  | s :: rest =>
      match selectAdapter (normalize s) with
      | Some sel => Some sel
      | None => firstSelected rest
      end
  end.

(** The input that makes [NewCollector] fall back to the official page:
    no string at all, or the empty string alone. *)
Definition defaulted (l : list string) : bool :=
  (length l =? 0)%nat
  || (length l =? 1)%nat && String.eqb (default "" (l !! 0%nat)) "".

(** Every element up to the first resolving candidate is overwritten,
    in the caller's slice, with its normalized form. *)
Definition overwrites_examined (l : list string) : Prop :=
  forall (h : heap) (urls : addr) (i : nat) (s : string),
    h !! urls = Some l -> l !! i = Some s ->
    (forall j t, (j < i)%nat -> l !! j = Some t ->
                 selectAdapter (normalize t) = None) ->
    elems (fst (NewCollector unit Samples.noFetch h urls)) urls !! i
    = Some (normalize s).

(** A decision procedure for [ascending]. *)
Fixpoint ascendingb (l : list Version) : bool :=
  match l with
  | [] => true
  | a :: rest => forallb (fun b => negb (Less b a)) rest && ascendingb rest
  end.

Section Construction.

Variable Document : Type.
Variable loadDocument : Collector.Adapter -> string -> result Document.

(** The adapter constructor on a selection; no selection is
    CollectorNotFound. *)
Definition construct (r : option (Adapter * string))
  : result (Collector Document) :=
  match r with
  | Some (a, downloadPageURL) =>
      newAdapter Document loadDocument a downloadPageURL
  | None => Err ErrCollectorNotFound
  end.

End Construction.

Arguments construct {Document} loadDocument r.

(** The byte [c] occurs in [s]. *)
Fixpoint occurs (c : ascii) (s : string) : bool :=
  match s with
  | EmptyString => false
  | String d s' => Ascii.eqb c d || occurs c s'
  end.

(** The bytes of a dotted number. *)
Definition digitOrDot (c : ascii) : bool :=
  Semver.isDigit c || Ascii.eqb c ".".

(** The version of a name that [Semantify] accepts. *)
Definition parsed (vname : string) (v : Semver.Version) : Prop :=
  Semantify vname = Ok v.

Section FinderOutcome.

Variable Constraints : Type.
Variable NewConstraint : string -> option Constraints.
Variable Check : Constraints -> Semver.Version -> bool.

(** What an expression asks of a version: anything for "latest"; else
    the version's name, or the constraint the expression parses to. *)
Definition selects (vname : string) (v : Version) : Prop :=
  vname = Latest
  \/ (vname <> Latest
      /\ (name v = vname
          \/ exists cs, NewConstraint vname = Some cs
                        /\ Check cs (sv v) = true)).

(** A version that [Find] may return. *)
Definition qualifies (fdr : Finder) (vname : string) (v : Version) : Prop :=
  v ∈ items fdr /\ selects vname v
  /\ platform_match v (goos fdr) (goarch fdr).

End FinderOutcome.

Arguments selects {Constraints} NewConstraint Check vname v.
Arguments qualifies {Constraints} NewConstraint Check fdr vname v.

(** The file-name prefix that [FindPackages] asks for. *)
Definition platformPrefix (v : Version) (goos goarch : string) : string :=
  "go" +:+ name v +:+ "." +:+ goos +:+ "-" +:+ goarch.

(** The expressions that a version answers to without its name. *)
Definition covered {Constraints : Type}
  (NewConstraint : string -> option Constraints)
  (Check : Constraints -> Semver.Version -> bool)
  (vname : string) (v : Version) : Prop :=
  vname = Latest
  \/ exists cs, NewConstraint vname = Some cs /\ Check cs (sv v) = true.

(** The options that the package offers for [NewFinder]. *)
Definition finderOption (o : option (Finder -> Finder)) : Prop :=
  (exists k, o = Some (WithFinderPackageKind k))
  \/ (exists os, o = Some (WithFinderGoos os))
  \/ (exists arch, o = Some (WithFinderGoarch arch)).

(** The version extracted from a record is [ver]. *)
Definition versionIs (ver : string) (pitem : GoFileItem) : bool :=
  match getGoVersion pitem with
  | Ret v => String.eqb v ver
  | Panic => false
  end.

Section Grouping.

Variable osOrder : GoFileItem -> list (string * string).
Variable archOrder : GoFileItem -> list (string * string).

(** A package of version [ver] after the checksum files of that version
    among the records [later], taken in their order. *)
Definition pairLater (ver : string) (later : list GoFileItem) (pkg : Package)
  : Package :=
  fold_left (fun ppkg pitem =>
               if isSHA256File pitem && versionIs ver pitem
               then attachChecksum pitem ppkg else ppkg) later pkg.

(** The packages of version [ver] in a listing: one per package file of
    that version, in the order of the listing, each paired with the
    checksum files that come after it. *)
Fixpoint packagesOf (ver : string) (items : list GoFileItem) : list Package :=
  match items with
  | [] => []
  | pitem :: rest =>
      if isPackageFile pitem && versionIs ver pitem
      then pairLater ver rest (newPackage osOrder archOrder pitem)
             :: packagesOf ver rest
      else packagesOf ver rest
  end.

End Grouping.

(** The checksum file [c] is paired with the package [p] of version
    [ver]. *)
Definition pairs (ver : string) (c : GoFileItem) (p : Package) : bool :=
  isSHA256File c && versionIs ver c
  && HasPrefix (ItemFileName c) (FileName p).

(** An architecture key: a token between a hyphen and a dot. *)
Definition archKey (x : string) : string := "-" +:+ x +:+ ".".

(** * Properties *)

(** ** Byte strings *)

#[local] Arguments String.append !_ _ / : simpl nomatch.

Section StringFacts.

Local Open Scope nat_scope.

Lemma append_nil_r (s : string) : s +:+ "" = s.
Proof. induction s as [|c t IH]; simpl; [reflexivity | now f_equal]. Qed.

Lemma append_assoc (a b c : string) : (a +:+ b) +:+ c = a +:+ b +:+ c.
Proof. induction a as [|x t IH]; simpl; [reflexivity | now f_equal]. Qed.

Lemma length_append (a b : string) :
  String.length (a +:+ b) = String.length a + String.length b.
Proof. induction a as [|x t IH]; simpl; [reflexivity | now f_equal]. Qed.

Lemma prefix_spec (p s : string) :
  String.prefix p s = true <-> exists q, s = p +:+ q.
Proof.
  revert s. induction p as [|c p IH]; intros s.
  - split; [intros _; exists s; reflexivity | intros _; destruct s; reflexivity].
  - destruct s as [|d s]; simpl.
    + split; [discriminate | intros [q Hq]; discriminate].
    + destruct (Ascii.ascii_dec c d) as [->|Hne].
      * rewrite IH. split; intros [q Hq]; exists q; congruence.
      * split; [discriminate | intros [q Hq]; congruence].
Qed.

Lemma HasPrefix_spec (s p : string) :
  HasPrefix s p = true <-> exists q, s = p +:+ q.
Proof. apply prefix_spec. Qed.

Lemma index_cons (sub : string) (c : ascii) (s : string) :
  String.index 0 sub (String c s) =
  if String.prefix sub (String c s) then Some 0
  else match String.index 0 sub s with
       | Some n => Some (S n)
       | None => None
       end.
Proof. reflexivity. Qed.

Lemma index_Some_split (sub s : string) (m : nat) :
  String.index 0 sub s = Some m ->
  exists p q, s = p +:+ sub +:+ q /\ String.length p = m.
Proof.
  revert m. induction s as [|c s IH]; intros m.
  - simpl. destruct sub; [|discriminate]. intros [= <-]. exists "", "". auto.
  - rewrite index_cons. destruct (String.prefix sub (String c s)) eqn:Hp.
    + intros [= <-]. apply prefix_spec in Hp as [q Hq].
      exists "", q. auto.
    + destruct (String.index 0 sub s) as [k|]; [|discriminate].
      intros [= <-]. destruct (IH k eq_refl) as (p & q & -> & <-).
      exists (String c p), q. auto.
Qed.

Lemma index_None_split (sub s : string) :
  String.index 0 sub s = None -> ~ substring_of sub s.
Proof.
  induction s as [|c s IH].
  - simpl. destruct sub as [|d sub]; [discriminate|].
    intros _ (p & q & H). destruct p; discriminate.
  - rewrite index_cons.
    destruct (String.prefix sub (String c s)) eqn:Hp; [discriminate|].
    destruct (String.index 0 sub s) as [k|] eqn:Hi; [discriminate|].
    intros _ (p & q & H). destruct p as [|d p].
    + assert (String.prefix sub (String c s) = true) as Ht
        by (apply prefix_spec; exists q; exact H).
      congruence.
    + apply IH; [reflexivity|]. exists p, q. simpl in H. congruence.
Qed.

Lemma Contains_spec (s sub : string) :
  Contains s sub = true <-> substring_of sub s.
Proof.
  unfold Contains, Index.
  destruct (String.index 0 sub s) as [m|] eqn:Hi.
  - split; [intros _ | intros _; apply Z.leb_le; lia].
    destruct (index_Some_split _ _ _ Hi) as (p & q & H & _). exists p, q; exact H.
  - split; [discriminate|]. intros H. now apply index_None_split in Hi.
Qed.

Lemma substring_drop (p q : string) :
  String.substring (String.length p) (String.length q) (p +:+ q) = q.
Proof.
  induction p as [|c p IH]; simpl; [|exact IH].
  induction q as [|d q IHq]; simpl; [reflexivity|]. now rewrite IHq.
Qed.

Lemma substring_split (s : string) (n : nat) :
  n <= String.length s ->
  s = String.substring 0 n s +:+ String.substring n (String.length s - n) s.
Proof.
  revert n. induction s as [|c s IH]; intros n Hn; simpl in *.
  - destruct n; [reflexivity | lia].
  - destruct n as [|n]; simpl.
    + f_equal. specialize (IH 0 ltac:(lia)). simpl in IH.
      rewrite Nat.sub_0_r in IH.
      destruct s; simpl in *; [reflexivity|].
      injection IH as IH. now rewrite <- IH.
    + f_equal. apply IH. lia.
Qed.

Lemma HasSuffix_spec (s suf : string) :
  HasSuffix s suf = true <-> exists p, s = p +:+ suf.
Proof.
  unfold HasSuffix, slice_from, len. split.
  - intros H. apply andb_true_iff in H as [Hle Heq].
    apply Z.leb_le in Hle. apply String.eqb_eq in Heq.
    assert (Z.to_nat (Z.of_nat (String.length s) - Z.of_nat (String.length suf))
            = String.length s - String.length suf) as E by lia.
    rewrite E in Heq.
    exists (String.substring 0 (String.length s - String.length suf) s).
    pose proof (substring_split s (String.length s - String.length suf)
                  ltac:(lia)) as Hs.
    replace (String.length s - (String.length s - String.length suf))
      with (String.length suf) in Hs by lia.
    replace (String.length s - (String.length s - String.length suf))
      with (String.length suf) in Heq by lia.
    rewrite Heq in Hs. exact Hs.
  - intros [p ->]. rewrite length_append. apply andb_true_iff. split.
    + apply Z.leb_le. lia.
    + apply String.eqb_eq.
      replace (Z.to_nat _) with (String.length p) by lia.
      replace (String.length p + String.length suf - String.length p)
        with (String.length suf) by lia.
      apply substring_drop.
Qed.

End StringFacts.

(** ** Semantic-version precedence *)

Section SemverFacts.

Import Semver.

Lemma comparePrePart_refl (s : string) : comparePrePart s s = Eq.
Proof. unfold comparePrePart. now rewrite String.eqb_refl. Qed.

Lemma comparePreLoop_refl (l : nat) (parts : list string) :
  comparePreLoop l parts parts = Eq.
Proof.
  revert parts. induction l as [|l IH]; intros parts; simpl; [reflexivity|].
  now rewrite comparePrePart_refl.
Qed.

Lemma Compare_refl (v : Semver.Version) : Compare v v = Eq.
Proof.
  unfold Compare. rewrite !N.compare_refl.
  destruct (String.eqb (pre v) ""); simpl; [reflexivity|].
  apply comparePreLoop_refl.
Qed.

Lemma LessThan_irrefl (v : Semver.Version) : LessThan v v = false.
Proof. unfold LessThan. now rewrite Compare_refl. Qed.

End SemverFacts.

(** ** The finder *)

Section FinderFacts.

Import Version.

Variable Constraints : Type.
Variable NewConstraint : string -> option Constraints.
Variable Check : Constraints -> Semver.Version -> bool.

Lemma match_spec (v : Version) (os arch : string) :
  match_ v os arch = true <-> platform_match v os arch.
Proof.
  unfold match_, platform_match. induction (pkgs v) as [|p ps IH]; simpl.
  - split; [discriminate | intros (pkg & H & _); inversion H].
  - destruct (Contains (FileName p) os && Contains (FileName p) arch) eqn:E.
    + split; [intros _ | reflexivity]. exists p.
      apply andb_true_iff in E as [E1 E2].
      rewrite !Contains_spec in *. split; [left | auto].
    + rewrite IH. split.
      * intros (pkg & Hin & H). exists pkg. split; [now right | exact H].
      * intros (pkg & Hin & H1 & H2). inversion Hin; subst.
        -- rewrite <- !Contains_spec in *. rewrite H1, H2 in E. discriminate.
        -- exists pkg. auto.
Qed.

Lemma match_false (v : Version) (os arch : string) :
  match_ v os arch = false <-> ~ platform_match v os arch.
Proof.
  rewrite <- match_spec. destruct (match_ v os arch); split; congruence.
Qed.

Lemma scanDown_find (P : Version -> bool) (l : list Version) (n : nat) :
  scanDown P l n = List.find P (rev (take n l)).
Proof.
  induction n as [|i IH]; simpl; [reflexivity|].
  destruct (l !! i) as [v|] eqn:E.
  - rewrite (take_S_r _ _ _ E), rev_app_distr. simpl.
    destruct (P v); [reflexivity | exact IH].
  - apply lookup_ge_None in E.
    rewrite IH, !take_ge by lia. reflexivity.
Qed.

Lemma find_skip (P : Version -> bool) (l1 l2 : list Version) :
  (forall w, w ∈ l1 -> P w = false) ->
  List.find P (l1 ++ l2) = List.find P l2.
Proof.
  induction l1 as [|x l1 IH]; intros H; simpl; [reflexivity|].
  rewrite (H x) by left. apply IH. intros w Hw. apply H. now right.
Qed.

Lemma In_rev_elem (w : Version) (l : list Version) : In w (rev l) <-> w ∈ l.
Proof. rewrite <- in_rev. symmetry. apply list_elem_of_In. Qed.

(** The scan over the whole slice returns the last version that passes. *)
Lemma scanDown_last (P : Version -> bool) (below above : list Version)
  (v : Version) :
  P v = true -> (forall w, w ∈ above -> P w = false) ->
  scanDown P (below ++ v :: above) (length (below ++ v :: above)) = Some v.
Proof.
  intros Hv Habove. rewrite scanDown_find, take_ge by lia.
  rewrite rev_app_distr. simpl. rewrite <- app_assoc. simpl.
  rewrite find_skip.
  - simpl. now rewrite Hv.
  - intros w Hw. apply Habove. apply In_rev_elem, list_elem_of_In, Hw.
Qed.

Lemma scanDown_Some (P : Version -> bool) (l : list Version) (v : Version) :
  scanDown P l (length l) = Some v ->
  exists below above, l = below ++ v :: above /\ P v = true
                      /\ forall w, w ∈ above -> P w = false.
Proof.
  rewrite scanDown_find, take_ge by lia.
  induction l as [|x l IH] using rev_ind; simpl; [discriminate|].
  rewrite rev_app_distr. simpl. destruct (P x) eqn:E.
  - intros [= <-]. exists l, []. split; [reflexivity|].
    split; [exact E|]. intros w Hw. inversion Hw.
  - intros H. destruct (IH H) as (below & above & -> & Hv & Ha).
    exists below, (above ++ [x]). rewrite <- app_assoc. simpl.
    split; [reflexivity|]. split; [exact Hv|].
    intros w Hw. apply elem_of_app in Hw as [Hw|Hw]; [now apply Ha|].
    apply list_elem_of_singleton in Hw. now subst.
Qed.

Lemma scanDown_None (P : Version -> bool) (l : list Version) :
  scanDown P l (length l) = None <-> forall w, w ∈ l -> P w = false.
Proof.
  rewrite scanDown_find, take_ge by lia. split.
  - intros H w Hw. apply (find_none _ _ H). apply In_rev_elem, Hw.
  - intros H. destruct (List.find P (rev l)) as [v|] eqn:E; [|reflexivity].
    apply find_some in E as [Hin Hv].
    rewrite (H v) in Hv; [discriminate|]. apply In_rev_elem, Hin.
Qed.

Variable fdr : Finder.

Lemma latestLoop_scan (n : nat) :
  latestLoop fdr n = scanDown (passLatest fdr) (items fdr) n.
Proof.
  induction n as [|i IH]; simpl; [reflexivity|]. rewrite IH. reflexivity.
Qed.

Lemma exactLoop_scan (vname : string) (n : nat) :
  exactLoop fdr vname n = scanDown (passExact fdr vname) (items fdr) n.
Proof.
  induction n as [|i IH]; simpl; [reflexivity|]. rewrite IH. reflexivity.
Qed.

(** The constraint pass: the same scan, and the flag tells whether some
    visited version satisfied the constraint. *)
Lemma constraintLoop_scan (cs : Constraints) (n : nat) (b : bool) :
  constraintLoop Check fdr cs n b =
  match scanDown (passConstraint Check fdr cs) (items fdr) n with
  | Some v => (Some v, true)
  | None => (None, b || existsb (fun v => Check cs (sv v)) (take n (items fdr)))
  end.
Proof.
  revert b. induction n as [|i IH]; intros b; simpl.
  - now rewrite orb_false_r.
  - unfold passConstraint at 1.
    destruct (items fdr !! i) as [v|] eqn:E.
    + rewrite (take_S_r _ _ _ E), existsb_app. simpl.
      destruct (Check cs (sv v)) eqn:Ec; simpl.
      * destruct (match_ v (goos fdr) (goarch fdr)); [reflexivity|].
        rewrite IH. destruct (scanDown _ _ i); [reflexivity|].
        now rewrite !orb_true_r.
      * rewrite IH. destruct (scanDown _ _ i); [reflexivity|].
        now rewrite !orb_false_r.
    + apply lookup_ge_None in E. rewrite IH, !take_ge by lia. reflexivity.
Qed.

Lemma passExact_false (vname : string) (w : Version) :
  passExact fdr vname w = false <->
  (name w = vname -> ~ platform_match w (goos fdr) (goarch fdr)).
Proof.
  unfold passExact. rewrite andb_false_iff, String.eqb_neq, match_false.
  destruct (String.string_dec (name w) vname) as [E|E].
  - split; [intros [H|H] _; [contradiction | exact H]|].
    intros H. right. exact (H E).
  - split; [intros _ H; contradiction | intros _; left; exact E].
Qed.

Lemma passConstraint_false (cs : Constraints) (w : Version) :
  passConstraint Check fdr cs w = false <->
  (Check cs (sv w) = true -> ~ platform_match w (goos fdr) (goarch fdr)).
Proof.
  unfold passConstraint. rewrite andb_false_iff, match_false.
  destruct (Check cs (sv w)); intuition congruence.
Qed.

Lemma Find_latest : Find NewConstraint Check fdr Latest = findLatest fdr.
Proof. reflexivity. Qed.

Lemma Find_other (vname : string) :
  vname <> Latest ->
  Find NewConstraint Check fdr vname =
  match scanDown (passExact fdr vname) (items fdr) (length (items fdr)) with
  | Some v => Ok v
  | None =>
      match NewConstraint vname with
      | None => Err (VersionNotFoundError vname (goos fdr) (goarch fdr))
      | Some cs =>
          match scanDown (passConstraint Check fdr cs) (items fdr) (length (items fdr))
          with
          | Some v => Ok v
          | None =>
              if existsb (fun v => Check cs (sv v)) (items fdr)
              then Err (PackageNotFoundError (kind fdr) (goos fdr) (goarch fdr))
              else Err (VersionNotFoundError vname (goos fdr) (goarch fdr))
          end
      end
  end.
Proof.
  intros Hne. unfold Find. apply String.eqb_neq in Hne. rewrite Hne.
  rewrite exactLoop_scan. destruct (scanDown (passExact fdr vname) _ _); [reflexivity|].
  destruct (NewConstraint vname) as [cs|]; [|reflexivity].
  rewrite constraintLoop_scan, take_ge by lia.
  destruct (scanDown (passConstraint Check fdr cs) _ _); reflexivity.
Qed.

(** C3: [Find("latest")] walks the slice from its last version down and
    returns the first one with a package whose file name contains both the
    target OS and the target architecture; on an empty slice it fails with
    VersionNotFound for "latest", on a non-empty slice without any
    platform match with PackageNotFound for the configured kind, OS and
    architecture. *)
Theorem find_latest_selection :
  (items fdr = [] ->
   Find NewConstraint Check fdr "latest" =
   Err (VersionNotFoundError "latest" (goos fdr) (goarch fdr)))
  /\ (items fdr <> [] ->
      (forall v, v ∈ items fdr -> ~ platform_match v (goos fdr) (goarch fdr)) ->
      Find NewConstraint Check fdr "latest" =
      Err (PackageNotFoundError (kind fdr) (goos fdr) (goarch fdr)))
  /\ (forall below v above,
        items fdr = below ++ v :: above ->
        platform_match v (goos fdr) (goarch fdr) ->
        (forall w, w ∈ above -> ~ platform_match w (goos fdr) (goarch fdr)) ->
        Find NewConstraint Check fdr "latest" = Ok v).
Proof.
  change "latest" with Latest. rewrite Find_latest. unfold findLatest.
  rewrite latestLoop_scan. repeat split.
  - intros ->. reflexivity.
  - intros Hne Hno. destruct (items fdr) as [|x l] eqn:E; [congruence|].
    rewrite <- E in *. replace (length (items fdr) =? 0)%nat with false
      by (rewrite E; reflexivity).
    replace (scanDown (passLatest fdr) (items fdr) (length (items fdr))) with
      (@None Version); [reflexivity|].
    symmetry. apply scanDown_None. intros w Hw. now apply match_false, Hno.
  - intros below v above E Hv Habove. rewrite E.
    replace (length (below ++ v :: above) =? 0)%nat with false
      by (symmetry; apply Nat.eqb_neq; rewrite length_app; simpl; lia).
    rewrite scanDown_last; [reflexivity | now apply match_spec |].
    intros w Hw. now apply match_false, Habove.
Qed.

(** C1: for an expression other than "latest" that no version matches by
    name together with the platform: when the expression does not parse as
    a constraint the result is VersionNotFound; when it parses and some
    version satisfies it but no satisfying version has a package for the
    platform the result is PackageNotFound; when it parses and no version
    satisfies it the result is VersionNotFound.  Nothing here needs the
    slice to be sorted. *)
Theorem find_failure_kinds (vname : string) :
  vname <> Latest ->
  (forall v, v ∈ items fdr -> name v = vname ->
             ~ platform_match v (goos fdr) (goarch fdr)) ->
  (NewConstraint vname = None ->
   Find NewConstraint Check fdr vname =
   Err (VersionNotFoundError vname (goos fdr) (goarch fdr)))
  /\ (forall cs, NewConstraint vname = Some cs ->
        ((exists v, v ∈ items fdr /\ Check cs (sv v) = true) ->
         (forall v, v ∈ items fdr -> Check cs (sv v) = true ->
                    ~ platform_match v (goos fdr) (goarch fdr)) ->
         Find NewConstraint Check fdr vname =
         Err (PackageNotFoundError (kind fdr) (goos fdr) (goarch fdr)))
        /\ ((forall v, v ∈ items fdr -> Check cs (sv v) = false) ->
            Find NewConstraint Check fdr vname =
            Err (VersionNotFoundError vname (goos fdr) (goarch fdr)))).
Proof.
  intros Hne Hexact. rewrite (Find_other _ Hne).
  replace (scanDown (passExact fdr vname) (items fdr) (length (items fdr)))
    with (@None Version)
    by (symmetry; apply scanDown_None; intros w Hw;
        apply passExact_false; auto).
  split; [intros ->; reflexivity|].
  intros cs ->. split.
  - intros (v & Hin & Hv) Hno.
    replace (scanDown (passConstraint Check fdr cs) (items fdr) (length (items fdr)))
      with (@None Version)
      by (symmetry; apply scanDown_None; intros w Hw;
          apply passConstraint_false; auto).
    replace (existsb (fun v => Check cs (sv v)) (items fdr)) with true;
      [reflexivity|].
    symmetry. apply existsb_exists. exists v. split; [|exact Hv].
    now apply list_elem_of_In.
  - intros Hnone.
    replace (scanDown (passConstraint Check fdr cs) (items fdr) (length (items fdr)))
      with (@None Version).
    + replace (existsb (fun v => Check cs (sv v)) (items fdr)) with false;
        [reflexivity|].
      symmetry. apply not_true_is_false. intros H.
      apply existsb_exists in H as (v & Hin & Hv).
      apply list_elem_of_In in Hin. rewrite (Hnone v Hin) in Hv. discriminate.
    + symmetry. apply scanDown_None. intros w Hw. unfold passConstraint.
      now rewrite (Hnone w Hw).
Qed.

(** On a sorted slice, the last version that passes a test is not below
    any version that passes it. *)
Lemma last_is_highest (P : Version -> bool) (below above : list Version)
  (v w : Version) :
  ascending (below ++ v :: above) ->
  (forall x, x ∈ above -> P x = false) ->
  w ∈ below ++ v :: above -> P w = true -> Less v w = false.
Proof.
  intros Hsorted Habove Hw Pw.
  apply elem_of_app in Hw as [Hw|Hw].
  - apply list_elem_of_lookup in Hw as [j Hj].
    apply (Hsorted j (length below) w v).
    + apply lookup_lt_Some in Hj. exact Hj.
    + rewrite lookup_app_l; [exact Hj | now apply lookup_lt_Some in Hj].
    + rewrite lookup_app_r, Nat.sub_diag by lia. reflexivity.
  - apply elem_of_cons in Hw as [->|Hw].
    + apply LessThan_irrefl.
    + rewrite (Habove w Hw) in Pw. discriminate.
Qed.

(** C2: for an expression other than "latest", the exact-name pass returns
    the last (on a sorted slice: the highest) version whose name equals
    the expression and that has a package for the platform, passing over
    equally named versions without one; the constraint pass decides only
    when the exact-name pass finds nothing, and returns the last version
    that satisfies the constraint and has a package for the platform; on
    an ascending slice no other candidate of the deciding pass is higher
    than the version returned. *)
Theorem find_prefers_highest (vname : string) :
  vname <> Latest ->
  (forall below v above,
     items fdr = below ++ v :: above ->
     name v = vname -> platform_match v (goos fdr) (goarch fdr) ->
     (forall w, w ∈ above -> name w = vname ->
                ~ platform_match w (goos fdr) (goarch fdr)) ->
     Find NewConstraint Check fdr vname = Ok v)
  /\ (forall cs below v above,
        (forall w, w ∈ items fdr -> name w = vname ->
                   ~ platform_match w (goos fdr) (goarch fdr)) ->
        NewConstraint vname = Some cs ->
        items fdr = below ++ v :: above ->
        Check cs (sv v) = true -> platform_match v (goos fdr) (goarch fdr) ->
        (forall w, w ∈ above -> Check cs (sv w) = true ->
                   ~ platform_match w (goos fdr) (goarch fdr)) ->
        Find NewConstraint Check fdr vname = Ok v)
  /\ (forall v,
        Find NewConstraint Check fdr vname = Ok v ->
        v ∈ items fdr /\ platform_match v (goos fdr) (goarch fdr)
        /\ ((name v = vname
             /\ (ascending (items fdr) ->
                 forall w, w ∈ items fdr -> name w = vname ->
                           platform_match w (goos fdr) (goarch fdr) ->
                           Less v w = false))
            \/ ((forall w, w ∈ items fdr -> name w = vname ->
                            ~ platform_match w (goos fdr) (goarch fdr))
                /\ exists cs,
                    NewConstraint vname = Some cs /\ Check cs (sv v) = true
                    /\ (ascending (items fdr) ->
                        forall w, w ∈ items fdr -> Check cs (sv w) = true ->
                                  platform_match w (goos fdr) (goarch fdr) ->
                                  Less v w = false)))).
Proof.
  intros Hne. rewrite (Find_other _ Hne). split; [|split].
  - intros below v above E Hname Hv Habove. rewrite E.
    rewrite scanDown_last; [reflexivity | |].
    + unfold passExact. apply andb_true_iff. split.
      * now apply String.eqb_eq.
      * now apply match_spec.
    + intros w Hw. apply passExact_false. auto.
  - intros cs below v above Hexact Hcs E Hc Hv Habove.
    replace (scanDown (passExact fdr vname) (items fdr) (length (items fdr)))
      with (@None Version)
      by (symmetry; apply scanDown_None; intros w Hw;
          apply passExact_false; auto).
    rewrite Hcs, E. rewrite scanDown_last; [reflexivity | |].
    + unfold passConstraint. rewrite Hc. now apply match_spec.
    + intros w Hw. apply passConstraint_false. auto.
  - intros v. destruct (scanDown (passExact fdr vname) _ _) as [x|] eqn:Ex.
    + intros [= ->].
      apply scanDown_Some in Ex as (below & above & E & Hp & Habove).
      apply andb_true_iff in Hp as [Hn Hp]. apply String.eqb_eq in Hn.
      split; [rewrite E; apply elem_of_app; right; left|].
      split; [now apply match_spec|]. left.
      split; [exact Hn|]. intros Hsorted w Hw Hwn Hwp. rewrite E in *.
      apply (last_is_highest (passExact fdr vname) below above); auto.
      unfold passExact. apply andb_true_iff. split.
      * now apply String.eqb_eq.
      * now apply match_spec.
    + destruct (NewConstraint vname) as [cs|]; [|discriminate].
      destruct (scanDown (passConstraint Check fdr cs) _ _) as [x|] eqn:Ec;
        [|destruct (existsb _ _); discriminate].
      intros [= ->].
      apply scanDown_Some in Ec as (below & above & E & Hp & Habove).
      apply andb_true_iff in Hp as [Hc Hp].
      split; [rewrite E; apply elem_of_app; right; left|].
      split; [now apply match_spec|]. right. split.
      * intros w Hw. apply passExact_false. revert w Hw.
        now apply scanDown_None.
      * exists cs. split; [reflexivity|]. split; [exact Hc|].
        intros Hsorted w Hw Hwc Hwp. rewrite E in *.
        apply (last_is_highest (passConstraint Check fdr cs) below above); auto.
        unfold passConstraint. rewrite Hwc. now apply match_spec.
Qed.

End FinderFacts.

(** ** The file-name decoder *)

Import Version Internal.

Lemma lastByte_append (p suf : string) :
  suf <> EmptyString -> lastByte (p +:+ suf) = lastByte suf.
Proof.
  intros Hne. induction p as [|c p IH]; simpl; [reflexivity|].
  rewrite <- IH. destruct (p +:+ suf) eqn:E; [|reflexivity].
  destruct p; simpl in E; [congruence | discriminate].
Qed.

Lemma HasSuffix_lastByte (s suf : string) :
  suf <> EmptyString -> lastByte s <> lastByte suf -> HasSuffix s suf = false.
Proof.
  intros Hne Hl. apply not_true_is_false. intros H.
  apply HasSuffix_spec in H as [p ->]. now rewrite lastByte_append in Hl.
Qed.

Lemma HasSuffix_false (s suf : string) :
  HasSuffix s suf = false <-> ~ ends_with s suf.
Proof.
  unfold ends_with. rewrite <- HasSuffix_spec.
  destruct (HasSuffix s suf); split; congruence.
Qed.

(** Two suffixes with different last bytes exclude each other. *)
Ltac other_suffix Hp :=
  apply HasSuffix_lastByte;
  [discriminate | rewrite Hp, lastByte_append; discriminate].

(** A name that ends in [.src.tar.gz] also ends in [.tar.gz]. *)
Lemma src_is_tar (s : string) :
  ends_with s ".src.tar.gz" -> ends_with s ".tar.gz".
Proof.
  intros [p ->]. exists (p +:+ ".src"). now rewrite append_assoc.
Qed.

(** When every key that the file name contains maps to the same label,
    the visiting order does not matter. *)
Lemma lookupToken_unique (table order : list (string * string))
  (fileName label : string) :
  order ≡ₚ table ->
  forallb (fun kv => implb (Contains fileName (fst kv))
                           (String.eqb (snd kv) label)) table = true ->
  existsb (fun kv => Contains fileName (fst kv)) table = true ->
  lookupToken order fileName = label.
Proof.
  intros Hperm Hall Hex.
  rewrite forallb_forall in Hall. apply existsb_exists in Hex as (kv0 & Hin & Hc).
  assert (forall kv, kv ∈ order -> Contains fileName (fst kv) = true ->
                     snd kv = label) as Hall'.
  { intros kv Hk Hkc. rewrite Hperm in Hk. apply list_elem_of_In in Hk.
    specialize (Hall kv Hk). rewrite Hkc in Hall. now apply String.eqb_eq. }
  assert (kv0 ∈ order) as Hin' by (rewrite Hperm; now apply list_elem_of_In).
  clear Hperm Hall Hin. induction order as [|[k v] rest IH]; simpl.
  - inversion Hin'.
  - destruct (Contains fileName k) eqn:E.
    + apply (Hall' (k, v)); [left | exact E].
    + apply IH.
      * intros kv Hk. apply Hall'. now right.
      * apply elem_of_cons in Hin' as [->|Hin']; [|exact Hin'].
        simpl in Hc. congruence.
Qed.

Lemma forallb_elem {A : Type} (f : A -> bool) (l : list A) :
  forallb f l = true -> forall x, x ∈ l -> f x = true.
Proof.
  intros H x Hx. rewrite forallb_forall in H. now apply H, list_elem_of_In.
Qed.

(** C4: "go1.21.4.linux-amd64.tar.gz" decodes to version "1.21.4", OS
    "Linux", architecture "x86-64" (whatever order the two token tables
    are visited in) and kind Archive; "go1.21.4.src.tar.gz" has kind
    Source; the kind follows the suffix: [.src.tar.gz] is Source, any other
    [.tar.gz] and [.zip] are Archive, [.pkg] and [.msi] are Installer, and
    every other name gets the value "Unknown", which is none of the three
    kinds. *)
Theorem decode_file_name :
  (forall url size,
     let item := mkItem "go1.21.4.linux-amd64.tar.gz" url size in
     getGoVersion item = Ret "1.21.4"
     /\ (forall order, order ≡ₚ osMapping -> getOS order item = "Linux")
     /\ (forall order, order ≡ₚ archMapping -> getArch order item = "x86-64")
     /\ getKind item = ArchiveKind)
  /\ (forall url size,
        getKind (mkItem "go1.21.4.src.tar.gz" url size) = SourceKind)
  /\ (forall item,
        let f := ItemFileName item in
        (ends_with f ".src.tar.gz" -> getKind item = SourceKind)
        /\ (ends_with f ".tar.gz" -> ~ ends_with f ".src.tar.gz" ->
            getKind item = ArchiveKind)
        /\ (ends_with f ".zip" -> getKind item = ArchiveKind)
        /\ (ends_with f ".pkg" -> getKind item = InstallerKind)
        /\ (ends_with f ".msi" -> getKind item = InstallerKind)
        /\ (~ ends_with f ".tar.gz" -> ~ ends_with f ".zip" ->
            ~ ends_with f ".pkg" -> ~ ends_with f ".msi" ->
            getKind item = "Unknown"))
  /\ ("Unknown" <> SourceKind /\ "Unknown" <> ArchiveKind
      /\ "Unknown" <> InstallerKind).
Proof.
  split; [|split; [|split]].
  - intros url size item. split; [reflexivity|]. split; [|split].
    + intros order Hperm.
      apply (lookupToken_unique osMapping); [exact Hperm | |]; reflexivity.
    + intros order Hperm.
      apply (lookupToken_unique archMapping); [exact Hperm | |]; reflexivity.
    + reflexivity.
  - reflexivity.
  - intros item f. unfold getKind. fold f. repeat split.
    + intros H. apply HasSuffix_spec in H. now rewrite H.
    + intros Ht Hs. apply HasSuffix_false in Hs. apply HasSuffix_spec in Ht.
      now rewrite Hs, Ht.
    + intros [p Hp].
      assert (HasSuffix f ".zip" = true) as H
        by (apply HasSuffix_spec; exists p; exact Hp).
      assert (HasSuffix f ".src.tar.gz" = false) as H1 by other_suffix Hp.
      now rewrite H1, H, orb_true_r.
    + intros [p Hp].
      assert (HasSuffix f ".pkg" = true) as H
        by (apply HasSuffix_spec; exists p; exact Hp).
      assert (HasSuffix f ".src.tar.gz" = false) as H1 by other_suffix Hp.
      assert (HasSuffix f ".tar.gz" = false) as H2 by other_suffix Hp.
      assert (HasSuffix f ".zip" = false) as H3 by other_suffix Hp.
      now rewrite H1, H2, H3, H.
    + intros [p Hp].
      assert (HasSuffix f ".msi" = true) as H
        by (apply HasSuffix_spec; exists p; exact Hp).
      assert (HasSuffix f ".src.tar.gz" = false) as H1 by other_suffix Hp.
      assert (HasSuffix f ".tar.gz" = false) as H2 by other_suffix Hp.
      assert (HasSuffix f ".zip" = false) as H3 by other_suffix Hp.
      now rewrite H1, H2, H3, H, orb_true_r.
    + intros Ht Hz Hp Hm.
      assert (~ ends_with f ".src.tar.gz") as Hs
        by (intros Hs; apply Ht, src_is_tar, Hs).
      apply HasSuffix_false in Ht, Hz, Hp, Hm, Hs.
      now rewrite Hs, Ht, Hz, Hp, Hm.
  - repeat split; discriminate.
Qed.

Lemma getGoVersion_short (item : GoFileItem) :
  (length (components item) < 3)%nat -> getGoVersion item = Ret "".
Proof.
  unfold getGoVersion, components.
  destruct (Split _ _) as [|a0 [|a1 [|a2 rest]]]; simpl; try reflexivity. lia.
Qed.

(** C9: version extraction is partial.  "go.1.2.3" and "go1.2..tar.gz" pass
    the adapter's filter and make [getGoVersion] index the first byte of
    an empty component, a panic; the call panics exactly when a component
    that it examines is empty, so it returns for every name with fewer
    than three components and for every name whose first three components
    are non-empty. *)
Theorem version_extraction_partial :
  (keptByAdapter "go.1.2.3" = true
   /\ forall url size, getGoVersion (mkItem "go.1.2.3" url size) = Panic)
  /\ (keptByAdapter "go1.2..tar.gz" = true
      /\ forall url size, getGoVersion (mkItem "go1.2..tar.gz" url size) = Panic)
  /\ (forall item,
        getGoVersion item = Panic <->
        exists a0 a1 a2 rest,
          components item = a0 :: a1 :: a2 :: rest
          /\ (a0 = ""
              \/ (numeric_leading a0 = true
                  /\ (a2 = "" \/ (numeric_leading a2 = false /\ a1 = "")))))
  /\ (forall item,
        (forall a, a ∈ take 3 (components item) -> a <> "") ->
        exists ver, getGoVersion item = Ret ver).
Proof.
  assert (forall item,
        getGoVersion item = Panic <->
        exists a0 a1 a2 rest,
          components item = a0 :: a1 :: a2 :: rest
          /\ (a0 = ""
              \/ (numeric_leading a0 = true
                  /\ (a2 = "" \/ (numeric_leading a2 = false /\ a1 = "")))))
    as Hiff.
  { intros item. unfold getGoVersion, components.
    destruct (Split _ _) as [|a0 [|a1 [|a2 rest]]].
    1-3: split; [discriminate | intros (? & ? & ? & ? & ? & _); discriminate].
    split.
    - intros H. exists a0, a1, a2, rest. split; [reflexivity|].
      destruct a0 as [|b0 a0]; [now left | right]. simpl in *.
      destruct (IsNumber b0); simpl in *; [|discriminate].
      split; [reflexivity|].
      destruct a2 as [|b2 a2]; [now left | right]. simpl in *.
      destruct (IsNumber b2); simpl in *; [discriminate|].
      split; [reflexivity|].
      destruct a1 as [|b1 a1]; [reflexivity|]. simpl in *.
      destruct (IsNumber b1); discriminate.
    - intros (x0 & x1 & x2 & r & [= <- <- <- <-] & H).
      destruct H as [->|[H0 H]]; [reflexivity|].
      destruct a0 as [|b0 a0]; [discriminate|]. simpl in *. rewrite H0. simpl.
      destruct H as [->|[H2 ->]]; [reflexivity|].
      destruct a2 as [|b2 a2]; [reflexivity|]. simpl in *. now rewrite H2. }
  split; [split; reflexivity|]. split; [split; reflexivity|].
  split; [exact Hiff|].
  intros item Hne. destruct (getGoVersion item) as [ver|] eqn:E; [now exists ver|].
  apply Hiff in E as (a0 & a1 & a2 & rest & Hc & H). rewrite Hc in Hne.
  simpl in Hne. exfalso.
  destruct H as [->|[_ [->|[_ ->]]]].
  - apply (Hne ""); [left | reflexivity].
  - apply (Hne ""); [right; right; left | reflexivity].
  - apply (Hne ""); [right; left | reflexivity].
Qed.


(** ** Grouping and checksum pairing *)

Section ConvertFacts.

Import Version Internal.

Variable osOrder : GoFileItem -> list (string * string).
Variable archOrder : GoFileItem -> list (string * string).
Variable rangeMap : gmap string (list Package) -> list (string * list Package).

(** Every key is visited by the range over the grouped map. *)
Hypothesis rangeMap_visits :
  forall m k ps, m !! k = Some ps -> (k, ps) ∈ rangeMap m.

Lemma addItem_keys (m m' : gmap string (list Package)) (pitem : GoFileItem)
  (ver : string) :
  getGoVersion pitem = Ret ver ->
  addItem osOrder archOrder m pitem = Ret m' ->
  is_Some (m' !! ver) /\ forall k, is_Some (m !! k) -> is_Some (m' !! k).
Proof.
  unfold addItem. intros ->.
  set (m1 := match m !! ver with Some _ => m | None => <[ver := []]> m end).
  assert (is_Some (m1 !! ver)) as H1.
  { subst m1. destruct (m !! ver) eqn:E; [now rewrite E|].
    rewrite lookup_insert_eq. eauto. }
  assert (forall k, is_Some (m !! k) -> is_Some (m1 !! k)) as H2.
  { subst m1. intros k Hk. destruct (m !! ver) eqn:E; [exact Hk|].
    destruct (decide (ver = k)) as [->|Hne].
    - rewrite lookup_insert_eq. eauto.
    - now rewrite lookup_insert_ne. }
  destruct (isPackageFile pitem); [|destruct (isSHA256File pitem)];
    intros [= <-]; try (split; assumption);
    (split; [rewrite lookup_insert_eq; eauto|]);
    intros k Hk; (destruct (decide (ver = k)) as [->|Hne];
      [rewrite lookup_insert_eq; eauto | rewrite lookup_insert_ne; auto]).
Qed.

Lemma groupItems_keys (items : list GoFileItem)
  (m m' : gmap string (list Package)) :
  groupItems osOrder archOrder m items = Ret m' ->
  (forall k, is_Some (m !! k) -> is_Some (m' !! k))
  /\ (forall pitem ver, pitem ∈ items -> getGoVersion pitem = Ret ver ->
                        is_Some (m' !! ver)).
Proof.
  revert m. induction items as [|x items IH]; intros m; simpl.
  - intros [= <-]. split; [auto | intros ? ? H; inversion H].
  - destruct (addItem osOrder archOrder m x) as [m1|] eqn:E; [|discriminate].
    intros H. destruct (IH _ H) as [Hkeep Hnew]. split.
    + intros k Hk. apply Hkeep.
      destruct (getGoVersion x) as [ver|] eqn:Ev.
      * now apply (proj2 (addItem_keys _ _ _ _ Ev E)).
      * unfold addItem in E. now rewrite Ev in E.
    + intros pitem ver Hin Hv. apply elem_of_cons in Hin as [->|Hin].
      * apply Hkeep. exact (proj1 (addItem_keys _ _ _ _ Hv E)).
      * now apply (Hnew pitem).
Qed.

Lemma Semantify_error (vname : string) (e : error) :
  Semantify vname = Err e -> exists name, e = MalformedVersionError name.
Proof.
  unfold Semantify. destruct (Semver.NewVersion _); [discriminate|].
  intros [= <-]. eauto.
Qed.

(** A key whose version cannot be constructed fails the whole batch. *)
Lemma newVersions_error (entries : list (string * list Package))
  (k : string) (ps : list Package) (e : error) :
  (k, ps) ∈ entries -> Semantify k = Err e ->
  exists name, newVersions entries = Err (MalformedVersionError name).
Proof.
  intros Hin Hk. induction entries as [|[k' ps'] rest IH]; simpl.
  - inversion Hin.
  - unfold New. destruct (Semantify k') as [sv'|e'] eqn:E'.
    + apply elem_of_cons in Hin as [[= -> ->]|Hin]; [congruence|].
      destruct (IH Hin) as [name ->]. eauto.
    + apply Semantify_error in E' as [name ->]. eauto.
Qed.

(** [Convert2Versions] cannot succeed on a listing with a record that has
    no version. *)
Lemma no_version_aborts (items : list GoFileItem) (pitem : GoFileItem) :
  pitem ∈ items -> getGoVersion pitem = Ret "" ->
  Convert2Versions osOrder archOrder rangeMap items = Panic
  \/ exists name, Convert2Versions osOrder archOrder rangeMap items
                  = Ret (Err (MalformedVersionError name)).
Proof.
  intros Hin Hv. unfold Convert2Versions.
  destruct (groupItems osOrder archOrder ∅ items) as [m|] eqn:E; [right | now left].
  destruct (groupItems_keys _ _ _ E) as [_ Hnew].
  destruct (Hnew pitem "" Hin Hv) as [ps Hps].
  destruct (newVersions_error (rangeMap m) "" ps (MalformedVersionError ""))
    as [name ->]; [now apply rangeMap_visits | reflexivity | eauto].
Qed.

(** C5, as the code has it: with fewer than three components, or with a
    non-empty first component that does not start with a numeric byte, the
    extracted version is the empty string, and such a record is not
    dropped: it is grouped under the empty version, whose [Version] cannot
    be constructed, so the conversion of the whole listing cannot succeed.
    Otherwise, on non-empty components, the version is the first three
    components when all three are numeric-leading, the first two when the
    third is not numeric-leading and the second is, and the first alone
    when neither the second nor the third is. *)
Theorem version_extraction (item : GoFileItem) :
  ((length (components item) < 3)%nat -> getGoVersion item = Ret "")
  /\ (forall a0 a1 a2 rest,
        components item = a0 :: a1 :: a2 :: rest ->
        (a0 <> "" -> numeric_leading a0 = false -> getGoVersion item = Ret "")
        /\ (numeric_leading a0 = true -> numeric_leading a1 = true ->
            numeric_leading a2 = true ->
            getGoVersion item = Ret (a0 +:+ "." +:+ a1 +:+ "." +:+ a2))
        /\ (numeric_leading a0 = true -> numeric_leading a1 = true ->
            a2 <> "" -> numeric_leading a2 = false ->
            getGoVersion item = Ret (a0 +:+ "." +:+ a1))
        /\ (numeric_leading a0 = true ->
            a1 <> "" -> numeric_leading a1 = false ->
            a2 <> "" -> numeric_leading a2 = false ->
            getGoVersion item = Ret a0))
  /\ (forall items,
        item ∈ items -> getGoVersion item = Ret "" ->
        Convert2Versions osOrder archOrder rangeMap items = Panic
        \/ exists name, Convert2Versions osOrder archOrder rangeMap items
                        = Ret (Err (MalformedVersionError name))).
Proof.
  split; [apply getGoVersion_short|]. split.
  - intros a0 a1 a2 rest Hc. unfold getGoVersion. fold (components item).
    rewrite Hc. repeat split.
    + intros Hne H0. destruct a0 as [|b0 a0]; [congruence|]. simpl in *.
      now rewrite H0.
    + intros H0 H1 H2. destruct a0 as [|b0 a0], a2 as [|b2 a2];
        try discriminate. simpl in *. now rewrite H0, H2.
    + intros H0 H1 Hne H2.
      destruct a0 as [|b0 a0], a1 as [|b1 a1], a2 as [|b2 a2];
        try discriminate; try congruence. simpl in *. now rewrite H0, H1, H2.
    + intros H0 Hne1 H1 Hne2 H2.
      destruct a0 as [|b0 a0], a1 as [|b1 a1], a2 as [|b2 a2];
        try discriminate; try congruence. simpl in *. now rewrite H0, H1, H2.
  - intros items. apply no_version_aborts.
Qed.

(** C6: a record whose name ends in [.sha256] is paired with the packages
    grouped so far under its own version: every package whose file name is
    a prefix of the checksum file's name gets the algorithm "SHA256" and
    the checksum file's URL as checksum URL, its other fields (the
    checksum value among them) stay as they are; the other packages of
    that version and all other versions are unchanged.  No package that
    the grouping produces has a checksum value. *)
Theorem checksum_pairing :
  (forall (pkgMap : gmap string (list Package)) pitem ver,
     ends_with (ItemFileName pitem) ".sha256" ->
     getGoVersion pitem = Ret ver ->
     exists pkgMap' : gmap string (list Package),
       addItem osOrder archOrder pkgMap pitem = Ret pkgMap'
       /\ (forall k, k <> ver -> pkgMap' !! k = pkgMap !! k)
       /\ length (pkgsOf pkgMap' ver) = length (pkgsOf pkgMap ver)
       /\ forall i ppkg,
           pkgsOf pkgMap ver !! i = Some ppkg ->
           (starts_with (ItemFileName pitem) (FileName ppkg) ->
            pkgsOf pkgMap' ver !! i =
            Some {| FileName := FileName ppkg;
                    URL := URL ppkg;
                    Kind := Kind ppkg;
                    OS := OS ppkg;
                    Arch := Arch ppkg;
                    Size := Size ppkg;
                    Checksum := Checksum ppkg;
                    ChecksumURL := ItemURL pitem;
                    Algorithm := "SHA256" |})
           /\ (~ starts_with (ItemFileName pitem) (FileName ppkg) ->
               pkgsOf pkgMap' ver !! i = Some ppkg))
  /\ (forall items (pkgMap : gmap string (list Package)),
        groupItems osOrder archOrder ∅ items = Ret pkgMap ->
        forall k ps ppkg, pkgMap !! k = Some ps -> ppkg ∈ ps ->
                          Checksum ppkg = "").
Proof.
  split.
  - intros pkgMap pitem ver [p Hp] Hv. unfold addItem. rewrite Hv.
    set (m1 := match pkgMap !! ver with
               | Some _ => pkgMap
               | None => <[ver := []]> pkgMap
               end).
    assert (isPackageFile pitem = false) as Hnp.
    { unfold isPackageFile.
      rewrite (HasSuffix_lastByte _ ".tar.gz"), (HasSuffix_lastByte _ ".pkg"),
        (HasSuffix_lastByte _ ".zip"), (HasSuffix_lastByte _ ".msi");
        [reflexivity | ..]; try discriminate;
        rewrite Hp, lastByte_append; discriminate. }
    assert (isSHA256File pitem = true) as Hs
      by (apply HasSuffix_spec; exists p; exact Hp).
    rewrite Hnp, Hs. eexists. split; [reflexivity|].
    assert (pkgsOf m1 ver = pkgsOf pkgMap ver) as Hsame.
    { unfold pkgsOf. subst m1. destruct (pkgMap !! ver) eqn:E.
      - now rewrite E.
      - now rewrite lookup_insert_eq. }
    assert (forall k, k <> ver -> m1 !! k = pkgMap !! k) as Hother.
    { intros k Hk. subst m1. destruct (pkgMap !! ver); [reflexivity|].
      now rewrite lookup_insert_ne. }
    split; [|split].
    + intros k Hk. rewrite lookup_insert_ne by congruence. now apply Hother.
    + unfold pkgsOf at 1. rewrite lookup_insert_eq. simpl.
      now rewrite length_fmap, Hsame.
    + intros i ppkg Hi. unfold pkgsOf at 1 3. rewrite lookup_insert_eq. simpl.
      rewrite Hsame, list_lookup_fmap, Hi. simpl. unfold attachChecksum.
      split.
      * intros Hpre. apply HasPrefix_spec in Hpre. now rewrite Hpre.
      * intros Hpre.
        destruct (HasPrefix (ItemFileName pitem) (FileName ppkg)) eqn:E;
          [|reflexivity].
        apply HasPrefix_spec in E. contradiction.
  - intros items.
    assert (forall (m0 pkgMap : gmap string (list Package)),
      (forall k ps ppkg, m0 !! k = Some ps -> ppkg ∈ ps -> Checksum ppkg = "") ->
      groupItems osOrder archOrder m0 items = Ret pkgMap ->
      forall k ps ppkg, pkgMap !! k = Some ps -> ppkg ∈ ps -> Checksum ppkg = "")
      as Hinv.
    { induction items as [|x items IH]; intros m0 pkgMap H0; simpl.
      - intros [= <-]. exact H0.
      - destruct (addItem osOrder archOrder m0 x) as [m1|] eqn:E; [|discriminate].
        apply IH. clear IH pkgMap. unfold addItem in E.
        destruct (getGoVersion x) as [ver|]; [|discriminate].
        set (m' := match m0 !! ver with
                   | Some _ => m0
                   | None => <[ver := []]> m0
                   end) in E.
        assert (forall k ps ppkg, m' !! k = Some ps -> ppkg ∈ ps ->
                                  Checksum ppkg = "") as H'.
        { subst m'. destruct (m0 !! ver) eqn:E0; [exact H0|].
          intros k ps ppkg Hk Hin. destruct (decide (ver = k)) as [->|Hne].
          - rewrite lookup_insert_eq in Hk. injection Hk as <-. inversion Hin.
          - rewrite lookup_insert_ne in Hk by exact Hne. eauto. }
        assert (forall ppkg, ppkg ∈ pkgsOf m' ver -> Checksum ppkg = "") as Hv.
        { intros ppkg Hin. unfold pkgsOf in Hin.
          destruct (m' !! ver) as [ps|] eqn:Eps; [eauto | inversion Hin]. }
        destruct (isPackageFile x); [|destruct (isSHA256File x)];
          injection E as <-; try exact H';
          intros k ps ppkg Hk Hin;
          (destruct (decide (ver = k)) as [->|Hne];
           [rewrite lookup_insert_eq in Hk; injection Hk as <-
           | rewrite lookup_insert_ne in Hk by exact Hne; eauto]).
        + apply elem_of_app in Hin as [Hin|Hin]; [now apply Hv|].
          apply list_elem_of_singleton in Hin. now subst.
        + apply list_elem_of_fmap in Hin as (q & -> & Hq).
          unfold attachChecksum. destruct (negb _); simpl; now apply Hv. }
    intros pkgMap. apply Hinv. intros k ps ppkg Hk.
    rewrite lookup_empty in Hk. discriminate.
Qed.

End ConvertFacts.

(** ** The registry *)

Section RegistryFacts.

Import Collector.

Variable Document : Type.
Variable loadDocument : Adapter -> string -> result Document.

Lemma normalize_slash (s : string) : HasSuffix (normalize s) "/" = true.
Proof.
  unfold normalize. destruct (HasSuffix (TrimSpace s) "/") eqn:E; [exact E|].
  apply HasSuffix_spec. now exists (TrimSpace s).
Qed.

Lemma load_store (h : heap) (urls : addr) (l : list string) (i : nat)
  (v : string) :
  h !! urls = Some l -> (i < length l)%nat ->
  store h urls i v = <[urls := <[i := v]> l]> h
  /\ load (store h urls i v) urls i = v.
Proof.
  intros Hl Hi. unfold store, load, elems. rewrite Hl. simpl. split; [reflexivity|].
  rewrite lookup_insert_eq. simpl. now rewrite list_lookup_insert_eq.
Qed.

(** The two assignments to [urls[i]] at the head of the loop body. *)
Lemma body_normalizes (h : heap) (urls : addr) (l : list string) (i : nat)
  (s : string) :
  h !! urls = Some l -> l !! i = Some s ->
  let h1 := store h urls i (TrimSpace (load h urls i)) in
  let h2 := if negb (HasSuffix (load h1 urls i) "/")
            then store h1 urls i (load h1 urls i +:+ "/")
            else h1 in
  h2 = <[urls := <[i := normalize s]> l]> h /\ load h2 urls i = normalize s.
Proof.
  intros Hl Hs h1 h2.
  assert (i < length l)%nat as Hi by now apply lookup_lt_Some in Hs.
  assert (load h urls i = s) as Hload
    by (unfold load, elems; now rewrite Hl; simpl; rewrite Hs).
  destruct (load_store h urls l i (TrimSpace s) Hl Hi) as [E1 L1].
  subst h2 h1. rewrite Hload, L1, E1. unfold normalize.
  destruct (HasSuffix (TrimSpace s) "/") eqn:E; simpl.
  - split; [reflexivity|]. now rewrite <- E1.
  - destruct (load_store (<[urls := <[i := TrimSpace s]> l]> h) urls
                (<[i := TrimSpace s]> l) i (TrimSpace s +:+ "/")) as [E2 L2].
    + apply lookup_insert_eq.
    + now rewrite length_insert.
    + rewrite L2, E2. split; [|reflexivity].
      now rewrite insert_insert_eq, list_insert_insert_eq.
Qed.

Lemma collectorLoop_resolve (urls : addr) (todo i : nat) (h : heap)
  (l : list string) :
  h !! urls = Some l -> (i + todo = length l)%nat ->
  collectorLoop Document loadDocument h urls todo i =
  (<[urls := take i l ++ fst (resolve (drop i l))]> h,
   construct loadDocument (snd (resolve (drop i l)))).
Proof.
  revert i h l. induction todo as [|todo IH]; intros i h l Hl Hlen; simpl.
  - rewrite drop_ge, take_ge by lia. simpl. rewrite app_nil_r.
    now rewrite insert_id.
  - destruct (l !! i) as [s|] eqn:Hs;
      [|apply lookup_ge_None in Hs; lia].
    destruct (body_normalizes h urls l i s Hl Hs) as [E2 L2].
    cbv zeta in E2, L2. rewrite L2, E2.
    rewrite (drop_S _ _ _ Hs). simpl.
    assert (i < length l)%nat as Hi by now apply lookup_lt_Some in Hs.
    destruct (selectAdapter (normalize s)) as [[a u]|] eqn:Esel.
    + simpl. now rewrite <- insert_take_drop.
    + rewrite (IH (S i) _ (<[i := normalize s]> l)).
      * rewrite insert_insert_eq.
        rewrite drop_insert_lt by lia.
        rewrite take_insert_lt by lia.
        rewrite (take_S_r _ _ _ Hs).
        rewrite insert_app_r_alt by (rewrite length_take; lia).
        rewrite length_take, Nat.min_l, Nat.sub_diag by lia. simpl.
        destruct (resolve (drop (S i) l)) as [rest' r]. simpl.
        now rewrite <- app_assoc.
      * apply lookup_insert_eq.
      * rewrite length_insert. lia.
Qed.

Lemma resolve_selected (l : list string) : snd (resolve l) = firstSelected l.
Proof.
  induction l as [|s rest IH]; simpl; [reflexivity|].
  destruct (selectAdapter (normalize s)); [reflexivity|].
  destruct (resolve rest). exact IH.
Qed.

Lemma NewCollector_resolve (h : heap) (urls : addr) :
  NewCollector Document loadDocument h urls =
  if defaulted (elems h urls) then
    (<[fresh (dom h) := fst (resolve [OfficialDownloadPageURL])]> h,
     construct loadDocument (snd (resolve [OfficialDownloadPageURL])))
  else
    (<[urls := fst (resolve (elems h urls))]> h,
     construct loadDocument (snd (resolve (elems h urls)))).
Proof.
  unfold NewCollector, defaulted, load.
  destruct ((length (elems h urls) =? 0)%nat
            || (length (elems h urls) =? 1)%nat
               && String.eqb (default "" (elems h urls !! 0%nat)) "") eqn:E.
  - unfold alloc.
    assert (elems (<[fresh (dom h) := [OfficialDownloadPageURL]]> h)
              (fresh (dom h)) = [OfficialDownloadPageURL]) as ->
      by (unfold elems; now rewrite lookup_insert_eq).
    rewrite (collectorLoop_resolve _ 1 0 _ [OfficialDownloadPageURL]).
    + now rewrite insert_insert_eq.
    + apply lookup_insert_eq.
    + reflexivity.
  - assert (h !! urls = Some (elems h urls)) as Hl.
    { unfold elems in *. destruct (h !! urls); [reflexivity | discriminate]. }
    rewrite (collectorLoop_resolve urls _ 0 h _ Hl) by reflexivity.
    reflexivity.
Qed.

Lemma substring_take (p q : string) :
  String.substring 0 (String.length p) (p +:+ q) = p.
Proof.
  induction p as [|c p IH]; simpl; [now destruct q | now rewrite IH].
Qed.

Lemma slice_at_bar (p q : string) :
  slice_to (p +:+ "|" +:+ q) (Z.of_nat (String.length p)) = p
  /\ slice_from (p +:+ "|" +:+ q) (Z.of_nat (String.length p) + 1) = q.
Proof.
  unfold slice_to, slice_from. rewrite Nat2Z.id. split; [apply substring_take|].
  replace (Z.to_nat (Z.of_nat (String.length p) + 1))
    with (String.length (p +:+ "|")) by (rewrite length_append; simpl; lia).
  rewrite <- append_assoc.
  replace (String.length ((p +:+ "|") +:+ q) - String.length (p +:+ "|"))%nat
    with (String.length q) by (rewrite !length_append; lia).
  apply substring_drop.
Qed.

Lemma in_wellKnown (u : string) (a : Adapter) :
  (u, a) ∈ wellKnown -> selectAdapter u = Some (a, u).
Proof.
  intros H. unfold wellKnown in H.
  repeat (apply elem_of_cons in H as [[= -> ->]|H]; [reflexivity|]).
  inversion H.
Qed.

(** A literal name prefix selects its adapter. *)
Lemma select_by_name (a : Adapter) (rest : string) :
  rest <> "" ->
  selectAdapter (adapterName a +:+ "|" +:+ rest) = Some (a, TrimSpace rest).
Proof.
  intros Hne. unfold selectAdapter.
  assert (Index (adapterName a +:+ "|" +:+ rest) "|"
          = Z.of_nat (String.length (adapterName a))) as ->
    by (destruct a, rest; reflexivity).
  destruct (slice_at_bar (adapterName a) rest) as [-> ->].
  replace ((0 <? Z.of_nat (String.length (adapterName a)))
           && (Z.of_nat (String.length (adapterName a))
               <? len (adapterName a +:+ "|" +:+ rest) - 1)) with true.
  - destruct a; reflexivity.
  - symmetry. apply andb_true_iff. split.
    + destruct a; reflexivity.
    + apply Z.ltb_lt. unfold len. rewrite !length_append. simpl.
      destruct rest; [congruence | simpl; lia].
Qed.

(** What a selection can come from: a name in front of the first bar, or
    the table. *)
Lemma select_inv (u : string) (a : Adapter) (downloadPageURL : string) :
  selectAdapter u = Some (a, downloadPageURL) ->
  (exists name rest, u = name +:+ "|" +:+ rest
                     /\ TrimSpace name = adapterName a
                     /\ downloadPageURL = TrimSpace rest)
  \/ ((u, a) ∈ wellKnown /\ downloadPageURL = u).
Proof.
  unfold selectAdapter.
  destruct ((0 <? Index u "|") && (Index u "|" <? len u - 1)) eqn:E.
  - intros H. left. apply andb_true_iff in E as [E _]. apply Z.ltb_lt in E.
    unfold Index in *.
    destruct (String.index 0 "|" u) as [m|] eqn:Em; [|lia].
    apply index_Some_split in Em as (p & q & -> & <-).
    destruct (slice_at_bar p q) as [Hp Hq]. rewrite Hp, Hq in H.
    exists p, q. split; [reflexivity|].
    destruct (String.eqb (TrimSpace p) official_Name) eqn:E1;
      [apply String.eqb_eq in E1; injection H as <- <-; auto|].
    destruct (String.eqb (TrimSpace p) fancyindex_Name) eqn:E2;
      [apply String.eqb_eq in E2; injection H as <- <-; auto|].
    destruct (String.eqb (TrimSpace p) autoindex_Name) eqn:E3;
      [apply String.eqb_eq in E3; injection H as <- <-; auto|].
    discriminate.
  - intros H. right. unfold wellKnown.
    repeat match type of H with
           | (if ?b then _ else _) = _ =>
               let Eb := fresh "Eb" in
               destruct b eqn:Eb;
               [injection H as <- <-;
                repeat (apply orb_true_iff in Eb as [Eb|Eb]);
                apply String.eqb_eq in Eb; subst u;
                (split; [|reflexivity]); set_solver
               | clear Eb]
           end.
    discriminate.
Qed.

Lemma resolve_elems (l : list string) :
  length (fst (resolve l)) = length l
  /\ forall i s,
      l !! i = Some s ->
      ((forall j t, (j < i)%nat -> l !! j = Some t ->
                    selectAdapter (normalize t) = None) ->
       fst (resolve l) !! i = Some (normalize s))
      /\ ((exists j t, (j < i)%nat /\ l !! j = Some t
                       /\ is_Some (selectAdapter (normalize t))) ->
          fst (resolve l) !! i = Some s).
Proof.
  induction l as [|x rest [IHlen IH]]; simpl.
  - split; [reflexivity | intros i s H; discriminate].
  - destruct (selectAdapter (normalize x)) as [sel|] eqn:Ex.
    + split; [reflexivity|]. intros [|i] s Hs; simpl in *.
      * injection Hs as ->. split; [reflexivity|].
        intros (j & t & Hj & _). lia.
      * split; [|intros _; exact Hs].
        intros Hnone. specialize (Hnone 0%nat x ltac:(lia) eq_refl). congruence.
    + destruct (resolve rest) as [rest' r] eqn:Er. simpl in *.
      split; [now rewrite IHlen|]. intros [|i] s Hs; simpl in *.
      * injection Hs as ->. split; [reflexivity|].
        intros (j & t & Hj & _). lia.
      * destruct (IH i s Hs) as [IH1 IH2]. split.
        -- intros Hnone. apply IH1. intros j t Hj Ht.
           apply (Hnone (S j)); [lia | exact Ht].
        -- intros (j & t & Hj & Ht & Hsel). apply IH2.
           destruct j as [|j]; simpl in Ht.
           ++ injection Ht as ->. rewrite Ex in Hsel. now destruct Hsel.
           ++ exists j, t. split; [lia | auto].
Qed.

(** C7: [NewCollector] goes through the normalized candidates from left to
    right and constructs the adapter of the first one that resolves; no
    input, or the empty string alone, stands for the official download
    page.  A candidate that starts with [official|], [fancyindex|] or
    [autoindex|] selects that adapter with the trimmed remainder as URL,
    whatever the table says; every selection comes from such a name in
    front of the first bar or from an exact match with the table of
    well-known pages; when no candidate resolves the result is
    CollectorNotFound. *)
Theorem collector_selection :
  (forall h urls,
     snd (NewCollector Document loadDocument h urls) =
     construct loadDocument (firstSelected (if defaulted (elems h urls)
                               then [OfficialDownloadPageURL]
                               else elems h urls)))
  /\ (forall s a rest,
        normalize s = adapterName a +:+ "|" +:+ rest ->
        selectAdapter (normalize s) = Some (a, TrimSpace rest))
  /\ (forall u a downloadPageURL,
        selectAdapter u = Some (a, downloadPageURL) ->
        (exists name rest, u = name +:+ "|" +:+ rest
                           /\ TrimSpace name = adapterName a
                           /\ downloadPageURL = TrimSpace rest)
        \/ ((u, a) ∈ wellKnown /\ downloadPageURL = u))
  /\ (forall u a, (u, a) ∈ wellKnown -> selectAdapter u = Some (a, u))
  /\ (forall h urls,
        h !! urls = Some ["fancyindex|https://mirrors.hust.edu.cn/golang/"] ->
        snd (NewCollector Document loadDocument h urls) =
        newAdapter Document loadDocument Fancyindex
          "https://mirrors.hust.edu.cn/golang/")
  /\ (forall h urls,
        elems h urls = [] \/ elems h urls = [""] ->
        snd (NewCollector Document loadDocument h urls) =
        newAdapter Document loadDocument Official "https://go.dev/dl/")
  /\ (forall h urls,
        defaulted (elems h urls) = false ->
        (forall s, s ∈ elems h urls -> selectAdapter (normalize s) = None) ->
        snd (NewCollector Document loadDocument h urls) =
        Err ErrCollectorNotFound).
Proof.
  assert (forall h urls,
     snd (NewCollector Document loadDocument h urls) =
     construct loadDocument (firstSelected (if defaulted (elems h urls)
                               then [OfficialDownloadPageURL]
                               else elems h urls))) as Hfirst.
  { intros h urls. rewrite NewCollector_resolve.
    destruct (defaulted (elems h urls)); simpl; now rewrite ?resolve_selected. }
  split; [exact Hfirst|]. split; [|split; [|split; [|split; [|split]]]].
  - intros s a rest E. rewrite E. apply select_by_name. intros ->.
    pose proof (normalize_slash s) as Hs. rewrite E in Hs.
    destruct a; discriminate.
  - apply select_inv.
  - apply in_wellKnown.
  - intros h urls Hl. rewrite Hfirst. unfold elems. rewrite Hl. reflexivity.
  - intros h urls [E|E]; rewrite Hfirst, E; reflexivity.
  - intros h urls Hd Hnone. rewrite Hfirst, Hd. clear Hd. revert Hnone.
    generalize (elems h urls). intros l.
    induction l as [|s rest IH]; intros Hnone; simpl; [reflexivity|].
    rewrite (Hnone s) by left. apply IH. intros t Ht. apply Hnone. now right.
Qed.

(** C10, as the code has it: unless the input is empty or is the empty
    string alone, [NewCollector] writes into the caller's slice: every
    element up to and including the first candidate that resolves (every
    element, when none resolves) is replaced by its normalized form, the
    elements after the first resolving candidate are left as they were.
    On an empty input or the empty string alone the call works on a new
    slice and the caller's slice keeps its contents.  No other slice is
    touched. *)
Theorem caller_slice_after (h : heap) (urls : addr) (l : list string) :
  h !! urls = Some l ->
  let h' := fst (NewCollector Document loadDocument h urls) in
  (forall a, is_Some (h !! a) -> a <> urls -> h' !! a = h !! a)
  /\ (defaulted l = true -> h' !! urls = Some l)
  /\ (defaulted l = false ->
      exists l',
        h' !! urls = Some l' /\ length l' = length l
        /\ forall i s,
            l !! i = Some s ->
            ((forall j t, (j < i)%nat -> l !! j = Some t ->
                          selectAdapter (normalize t) = None) ->
             l' !! i = Some (normalize s))
            /\ ((exists j t, (j < i)%nat /\ l !! j = Some t
                             /\ is_Some (selectAdapter (normalize t))) ->
                l' !! i = Some s)).
Proof.
  intros Hl h'. subst h'. rewrite NewCollector_resolve.
  assert (elems h urls = l) as -> by (unfold elems; now rewrite Hl).
  assert (forall a, is_Some (h !! a) -> fresh (dom h) <> a) as Hfresh.
  { intros a Ha E. subst a. apply elem_of_dom in Ha.
    now apply is_fresh in Ha. }
  destruct (defaulted l); simpl; split.
  - intros a Ha _. rewrite lookup_insert_ne; [reflexivity | now apply Hfresh].
  - split; [|discriminate]. intros _.
    rewrite lookup_insert_ne; [exact Hl | apply Hfresh; eauto].
  - intros a _ Ha. now rewrite lookup_insert_ne.
  - split; [discriminate|]. intros _. exists (fst (resolve l)).
    rewrite lookup_insert_eq. destruct (resolve_elems l) as [Hlen Hel]. auto.
Qed.

End RegistryFacts.

(** ** Semantify and the order of versions *)

Section SemantifyFacts.

Import Version.

Lemma occurs_append (c : ascii) (a b : string) :
  occurs c (a +:+ b) = occurs c a || occurs c b.
Proof.
  induction a as [|d a IH]; simpl; [reflexivity|]. now rewrite IH, orb_assoc.
Qed.

(** A string that lacks a byte of [w] does not contain [w]. *)
Lemma Contains_needs_byte (s w : string) (c : ascii) :
  occurs c w = true -> occurs c s = false -> Contains s w = false.
Proof.
  intros Hw Hs. apply not_true_is_false. intros H.
  apply Contains_spec in H as (p & q & ->).
  rewrite !occurs_append, Hw, orb_true_r in Hs. discriminate.
Qed.

(** Where the first byte of [w] does not occur in [p], the first
    occurrence of [w] in [p ++ w ++ q] is right after [p]. *)
Lemma Index_after (p w q : string) (c : ascii) (w' : string) :
  w = String c w' -> occurs c p = false ->
  Index (p +:+ w +:+ q) w = len p.
Proof.
  intros -> Hp. unfold Index, len.
  induction p as [|d p IH].
  - change ("" +:+ String c w' +:+ q) with (String c (w' +:+ q)).
    rewrite index_cons.
    replace (String.prefix (String c w') (String c (w' +:+ q))) with true;
      [reflexivity|].
    symmetry. apply prefix_spec. now exists q.
  - simpl in Hp. apply orb_false_iff in Hp as [Hd Hp].
    change (String d p +:+ String c w' +:+ q)
      with (String d (p +:+ String c w' +:+ q)).
    rewrite index_cons. simpl String.prefix.
    destruct (ascii_dec c d) as [->|_]; [now rewrite Ascii.eqb_refl in Hd|].
    specialize (IH Hp).
    destruct (String.index 0 (String c w') (p +:+ String c w' +:+ q));
      simpl String.length; lia.
Qed.

Lemma digits_lack (c : ascii) (s : string) :
  digitOrDot c = false -> Semver.forallb_str digitOrDot s = true ->
  occurs c s = false.
Proof.
  intros Hc. induction s as [|d s IH]; simpl; [reflexivity|].
  intros H. apply andb_true_iff in H as [Hd Hs]. rewrite (IH Hs), orb_false_r.
  apply Ascii.eqb_neq. intros ->. congruence.
Qed.

(** The hyphen goes right in front of the prerelease word of a name made
    of a dotted number, the word and a dotted number. *)
Lemma hyphenate_numeric (p w q : string) :
  p <> "" -> w ∈ ["alpha"; "beta"; "rc"] ->
  Semver.forallb_str digitOrDot p = true ->
  Semver.forallb_str digitOrDot q = true ->
  hyphenate (p +:+ w +:+ q) = p +:+ "-" +:+ w +:+ q.
Proof.
  intros Hne Hw Hp Hq. unfold hyphenate, prereleaseIndex.
  assert (forall c, digitOrDot c = false -> occurs c w = false ->
                    occurs c (p +:+ w +:+ q) = false) as Hlack.
  { intros c Hc Hcw.
    now rewrite !occurs_append, Hcw, (digits_lack c p), (digits_lack c q). }
  assert (forall c w', w = String c w' -> digitOrDot c = false ->
            Index (p +:+ w +:+ q) w = len p
            /\ Contains (p +:+ w +:+ q) w = true) as Hidx.
  { intros c w' E Hc.
    assert (Index (p +:+ w +:+ q) w = len p) as Hi
      by (apply (Index_after p w q c w' E); now apply digits_lack).
    split; [exact Hi|]. unfold Contains. rewrite Hi. apply Z.leb_le.
    unfold len. lia. }
  assert (slice_to (p +:+ w +:+ q) (len p) +:+ "-"
          +:+ slice_from (p +:+ w +:+ q) (len p) = p +:+ "-" +:+ w +:+ q)
    as Hcut.
  { unfold slice_to, slice_from, len. rewrite Nat2Z.id, substring_take.
    replace (String.length (p +:+ w +:+ q) - String.length p)%nat
      with (String.length (w +:+ q)) by (rewrite !length_append; lia).
    now rewrite substring_drop. }
  assert ((0 <? len p) = true) as Hpos
    by (apply Z.ltb_lt; unfold len; destruct p; [congruence | simpl; lia]).
  repeat (apply elem_of_cons in Hw as [->|Hw]).
  - destruct (Hidx "a"%char "lpha" eq_refl eq_refl) as [-> ->].
    now rewrite Hpos.
  - rewrite (Contains_needs_byte _ "alpha" "l"%char eq_refl)
      by now apply Hlack.
    destruct (Hidx "b"%char "eta" eq_refl eq_refl) as [-> ->].
    now rewrite Hpos.
  - rewrite (Contains_needs_byte _ "alpha" "l"%char eq_refl)
      by now apply Hlack.
    rewrite (Contains_needs_byte _ "beta" "b"%char eq_refl)
      by now apply Hlack.
    destruct (Hidx "r"%char "c" eq_refl eq_refl) as [-> ->].
    now rewrite Hpos.
  - inversion Hw.
Qed.

(** C8: [Semantify] puts a hyphen in front of the prerelease word, so
    "1.21rc4" is read as 1.21.0 with prerelease "rc4"; the versions it
    yields are ordered by their numeric triple first, and a version with a
    prerelease is below the one with the same triple and none; the names
    "1.10beta2", "1.19beta1", "1.21rc4", "1.21.0" come in this order, and
    sorting a collection of them yields it. *)
Theorem semantify_order :
  (forall p w q,
     p <> "" -> w ∈ ["alpha"; "beta"; "rc"] ->
     Semver.forallb_str digitOrDot p = true ->
     Semver.forallb_str digitOrDot q = true ->
     Semantify (p +:+ w +:+ q) =
     match Semver.NewVersion (p +:+ "-" +:+ w +:+ q) with
     | Some v => Ok v
     | None => Err (MalformedVersionError (p +:+ "-" +:+ w +:+ q))
     end)
  /\ (forall n1 n2 a b,
        parsed n1 a -> parsed n2 b ->
        ((Semver.major a < Semver.major b)%N
         \/ (Semver.major a = Semver.major b
             /\ (Semver.minor a < Semver.minor b)%N)
         \/ (Semver.major a = Semver.major b
             /\ Semver.minor a = Semver.minor b
             /\ (Semver.patch a < Semver.patch b)%N)) ->
        Semver.Compare a b = Lt)
  /\ (forall n1 n2 a b,
        parsed n1 a -> parsed n2 b ->
        Semver.major a = Semver.major b -> Semver.minor a = Semver.minor b ->
        Semver.patch a = Semver.patch b ->
        Semver.pre a <> "" -> Semver.pre b = "" ->
        Semver.Compare a b = Lt /\ Semver.Compare b a = Gt)
  /\ (exists a b c d,
        parsed "1.10beta2" a /\ parsed "1.19beta1" b
        /\ parsed "1.21rc4" c /\ parsed "1.21.0" d
        /\ Semver.pre a = "beta2" /\ Semver.pre b = "beta1"
        /\ Semver.pre c = "rc4" /\ Semver.pre d = ""
        /\ Semver.Compare a b = Lt /\ Semver.Compare b c = Lt
        /\ Semver.Compare c d = Lt /\ Semver.Compare a c = Lt
        /\ Semver.Compare a d = Lt /\ Semver.Compare b d = Lt
        /\ forall pa pb pc pd,
            sortCollection
              [mkVersion "1.21.0" d pd; mkVersion "1.19beta1" b pb;
               mkVersion "1.21rc4" c pc; mkVersion "1.10beta2" a pa]
            = [mkVersion "1.10beta2" a pa; mkVersion "1.19beta1" b pb;
               mkVersion "1.21rc4" c pc; mkVersion "1.21.0" d pd]).
Proof.
  split; [|split; [|split]].
  - intros p w q Hne Hw Hp Hq. unfold Semantify.
    now rewrite hyphenate_numeric.
  - intros n1 n2 a b _ _ H. unfold Semver.Compare.
    destruct H as [H|[[E1 H]|(E1 & E2 & H)]];
      rewrite ?E1, ?E2, ?N.compare_refl;
      apply N.compare_lt_iff in H; now rewrite H.
  - intros n1 n2 a b _ _ E1 E2 E3 Ha Hb. unfold Semver.Compare.
    rewrite E1, E2, E3, !N.compare_refl, Hb. apply String.eqb_neq in Ha.
    now rewrite Ha.
  - eexists _, _, _, _.
    repeat (split; [reflexivity|]). intros pa pb pc pd. reflexivity.
Qed.

End SemantifyFacts.

(** ** The statements on the sample data *)

Section Witnesses.

Import Samples.

Lemma ascendingb_sound (l : list Version) : ascendingb l = true -> ascending l.
Proof.
  induction l as [|a rest IH]; simpl.
  - intros _ i j x y _ Hi. discriminate.
  - intros H. apply andb_true_iff in H as [Hhead Htail].
    specialize (IH Htail). intros [|i] [|j] x y Hij Hi Hj; simpl in *; try lia.
    + injection Hi as <-. apply negb_true_iff.
      apply (forallb_elem _ _ Hhead). apply list_elem_of_lookup. eauto.
    + apply (IH i j); [lia | assumption..].
Qed.

Lemma none_passes {A : Type} (P : A -> bool) (l : list A) :
  forallb (fun x => negb (P x)) l = true -> forall x, x ∈ l -> P x = false.
Proof.
  intros H x Hx. apply negb_true_iff. now apply (forallb_elem _ _ H).
Qed.

(** A listing of three files yields one version; the checksum file is
    paired with the archive and not with the source package. *)
Example listing_converted :
  convert listing =
  Ret (Ok [mkVersion "1.21.4" (Semver.mkVersion 1 21 4 "" "" "1.21.4")
             [mkPackage "go1.21.4.linux-amd64.tar.gz"
                "https://mirrors.aliyun.com/golang/go1.21.4.linux-amd64.tar.gz"
                ArchiveKind "Linux" "x86-64" "63M" ""
                "https://mirrors.aliyun.com/golang/go1.21.4.linux-amd64.tar.gz.sha256"
                "SHA256";
              mkPackage "go1.21.4.src.tar.gz"
                "https://mirrors.aliyun.com/golang/go1.21.4.src.tar.gz"
                SourceKind "" "" "26M" "" "" ""]]).
Proof. reflexivity. Qed.

(** The sample versions are what [New] builds from their names. *)
Example corpus_constructed :
  newVersions (map (fun v => (name v, pkgs v)) corpus) = Ok corpus.
Proof. reflexivity. Qed.

Example corpus_ascending : ascending corpus.
Proof. apply ascendingb_sound. reflexivity. Qed.

(** A name that [isPackageFile] accepts never has the kind "Unknown": the
    grouping only builds packages of the three kinds. *)
Lemma packaged_kind_known (item : GoFileItem) :
  isPackageFile item = true -> getKind item <> "Unknown".
Proof.
  unfold isPackageFile, getKind.
  destruct (HasSuffix (ItemFileName item) ".src.tar.gz"),
    (HasSuffix (ItemFileName item) ".tar.gz"),
    (HasSuffix (ItemFileName item) ".zip"),
    (HasSuffix (ItemFileName item) ".pkg"),
    (HasSuffix (ItemFileName item) ".msi"); simpl; discriminate.
Qed.

Lemma find_latest_selection_witness :
  Find Comparators.NewConstraint Comparators.Check (darwinArm64 []) "latest"
  = Err (VersionNotFoundError "latest" "darwin" "arm64")
  /\ Find Comparators.NewConstraint Comparators.Check
       (mkFinder InstallerKind "plan9" "arm64" corpus) "latest"
     = Err (PackageNotFoundError "Installer" "plan9" "arm64")
  /\ Find Comparators.NewConstraint Comparators.Check
       (darwinArm64 [go1_18_10; go1_19_0; go1_20_1]) "latest"
     = Ok go1_19_0.
Proof.
  split; [|split].
  - apply (proj1 (find_latest_selection _ Comparators.NewConstraint
                    Comparators.Check (darwinArm64 []))).
    reflexivity.
  - apply (proj1 (proj2 (find_latest_selection _ Comparators.NewConstraint
                           Comparators.Check
                           (mkFinder InstallerKind "plan9" "arm64" corpus)))).
    + discriminate.
    + intros v Hv. apply match_false. revert v Hv. apply none_passes.
      reflexivity.
  - apply (proj2 (proj2 (find_latest_selection _ Comparators.NewConstraint
                           Comparators.Check
                           (darwinArm64 [go1_18_10; go1_19_0; go1_20_1])))
             [go1_18_10] go1_19_0 [go1_20_1]).
    + reflexivity.
    + apply match_spec. reflexivity.
    + intros w Hw. apply match_false. revert w Hw. apply none_passes.
      reflexivity.
Defined.

Lemma find_failure_kinds_witness :
  Find Comparators.NewConstraint Comparators.Check (darwinArm64 corpus)
    "voidint"
  = Err (VersionNotFoundError "voidint" "darwin" "arm64")
  /\ Find Comparators.NewConstraint Comparators.Check (darwinArm64 corpus)
       "<1.19.0"
     = Err (PackageNotFoundError "Archive" "darwin" "arm64")
  /\ Find Comparators.NewConstraint Comparators.Check (darwinArm64 corpus)
       "<1.18.0"
     = Err (VersionNotFoundError "<1.18.0" "darwin" "arm64").
Proof.
  assert (forall vname,
            forallb (fun v => negb (passExact (darwinArm64 corpus) vname v))
              corpus = true ->
            forall v, v ∈ items (darwinArm64 corpus) -> name v = vname ->
                      ~ platform_match v "darwin" "arm64") as Hexact.
  { intros vname H v Hv.
    apply (passExact_false (darwinArm64 corpus)). revert v Hv.
    now apply none_passes. }
  split; [|split].
  - apply (proj1 (find_failure_kinds _ Comparators.NewConstraint
                    Comparators.Check (darwinArm64 corpus) "voidint"
                    ltac:(discriminate) (Hexact "voidint" eq_refl))).
    reflexivity.
  - destruct (Comparators.NewConstraint "<1.19.0") as [cs|] eqn:Ecs;
      [|discriminate].
    apply (proj1 (proj2 (find_failure_kinds _ Comparators.NewConstraint
                           Comparators.Check (darwinArm64 corpus) "<1.19.0"
                           ltac:(discriminate) (Hexact "<1.19.0" eq_refl))
                    cs Ecs)).
    + exists go1_18_10. injection Ecs as <-. split; [left | reflexivity].
    + injection Ecs as <-. intros v Hv.
      apply (passConstraint_false _ Comparators.Check (darwinArm64 corpus)).
      revert v Hv. apply none_passes. reflexivity.
  - destruct (Comparators.NewConstraint "<1.18.0") as [cs|] eqn:Ecs;
      [|discriminate].
    apply (proj2 (proj2 (find_failure_kinds _ Comparators.NewConstraint
                           Comparators.Check (darwinArm64 corpus) "<1.18.0"
                           ltac:(discriminate) (Hexact "<1.18.0" eq_refl))
                    cs Ecs)).
    injection Ecs as <-. apply none_passes. reflexivity.
Defined.

Lemma find_prefers_highest_witness :
  ascending corpus
  /\ Find Comparators.NewConstraint Comparators.Check (darwinArm64 corpus)
       "1.19.0" = Ok go1_19_0
  /\ Find Comparators.NewConstraint Comparators.Check (darwinArm64 corpus)
       ">=1.18.0" = Ok go1_19_0
  /\ go1_19_0 ∈ corpus
  /\ platform_match go1_19_0 "darwin" "arm64".
Proof.
  pose proof (find_prefers_highest _ Comparators.NewConstraint
                Comparators.Check (darwinArm64 corpus)) as H.
  split; [exact corpus_ascending|].
  assert (Find Comparators.NewConstraint Comparators.Check
            (darwinArm64 corpus) "1.19.0" = Ok go1_19_0) as H1.
  { apply (proj1 (H "1.19.0" ltac:(discriminate))
             [go1_18_10] go1_19_0 [go1_20_1; go1_21rc4]).
    - reflexivity.
    - reflexivity.
    - apply match_spec. reflexivity.
    - intros w Hw. apply (passExact_false (darwinArm64 corpus)).
      revert w Hw. apply none_passes. reflexivity. }
  split; [exact H1|]. split.
  - destruct (Comparators.NewConstraint ">=1.18.0") as [cs|] eqn:Ecs;
      [|discriminate].
    apply (proj1 (proj2 (H ">=1.18.0" ltac:(discriminate)))
             cs [go1_18_10] go1_19_0 [go1_20_1; go1_21rc4]).
    + intros w Hw. apply (passExact_false (darwinArm64 corpus)).
      revert w Hw. apply none_passes. reflexivity.
    + exact Ecs.
    + reflexivity.
    + injection Ecs as <-. reflexivity.
    + apply match_spec. reflexivity.
    + injection Ecs as <-. intros w Hw.
      apply (passConstraint_false _ Comparators.Check (darwinArm64 corpus)).
      revert w Hw. apply none_passes. reflexivity.
  - destruct (proj2 (proj2 (H "1.19.0" ltac:(discriminate))) go1_19_0 H1)
      as (Hin & Hm & _).
    split; [exact Hin | exact Hm].
Defined.

Lemma decode_file_name_witness :
  getOS osMapping (mkItem "go1.21.4.linux-amd64.tar.gz" "" "") = "Linux"
  /\ getArch (rev archMapping) (mkItem "go1.21.4.linux-amd64.tar.gz" "" "")
     = "x86-64"
  /\ getKind (mkItem "go1.20.windows-amd64.zip" "" "") = ArchiveKind
  /\ getKind (mkItem "go1.20.darwin-arm64.pkg" "" "") = InstallerKind
  /\ getKind (mkItem "go1.20.linux-amd64.tar.gz.sha256" "" "") = "Unknown".
Proof.
  destruct decode_file_name as (Hfile & _ & Hkind & _).
  destruct (Hfile "" "") as (_ & Hos & Harch & _).
  split; [apply Hos; reflexivity|].
  split; [apply Harch; rewrite rev_alt; apply reverse_Permutation|].
  split; [|split].
  - destruct (Hkind (mkItem "go1.20.windows-amd64.zip" "" ""))
      as (_ & _ & Hzip & _).
    apply Hzip. now exists "go1.20.windows-amd64".
  - destruct (Hkind (mkItem "go1.20.darwin-arm64.pkg" "" ""))
      as (_ & _ & _ & Hpkg & _).
    apply Hpkg. now exists "go1.20.darwin-arm64".
  - destruct (Hkind (mkItem "go1.20.linux-amd64.tar.gz.sha256" "" ""))
      as (_ & _ & _ & _ & _ & Hother).
    apply Hother; apply HasSuffix_false; reflexivity.
Defined.

Lemma visits_all (m : gmap string (list Package)) (k : string)
  (ps : list Package) : m !! k = Some ps -> (k, ps) ∈ map_to_list m.
Proof. apply elem_of_map_to_list. Qed.

Lemma version_extraction_witness :
  getGoVersion (mkItem "go1.21.4.linux-amd64.tar.gz" "" "") = Ret "1.21.4"
  /\ getGoVersion (mkItem "go1.21rc2.linux-amd64.tar.gz" "" "") = Ret "1.21rc2"
  /\ getGoVersion (mkItem "go1.linux-amd64.tar.gz" "" "") = Ret "1"
  /\ getGoVersion (mkItem "golang.tar.gz" "" "") = Ret ""
  /\ (convert [mkItem "golang.tar.gz" "" ""] = Panic
      \/ exists name, convert [mkItem "golang.tar.gz" "" ""]
                      = Ret (Err (MalformedVersionError name))).
Proof.
  pose proof (version_extraction (fun _ => osMapping) (fun _ => archMapping)
                map_to_list visits_all) as H.
  split; [|split; [|split; [|split]]].
  - destruct (H (mkItem "go1.21.4.linux-amd64.tar.gz" "" "")) as (_ & Hc & _).
    destruct (Hc "1" "21" "4" ["linux-amd64"; "tar"; "gz"] eq_refl)
      as (_ & H3 & _).
    apply H3; reflexivity.
  - destruct (H (mkItem "go1.21rc2.linux-amd64.tar.gz" "" "")) as (_ & Hc & _).
    destruct (Hc "1" "21rc2" "linux-amd64" ["tar"; "gz"] eq_refl)
      as (_ & _ & H2 & _).
    apply H2; [reflexivity | reflexivity | discriminate | reflexivity].
  - destruct (H (mkItem "go1.linux-amd64.tar.gz" "" "")) as (_ & Hc & _).
    destruct (Hc "1" "linux-amd64" "tar" ["gz"] eq_refl) as (_ & _ & _ & H1).
    apply H1; [reflexivity | discriminate | reflexivity | discriminate
               | reflexivity].
  - destruct (H (mkItem "golang.tar.gz" "" "")) as (_ & Hc & _).
    destruct (Hc "lang" "tar" "gz" [] eq_refl) as (H0 & _).
    apply H0; [discriminate | reflexivity].
  - destruct (H (mkItem "golang.tar.gz" "" "")) as (_ & _ & Hd).
    apply Hd; [left | reflexivity].
Defined.

(** Against C5: in "go1.x.2" the second component is not numeric but the
    third is, and the version has three components; and the
    record "golang.tar.gz", which has no version, is not discarded: with
    it in the listing the conversion fails, without it it succeeds. *)
Lemma version_extraction_counterexample :
  ~ second_decides (mkItem "go1.x.2" "" "")
  /\ getGoVersion (mkItem "golang.tar.gz" "" "") = Ret ""
  /\ convert [mkItem "golang.tar.gz" "" ""; mkItem "go1.21.4.src.tar.gz" "" ""]
     = Ret (Err (MalformedVersionError ""))
  /\ exists vers, convert [mkItem "go1.21.4.src.tar.gz" "" ""] = Ret (Ok vers).
Proof.
  split; [|split; [reflexivity | split; [reflexivity|]]].
  - intros H. specialize (H "1" "x" "2" [] eq_refl eq_refl eq_refl).
    discriminate.
  - eexists. reflexivity.
Qed.

Lemma checksum_pairing_witness :
  ends_with "go1.21.4.linux-amd64.tar.gz.sha256" ".sha256"
  /\ exists pkgMap' : gmap string (list Package),
      addItem (fun _ => osMapping) (fun _ => archMapping)
        {[ "1.21.4" := [archive "go1.21.4.linux-amd64.tar.gz";
                        archive "go1.21.4.src.tar.gz"] ]}
        (mkItem "go1.21.4.linux-amd64.tar.gz.sha256"
           "https://mirrors.aliyun.com/golang/go1.21.4.linux-amd64.tar.gz.sha256"
           "64")
      = Ret pkgMap'
      /\ (Algorithm <$> pkgsOf pkgMap' "1.21.4" !! 0%nat) = Some "SHA256"
      /\ pkgsOf pkgMap' "1.21.4" !! 1%nat
         = Some (archive "go1.21.4.src.tar.gz").
Proof.
  assert (ends_with "go1.21.4.linux-amd64.tar.gz.sha256" ".sha256") as He
    by now exists "go1.21.4.linux-amd64.tar.gz".
  split; [exact He|].
  destruct (proj1 (checksum_pairing (fun _ => osMapping) (fun _ => archMapping))
              {[ "1.21.4" := [archive "go1.21.4.linux-amd64.tar.gz";
                              archive "go1.21.4.src.tar.gz"] ]}
              (mkItem "go1.21.4.linux-amd64.tar.gz.sha256"
                 "https://mirrors.aliyun.com/golang/go1.21.4.linux-amd64.tar.gz.sha256"
                 "64")
              "1.21.4" He eq_refl) as (pkgMap' & Hadd & _ & _ & Hpkgs).
  exists pkgMap'. split; [exact Hadd|]. split.
  - destruct (Hpkgs 0%nat (archive "go1.21.4.linux-amd64.tar.gz") eq_refl)
      as [Hset _].
    rewrite Hset; [reflexivity|]. now exists ".sha256".
  - destruct (Hpkgs 1%nat (archive "go1.21.4.src.tar.gz") eq_refl)
      as [_ Hkeep].
    apply Hkeep. intros [q Hq]. discriminate.
Defined.

Lemma collector_selection_witness :
  selectAdapter (normalize " autoindex|https://mirrors.ustc.edu.cn/golang ")
  = Some (Autoindex, "https://mirrors.ustc.edu.cn/golang/")
  /\ snd (NewCollector unit noFetch
            {[ 0%nat := ["fancyindex|https://mirrors.hust.edu.cn/golang/"] ]}
            0%nat)
     = Ok (mkCollector unit Fancyindex "https://mirrors.hust.edu.cn/golang/" tt)
  /\ snd (NewCollector unit noFetch {[ 0%nat := [""] ]} 0%nat)
     = Ok (mkCollector unit Official "https://go.dev/dl/" tt)
  /\ snd (NewCollector unit noFetch {[ 0%nat := ["hello world"] ]} 0%nat)
     = Err ErrCollectorNotFound.
Proof.
  destruct (collector_selection unit noFetch)
    as (_ & Hname & _ & _ & Hhust & Hdefault & Hnone).
  split; [|split; [|split]].
  - apply (Hname " autoindex|https://mirrors.ustc.edu.cn/golang " Autoindex
             "https://mirrors.ustc.edu.cn/golang/").
    reflexivity.
  - rewrite Hhust; reflexivity.
  - rewrite Hdefault; [reflexivity | right; reflexivity].
  - apply Hnone; [reflexivity|].
    intros s Hs. apply list_elem_of_singleton in Hs. subst s. reflexivity.
Defined.

Lemma caller_slice_after_witness :
  exists l' : list string,
    fst (NewCollector unit noFetch
           {[ 0%nat := [" a "; "fancyindex|https://mirrors.hust.edu.cn/golang";
                        " b "] ]} 0%nat) !! 0%nat = Some l'
    /\ l' !! 0%nat = Some "a/"
    /\ l' !! 1%nat = Some "fancyindex|https://mirrors.hust.edu.cn/golang/"
    /\ l' !! 2%nat = Some " b ".
Proof.
  destruct (caller_slice_after unit noFetch
              {[ 0%nat := [" a "; "fancyindex|https://mirrors.hust.edu.cn/golang";
                           " b "] ]} 0%nat
              [" a "; "fancyindex|https://mirrors.hust.edu.cn/golang"; " b "]
              (lookup_singleton_eq _ _)) as (_ & _ & Hwrite).
  destruct (Hwrite eq_refl) as (l' & Hl' & _ & Hel).
  exists l'. split; [exact Hl'|]. split; [|split].
  - apply (Hel 0%nat " a " eq_refl). intros j t Hj. lia.
  - apply (Hel 1%nat "fancyindex|https://mirrors.hust.edu.cn/golang" eq_refl).
    intros [|[|j]] t Hj Ht; [|lia..]. injection Ht as <-. reflexivity.
  - apply (Hel 2%nat " b " eq_refl).
    exists 1%nat, "fancyindex|https://mirrors.hust.edu.cn/golang".
    split; [lia|]. split; [reflexivity|]. eexists. reflexivity.
Defined.

(** Against C10, on the empty string alone: the call works on a
    new slice, and the caller's element is not replaced by its normalized
    form "/". *)
Lemma caller_slice_counterexample : ~ overwrites_examined [""].
Proof.
  intros H.
  specialize (H {[ 0%nat := [""] ]} 0%nat 0%nat ""
                (lookup_singleton_eq _ _) eq_refl).
  assert (elems (fst (NewCollector unit noFetch {[ 0%nat := [""] ]} 0%nat))
            0%nat !! 0%nat = Some "") as Hkept by reflexivity.
  rewrite H in Hkept; [discriminate|]. intros j t Hj. lia.
Qed.

Lemma semantify_order_witness :
  Semantify "1.21rc4" = Ok (Semver.mkVersion 1 21 0 "rc4" "" "1.21-rc4")
  /\ Semver.Compare (Semver.mkVersion 1 21 0 "rc4" "" "1.21-rc4")
       (Semver.mkVersion 1 21 0 "" "" "1.21.0") = Lt
  /\ Semver.Compare (Semver.mkVersion 1 19 0 "beta1" "" "1.19-beta1")
       (Semver.mkVersion 1 21 0 "rc4" "" "1.21-rc4") = Lt.
Proof.
  destruct semantify_order as (Hhyphen & Htriple & Hpre & _).
  split; [|split].
  - refine (Hhyphen "1.21" "rc" "4" _ _ eq_refl eq_refl);
      [discriminate | right; right; left].
  - apply (Hpre "1.21rc4" "1.21.0"); try reflexivity; discriminate.
  - apply (Htriple "1.19beta1" "1.21rc4"); [reflexivity | reflexivity|].
    right. left. split; [reflexivity|]. reflexivity.
Defined.

Lemma version_extraction_partial_witness :
  exists ver, getGoVersion (mkItem "go1.21.4.linux-amd64.tar.gz" "" "") = Ret ver.
Proof.
  apply (proj2 (proj2 (proj2 version_extraction_partial))).
  intros a Ha. simpl in Ha.
  repeat (apply elem_of_cons in Ha as [->|Ha]; [discriminate|]).
  inversion Ha.
Defined.

End Witnesses.

Section FinderOutcomeFacts.

Variable Constraints : Type.
Variable NewConstraint : string -> option Constraints.
Variable Check : Constraints -> Semver.Version -> bool.

Lemma scanDown_elem (P : Version -> bool) (l : list Version) (n : nat)
  (v : Version) :
  scanDown P l n = Some v -> v ∈ l /\ P v = true.
Proof.
  induction n as [|i IH]; simpl; [discriminate|].
  destruct (l !! i) as [w|] eqn:E; [|exact IH].
  destruct (P w) eqn:Pw; [|exact IH].
  intros [= <-]. split; [now apply list_elem_of_lookup_2 in E | exact Pw].
Qed.

Lemma scanDown_full_None (P : Version -> bool) (l : list Version) :
  scanDown P l (length l) = None <-> forall w, w ∈ l -> P w = false.
Proof.
  split.
  - intros H w Hw. destruct (P w) eqn:Pw; [|reflexivity].
    apply list_elem_of_lookup in Hw as [i Hi].
    assert (forall n, (i < n)%nat -> scanDown P l n <> None) as Hn.
    { induction n as [|n IH]; intros Hlt; [lia|]. simpl.
      destruct (Nat.eq_dec i n) as [->|Hne].
      - rewrite Hi, Pw. discriminate.
      - destruct (l !! n) as [x|]; [destruct (P x); [discriminate|]|];
          apply IH; lia. }
    exfalso. apply (Hn (length l)); [now apply lookup_lt_Some in Hi | exact H].
  - intros H. destruct (scanDown P l (length l)) as [v|] eqn:E; [|reflexivity].
    apply scanDown_elem in E as [Hv Pv]. rewrite (H v Hv) in Pv. discriminate.
Qed.

Lemma existsb_elem (P : Version -> bool) (l : list Version) :
  existsb P l = true <-> exists v, v ∈ l /\ P v = true.
Proof.
  rewrite existsb_exists. split; intros (v & Hv & Pv); exists v;
    (split; [now apply list_elem_of_In | exact Pv]).
Qed.

(** The outcome of [Find] in terms of the versions of the slice. *)
Lemma Find_Ok (fdr : Finder) (vname : string) (v : Version) :
  Find NewConstraint Check fdr vname = Ok v ->
  qualifies NewConstraint Check fdr vname v.
Proof.
  destruct (String.eqb vname Latest) eqn:El.
  - apply String.eqb_eq in El. subst vname. rewrite Find_latest.
    unfold findLatest. destruct (length (items fdr) =? 0)%nat; [discriminate|].
    rewrite latestLoop_scan.
    destruct (scanDown _ _ _) as [w|] eqn:E; [|discriminate].
    intros [= <-]. apply scanDown_elem in E as [Hw Pw].
    split; [exact Hw|]. split; [now left | now apply match_spec].
  - apply String.eqb_neq in El. rewrite (Find_other _ _ _ _ _ El).
    destruct (scanDown (passExact fdr vname) _ _) as [w|] eqn:E.
    + intros [= <-]. apply scanDown_elem in E as [Hw Pw].
      unfold passExact in Pw. apply andb_true_iff in Pw as [Hn Hm].
      apply String.eqb_eq in Hn.
      split; [exact Hw|]. split; [right; split; [exact El | now left]|].
      now apply match_spec.
    + destruct (NewConstraint vname) as [cs|] eqn:Ec; [|discriminate].
      destruct (scanDown (passConstraint Check fdr cs) _ _) as [w|] eqn:E2.
      * intros [= <-]. apply scanDown_elem in E2 as [Hw Pw].
        unfold passConstraint in Pw. apply andb_true_iff in Pw as [Hc Hm].
        split; [exact Hw|]. split; [|now apply match_spec].
        right. split; [exact El|]. right. exists cs. now split.
      * destruct (existsb _ _); discriminate.
Qed.

Lemma Find_Err (fdr : Finder) (vname : string) :
  (exists e, Find NewConstraint Check fdr vname = Err e) <->
  ~ exists v, qualifies NewConstraint Check fdr vname v.
Proof.
  split.
  - intros [e He] (v & Hv & Hsel & Hm). apply match_spec in Hm.
    destruct Hsel as [->|[Hne Hsel]].
    + rewrite Find_latest in He. unfold findLatest in He.
      destruct (length (items fdr) =? 0)%nat eqn:El.
      * apply Nat.eqb_eq in El. destruct (items fdr); [|discriminate].
        inversion Hv.
      * rewrite latestLoop_scan in He.
        destruct (scanDown _ _ _) eqn:E; [discriminate|].
        rewrite scanDown_full_None in E. specialize (E v Hv).
        unfold passLatest in E. congruence.
    + rewrite (Find_other _ _ _ _ _ Hne) in He.
      destruct (scanDown (passExact fdr vname) _ _) eqn:E; [discriminate|].
      rewrite scanDown_full_None in E. specialize (E v Hv).
      destruct Hsel as [Hn|(cs & Hcs & Hc)].
      * unfold passExact in E. apply String.eqb_eq in Hn.
        rewrite Hn, Hm in E. discriminate.
      * rewrite Hcs in He.
        destruct (scanDown (passConstraint Check fdr cs) _ _) eqn:E2;
          [discriminate|].
        rewrite scanDown_full_None in E2. specialize (E2 v Hv).
        unfold passConstraint in E2. rewrite Hc, Hm in E2. discriminate.
  - intros Hno. destruct (Find NewConstraint Check fdr vname) as [v|e] eqn:E.
    + exfalso. apply Hno. exists v. now apply Find_Ok.
    + now exists e.
Qed.

End FinderOutcomeFacts.
Section FindPackagesFacts.

Variable EqualFold : string -> string -> bool.

Lemma findPackagesIn_elem (ps : list Package) (kind prefix : string)
  (p : Package) :
  p ∈ findPackagesIn EqualFold (Some <$> ps) kind prefix <->
  p ∈ ps /\ EqualFold (Kind p) kind = true
  /\ HasPrefix (FileName p) prefix = true.
Proof.
  induction ps as [|x ps IH]; simpl.
  - split; [intros H; inversion H | intros [H _]; inversion H].
  - destruct (EqualFold (Kind x) kind) eqn:Ek,
             (HasPrefix (FileName x) prefix) eqn:Ep; simpl;
      rewrite ?elem_of_cons, IH, ?elem_of_cons;
      split; try (intros [->|(H1 & H2 & H3)]; auto; fail);
      try (intros ([->|H1] & H2 & H3); auto; congruence);
      try (intros (H1 & H2 & H3); auto).
Qed.

Lemma findPackagesIn_sublist (ps : list Package) (kind prefix : string) :
  sublist (findPackagesIn EqualFold (Some <$> ps) kind prefix) ps.
Proof.
  induction ps as [|x ps IH]; simpl; [constructor|].
  destruct (negb _ || negb _); now constructor.
Qed.

Lemma findPackagesIn_nil (ptrs : list (option Package)) (kind prefix : string) :
  findPackagesIn EqualFold (None :: ptrs) kind prefix =
  findPackagesIn EqualFold ptrs kind prefix.
Proof. reflexivity. Qed.

Lemma FindPackages_cases (v : Version) (kind goos goarch : string) :
  FindPackages EqualFold v kind goos goarch =
  match findPackagesIn EqualFold (Some <$> pkgs v) kind
          (platformPrefix v goos goarch) with
  | [] => Err (PackageNotFoundError kind goos goarch)
  | l => Ok l
  end.
Proof.
  unfold FindPackages, platformPrefix.
  destruct (findPackagesIn _ _ _ _); reflexivity.
Qed.

Lemma prefix_is_platform (v : Version) (goos goarch s : string) :
  HasPrefix s (platformPrefix v goos goarch) = true ->
  substring_of goos s /\ substring_of goarch s.
Proof.
  intros H. apply HasPrefix_spec in H as [q ->]. unfold platformPrefix. split.
  - exists ("go" +:+ name v +:+ "."), ("-" +:+ goarch +:+ q).
    now rewrite !append_assoc.
  - exists ("go" +:+ name v +:+ "." +:+ goos +:+ "-"), q.
    now rewrite !append_assoc.
Qed.

End FindPackagesFacts.
Section FinderOrderFacts.

Variable Constraints : Type.
Variable NewConstraint : string -> option Constraints.
Variable Check : Constraints -> Semver.Version -> bool.

(** Which of the two errors [Find] fails with. *)
Lemma Find_Err_kind (fdr : Finder) (vname : string) (e : error) :
  Find NewConstraint Check fdr vname = Err e ->
  (e = PackageNotFoundError (kind fdr) (goos fdr) (goarch fdr)
   /\ exists v, v ∈ items fdr /\ covered NewConstraint Check vname v)
  \/ (e = VersionNotFoundError vname (goos fdr) (goarch fdr)
      /\ forall v, v ∈ items fdr -> ~ covered NewConstraint Check vname v).
Proof.
  destruct (String.eqb vname Latest) eqn:El.
  - apply String.eqb_eq in El. subst vname. rewrite Find_latest.
    unfold findLatest. rewrite latestLoop_scan.
    destruct (items fdr) as [|x l] eqn:Ei.
    + intros [= <-]. right. split; [reflexivity|]. intros v Hv. inversion Hv.
    + change (length (x :: l) =? 0)%nat with false. cbv iota.
      destruct (scanDown _ _ _); [discriminate|]. intros [= <-].
      left. split; [reflexivity|]. exists x. split; [left | now left].
  - apply String.eqb_neq in El. rewrite (Find_other _ _ _ _ _ El).
    destruct (scanDown (passExact fdr vname) _ _); [discriminate|].
    destruct (NewConstraint vname) as [cs|] eqn:Ec.
    + destruct (scanDown (passConstraint Check fdr cs) _ _); [discriminate|].
      destruct (existsb _ _) eqn:Ex; intros [= <-].
      * left. split; [reflexivity|]. apply existsb_elem in Ex as (v & Hv & Hc).
        exists v. split; [exact Hv|]. right. exists cs. now split.
      * right. split; [reflexivity|]. intros v Hv [Hl|(cs' & Hcs & Hc)];
          [contradiction|].
        assert (cs' = cs) as -> by congruence.
        assert (existsb (fun v => Check cs (sv v)) (items fdr) = true) as Ht
          by (apply existsb_elem; now exists v).
        congruence.
    + intros [= <-]. right. split; [reflexivity|].
      intros v Hv [Hl|(cs & Hcs & _)]; [contradiction | congruence].
Qed.

Lemma applyFinderOptions_Panic (opts : list (option (Finder -> Finder)))
  (fdr : Finder) :
  applyFinderOptions opts fdr = Panic <-> None ∈ opts.
Proof.
  revert fdr. induction opts as [|o opts IH]; intros fdr; simpl.
  - split; [discriminate | intros H; inversion H].
  - destruct o as [setter|].
    + rewrite IH, elem_of_cons. split; [now right | now intros [?|?]].
    + split; [left | reflexivity].
Qed.

Lemma applyFinderOptions_items (opts : list (option (Finder -> Finder)))
  (fdr fdr' : Finder) :
  Forall finderOption opts ->
  applyFinderOptions opts fdr = Ret fdr' -> items fdr' = items fdr.
Proof.
  intros Hall. revert fdr. induction Hall as [|o opts Ho Hall IH]; intros fdr;
    simpl.
  - now intros [= <-].
  - destruct Ho as [[k ->]|[[os ->]|[arch ->]]]; intros H;
      now rewrite (IH _ H).
Qed.

Lemma applyFinderOptions_app (o1 o2 : list (option (Finder -> Finder)))
  (fdr : Finder) :
  applyFinderOptions (o1 ++ o2) fdr =
  match applyFinderOptions o1 fdr with
  | Ret f => applyFinderOptions o2 f
  | Panic => Panic
  end.
Proof.
  revert fdr. induction o1 as [|o o1 IH]; intros fdr; simpl; [reflexivity|].
  destruct o; [apply IH | reflexivity].
Qed.

Lemma applyOptions_skip (o1 o2 : list (option (Version -> Version)))
  (v : Version) :
  applyOptions (o1 ++ None :: o2) v = applyOptions (o1 ++ o2) v.
Proof.
  revert v. induction o1 as [|o o1 IH]; intros v; simpl; [reflexivity|].
  destruct o; apply IH.
Qed.

End FinderOrderFacts.
(** * Further properties *)

(** ** The outcomes of the finder *)

Section FinderExtras.

Variable Constraints : Type.
Variable NewConstraint : string -> option Constraints.
Variable Check : Constraints -> Semver.Version -> bool.

(** X1: a version that [Find] returns is one of the finder's versions, has
    a package for the finder's platform and answers to the expression: the
    expression is "latest", or it is the version's name, or it parses as a
    constraint that the version satisfies. *)
Theorem find_returns_qualifying (fdr : Finder) (vname : string) (v : Version) :
  Find NewConstraint Check fdr vname = Ok v ->
  v ∈ items fdr
  /\ platform_match v (goos fdr) (goarch fdr)
  /\ (vname = Latest
      \/ (vname <> Latest
          /\ (name v = vname
              \/ exists cs, NewConstraint vname = Some cs
                            /\ Check cs (sv v) = true))).
Proof.
  intros H. apply Find_Ok in H as (Hv & Hsel & Hm). auto.
Qed.

(** X2: [MustFind] panics exactly when no version of the finder both
    answers to the expression and has a package for the platform;
    otherwise it returns what [Find] returns. *)
Theorem must_find_panics (fdr : Finder) (vname : string) :
  (MustFind NewConstraint Check fdr vname = Panic <->
   ~ exists v, qualifies NewConstraint Check fdr vname v)
  /\ (forall v, MustFind NewConstraint Check fdr vname = Ret v <->
                Find NewConstraint Check fdr vname = Ok v).
Proof.
  unfold MustFind. split.
  - rewrite <- Find_Err.
    destruct (Find NewConstraint Check fdr vname) as [v|e].
    + split; [discriminate | intros [e' He']; discriminate].
    + split; [intros _; now exists e | reflexivity].
  - intros v. destruct (Find NewConstraint Check fdr vname) as [w|e].
    + split; intros [= ->]; reflexivity.
    + split; discriminate.
Qed.

(** X3: a failure of [Find] does not depend on the order of the versions:
    two finders for the same kind and platform whose slices hold the same
    versions in any order fail on the same expressions, with the same
    error. *)
Theorem find_failure_order_free (f1 f2 : Finder) (vname : string) (e : error) :
  items f1 ≡ₚ items f2 ->
  kind f1 = kind f2 -> goos f1 = goos f2 -> goarch f1 = goarch f2 ->
  Find NewConstraint Check f1 vname = Err e ->
  Find NewConstraint Check f2 vname = Err e.
Proof.
  intros Hp Hk Ho Ha H1.
  assert (exists e2, Find NewConstraint Check f2 vname = Err e2) as [e2 H2].
  { apply Find_Err. intros (v & Hv & Hsel & Hm).
    assert (exists e', Find NewConstraint Check f1 vname = Err e') as He
      by now exists e.
    apply Find_Err in He. apply He. exists v.
    split; [now rewrite Hp | split; [exact Hsel | now rewrite Ho, Ha]]. }
  rewrite H2. f_equal.
  apply Find_Err_kind in H1 as [[-> (v & Hv & Hc)]|[-> Hnone]];
    apply Find_Err_kind in H2 as [[-> (w & Hw & Hd)]|[-> Hnone2]].
  - now rewrite Hk, Ho, Ha.
  - exfalso. apply (Hnone2 v); [now rewrite <- Hp | exact Hc].
  - exfalso. apply (Hnone w); [now rewrite Hp | exact Hd].
  - now rewrite Ho, Ha.
Qed.

(** X6: [NewFinder] panics exactly when one of its options is nil.  With
    the package's own options it keeps the versions it is given, in some
    order, and an option given last decides its field; without options
    the kind is Archive and the platform is the one the program runs on.
    [New], by contrast, passes over a nil option; with [WithPackages] as
    its only option it builds the version with these packages. *)
Theorem new_finder_options (GOOS GOARCH : string) (its : list Version) :
  (forall opts, NewFinder GOOS GOARCH its opts = Panic <-> None ∈ opts)
  /\ (forall opts fdr,
        Forall finderOption opts ->
        NewFinder GOOS GOARCH its opts = Ret fdr -> items fdr ≡ₚ its)
  /\ (forall opts fdr k os arch,
        (NewFinder GOOS GOARCH its (opts ++ [Some (WithFinderPackageKind k)])
         = Ret fdr -> kind fdr = k)
        /\ (NewFinder GOOS GOARCH its (opts ++ [Some (WithFinderGoos os)])
            = Ret fdr -> goos fdr = os)
        /\ (NewFinder GOOS GOARCH its (opts ++ [Some (WithFinderGoarch arch)])
            = Ret fdr -> goarch fdr = arch))
  /\ (NewFinder GOOS GOARCH its [] =
      Ret (mkFinder ArchiveKind GOOS GOARCH (sortCollection its)))
  /\ (forall vname o1 o2,
        NewWith vname (o1 ++ None :: o2) = NewWith vname (o1 ++ o2))
  /\ (forall vname ps, NewWith vname [Some (WithPackages ps)] = New vname ps).
Proof.
  unfold NewFinder. split; [|split; [|split; [|split; [|split]]]].
  - intros opts. apply applyFinderOptions_Panic.
  - intros opts fdr Hall H.
    rewrite (applyFinderOptions_items _ _ _ Hall H). simpl.
    unfold sortCollection. apply merge_sort_Permutation.
  - intros opts fdr k os arch.
    rewrite !applyFinderOptions_app.
    destruct (applyFinderOptions opts _) as [f|]; simpl.
    + repeat split; now intros [= <-].
    + repeat split; discriminate.
  - reflexivity.
  - intros vname o1 o2. unfold NewWith.
    destruct (Semantify vname); [|reflexivity]. now rewrite applyOptions_skip.
  - intros vname ps. unfold NewWith, New. now destruct (Semantify vname).
Qed.

End FinderExtras.

Section FindPackagesExtras.

Variable EqualFold : string -> string -> bool.

(** X4: [FindPackages] returns, in the order of the version's packages,
    exactly those whose kind equals the requested kind up to case and
    whose file name starts with [go<name>.<goos>-<goarch>]; the list it
    returns is never empty: when no package qualifies it fails with
    PackageNotFound for the requested kind and platform. *)
Theorem find_packages_spec (v : Version) (kind goos goarch : string) :
  (forall l, FindPackages EqualFold v kind goos goarch = Ok l ->
     l <> [] /\ sublist l (pkgs v)
     /\ forall p, p ∈ l <->
          p ∈ pkgs v /\ EqualFold (Kind p) kind = true
          /\ starts_with (FileName p) (platformPrefix v goos goarch))
  /\ (forall e, FindPackages EqualFold v kind goos goarch = Err e ->
        e = PackageNotFoundError kind goos goarch
        /\ forall p, p ∈ pkgs v -> EqualFold (Kind p) kind = true ->
                     ~ starts_with (FileName p) (platformPrefix v goos goarch)).
Proof.
  rewrite FindPackages_cases.
  pose proof (findPackagesIn_elem EqualFold (pkgs v) kind
                (platformPrefix v goos goarch)) as Hel.
  pose proof (findPackagesIn_sublist EqualFold (pkgs v) kind
                (platformPrefix v goos goarch)) as Hsub.
  destruct (findPackagesIn _ _ _ _) as [|x found]; split.
  - discriminate.
  - intros e [= <-]. split; [reflexivity|]. intros p Hp Hk Hs.
    apply HasPrefix_spec in Hs.
    assert (p ∈ @nil Package) as Hin by (apply Hel; auto). inversion Hin.
  - intros l [= <-]. split; [discriminate|]. split; [exact Hsub|].
    intros p. rewrite Hel. unfold starts_with. now rewrite HasPrefix_spec.
  - discriminate.
Qed.

(** X5: a version for which [FindPackages] succeeds on a platform passes
    the platform test of [Find] for that platform, whatever the kind: the
    prefix that [FindPackages] asks for contains both the OS and the
    architecture. *)
Theorem find_packages_platform (v : Version) (kind goos goarch : string)
  (l : list Package) :
  FindPackages EqualFold v kind goos goarch = Ok l ->
  match_ v goos goarch = true.
Proof.
  rewrite FindPackages_cases.
  pose proof (findPackagesIn_elem EqualFold (pkgs v) kind
                (platformPrefix v goos goarch)) as Hel.
  destruct (findPackagesIn _ _ _ _) as [|x found]; [discriminate|].
  intros _. destruct (proj1 (Hel x)) as (Hx & _ & Hp); [left|].
  apply match_spec. exists x. split; [exact Hx|].
  now apply (prefix_is_platform v).
Qed.

End FindPackagesExtras.

(** ** The conversion of a whole listing *)

Lemma checksum_is_no_package (pitem : GoFileItem) :
  isSHA256File pitem = true -> isPackageFile pitem = false.
Proof.
  unfold isSHA256File, isPackageFile. intros H.
  apply HasSuffix_spec in H as [p Hp].
  rewrite !orb_false_iff. repeat split; other_suffix Hp.
Qed.

Lemma versionIs_spec (ver : string) (pitem : GoFileItem) :
  versionIs ver pitem = true <-> getGoVersion pitem = Ret ver.
Proof.
  unfold versionIs. destruct (getGoVersion pitem) as [v|].
  - rewrite String.eqb_eq. split; congruence.
  - split; discriminate.
Qed.

Section GroupingFacts.

Variable osOrder : GoFileItem -> list (string * string).
Variable archOrder : GoFileItem -> list (string * string).

Lemma pairLater_app (ver : string) (l1 l2 : list GoFileItem) (p : Package) :
  pairLater ver (l1 ++ l2) p = pairLater ver l2 (pairLater ver l1 p).
Proof. apply fold_left_app. Qed.

Lemma packagesOf_app (ver : string) (l1 l2 : list GoFileItem) :
  packagesOf osOrder archOrder ver (l1 ++ l2) =
  (pairLater ver l2 <$> packagesOf osOrder archOrder ver l1)
  ++ packagesOf osOrder archOrder ver l2.
Proof.
  induction l1 as [|x l1 IH]; simpl; [reflexivity|].
  destruct (isPackageFile x && versionIs ver x); [|exact IH].
  simpl. now rewrite IH, pairLater_app.
Qed.

(** One iteration of the loop, seen from one version. *)
Lemma addItem_pkgsOf (m m' : gmap string (list Package)) (pitem : GoFileItem)
  (ver : string) :
  addItem osOrder archOrder m pitem = Ret m' ->
  pkgsOf m' ver =
  if versionIs ver pitem then
    if isPackageFile pitem
    then pkgsOf m ver ++ [newPackage osOrder archOrder pitem]
    else if isSHA256File pitem then attachChecksum pitem <$> pkgsOf m ver
    else pkgsOf m ver
  else pkgsOf m ver.
Proof.
  unfold addItem, versionIs. destruct (getGoVersion pitem) as [v|];
    [|discriminate].
  set (m1 := match m !! v with Some _ => m | None => <[v := []]> m end).
  assert (forall k, pkgsOf m1 k = pkgsOf m k) as H1.
  { intros k. subst m1. unfold pkgsOf. destruct (m !! v) eqn:E; [reflexivity|].
    destruct (decide (v = k)) as [->|Hne].
    - now rewrite lookup_insert_eq, E.
    - now rewrite lookup_insert_ne. }
  destruct (String.eqb v ver) eqn:Ev.
  - apply String.eqb_eq in Ev. subst v.
    destruct (isPackageFile pitem); [|destruct (isSHA256File pitem)];
      intros [= <-]; rewrite ?H1; try reflexivity;
      unfold pkgsOf at 1; now rewrite lookup_insert_eq.
  - apply String.eqb_neq in Ev.
    destruct (isPackageFile pitem); [|destruct (isSHA256File pitem)];
      intros [= <-]; rewrite <- ?(H1 ver); try reflexivity;
      unfold pkgsOf at 1; now rewrite lookup_insert_ne.
Qed.

Lemma groupItems_pkgsOf (items : list GoFileItem)
  (m m' : gmap string (list Package)) (ver : string) :
  groupItems osOrder archOrder m items = Ret m' ->
  pkgsOf m' ver =
  (pairLater ver items <$> pkgsOf m ver)
  ++ packagesOf osOrder archOrder ver items.
Proof.
  revert m. induction items as [|x items IH]; intros m; simpl.
  - intros [= <-]. rewrite app_nil_r. unfold pairLater. simpl.
    now rewrite list_fmap_id.
  - destruct (addItem osOrder archOrder m x) as [m1|] eqn:E; [|discriminate].
    intros H. rewrite (IH _ H), (addItem_pkgsOf _ _ _ ver E).
    destruct (versionIs ver x) eqn:Ev.
    + destruct (isPackageFile x) eqn:Ep.
      * assert (isSHA256File x = false) as Es.
        { destruct (isSHA256File x) eqn:Es; [|reflexivity].
          apply checksum_is_no_package in Es. congruence. }
        rewrite fmap_app, <- app_assoc. simpl. f_equal.
        apply list_fmap_ext. intros i p _. unfold pairLater. simpl.
        now rewrite Es.
      * rewrite andb_false_l.
        destruct (isSHA256File x) eqn:Es.
        -- rewrite <- list_fmap_compose. f_equal.
           apply list_fmap_ext. intros i p _. unfold pairLater. simpl.
           now rewrite Es, Ev.
        -- f_equal. apply list_fmap_ext. intros i p _. unfold pairLater.
           simpl. now rewrite Es.
    + rewrite andb_false_r. f_equal.
      apply list_fmap_ext. intros i p _. unfold pairLater. simpl.
      now rewrite Ev, andb_false_r.
Qed.

Lemma groupItems_keys_inv (items : list GoFileItem)
  (m m' : gmap string (list Package)) (k : string) :
  groupItems osOrder archOrder m items = Ret m' ->
  is_Some (m' !! k) ->
  is_Some (m !! k)
  \/ exists pitem, pitem ∈ items /\ getGoVersion pitem = Ret k.
Proof.
  revert m. induction items as [|x items IH]; intros m; simpl.
  - intros [= <-]. now left.
  - destruct (addItem osOrder archOrder m x) as [m1|] eqn:E; [|discriminate].
    intros H Hk. destruct (IH _ H Hk) as [H1|(pitem & Hin & Hv)].
    + unfold addItem in E. destruct (getGoVersion x) as [v|] eqn:Ev;
        [|discriminate].
      destruct (decide (v = k)) as [->|Hne].
      * right. exists x. split; [left | exact Ev].
      * left.
        assert (is_Some ((match m !! v with
                          | Some _ => m
                          | None => <[v := []]> m
                          end) !! k) -> is_Some (m !! k)) as Hm.
        { destruct (m !! v); [auto | now rewrite lookup_insert_ne]. }
        destruct (isPackageFile x); [|destruct (isSHA256File x)];
          injection E as <-; rewrite ?lookup_insert_ne in H1 by exact Hne;
          auto.
    + right. exists pitem. split; [now right | exact Hv].
Qed.

Lemma groupItems_Panic (items : list GoFileItem)
  (m : gmap string (list Package)) :
  groupItems osOrder archOrder m items = Panic <->
  exists pitem, pitem ∈ items /\ getGoVersion pitem = Panic.
Proof.
  revert m. induction items as [|x items IH]; intros m; simpl.
  - split; [discriminate | intros (p & Hp & _); inversion Hp].
  - destruct (addItem osOrder archOrder m x) as [m1|] eqn:E.
    + rewrite IH. assert (getGoVersion x <> Panic) as Hx.
      { unfold addItem in E. destruct (getGoVersion x); [discriminate|].
        discriminate. }
      split; intros (p & Hp & Hv); exists p.
      * split; [now right | exact Hv].
      * apply elem_of_cons in Hp as [->|Hp]; [contradiction | now split].
    + split; [intros _ | reflexivity]. exists x. split; [left|].
      unfold addItem in E. destruct (getGoVersion x); [|reflexivity].
      destruct (isPackageFile x); [|destruct (isSHA256File x)]; discriminate.
Qed.

End GroupingFacts.
Section PairingFacts.

Variable osOrder : GoFileItem -> list (string * string).
Variable archOrder : GoFileItem -> list (string * string).

Lemma pairLater_cons (ver : string) (c : GoFileItem) (later : list GoFileItem)
  (p : Package) :
  pairLater ver (c :: later) p =
  pairLater ver later (if pairs ver c p then attachChecksum c p else p).
Proof.
  unfold pairLater, pairs, attachChecksum. simpl.
  destruct (isSHA256File c), (versionIs ver c),
    (HasPrefix (ItemFileName c) (FileName p)); reflexivity.
Qed.

Lemma pairLater_FileName (ver : string) (later : list GoFileItem)
  (p : Package) :
  FileName (pairLater ver later p) = FileName p.
Proof.
  revert p. induction later as [|c later IH]; intros p; [reflexivity|].
  rewrite pairLater_cons, IH.
  unfold attachChecksum. destruct (pairs ver c p); [|reflexivity].
  now destruct (negb _).
Qed.

(** No later checksum file is paired: the package stays as it is. *)
Lemma pairLater_none (ver : string) (later : list GoFileItem) (p : Package) :
  (forall c, c ∈ later -> pairs ver c p = false) ->
  pairLater ver later p = p.
Proof.
  induction later as [|c later IH]; intros Hnone; [reflexivity|].
  rewrite pairLater_cons, (Hnone c) by left. apply IH.
  intros c' Hc'. apply Hnone. now right.
Qed.

Lemma attachChecksum_pairs (ver : string) (c c' : GoFileItem) (p : Package) :
  pairs ver c' (attachChecksum c p) = pairs ver c' p.
Proof.
  unfold pairs, attachChecksum. now destruct (negb _).
Qed.

Lemma pairLater_pairs (ver : string) (later : list GoFileItem)
  (c : GoFileItem) (p : Package) :
  pairs ver c (pairLater ver later p) = pairs ver c p.
Proof. unfold pairs. now rewrite pairLater_FileName. Qed.

Lemma attachChecksum_twice (c c' : GoFileItem) (p : Package) :
  HasPrefix (ItemFileName c) (FileName p) = true ->
  attachChecksum c (attachChecksum c' p) = attachChecksum c p.
Proof.
  intros H. unfold attachChecksum.
  destruct (negb (HasPrefix (ItemFileName c') (FileName p))); simpl;
    now rewrite H.
Qed.

(** Whatever was paired before, the last paired checksum file decides. *)
Lemma pairLater_before (ver : string) (mid : list GoFileItem)
  (c : GoFileItem) (p : Package) :
  pairs ver c p = true ->
  attachChecksum c (pairLater ver mid p) = attachChecksum c p.
Proof.
  intros Hc. revert p Hc. induction mid as [|x mid IH]; intros p Hc;
    [reflexivity|].
  rewrite pairLater_cons. destruct (pairs ver x p) eqn:Ex; [|now apply IH].
  rewrite IH by now rewrite attachChecksum_pairs.
  apply attachChecksum_twice. unfold pairs in Hc.
  now apply andb_true_iff in Hc as [_ Hc].
Qed.

Lemma pairLater_last (ver : string) (mid rest : list GoFileItem)
  (c : GoFileItem) (p : Package) :
  pairs ver c p = true ->
  (forall c', c' ∈ rest -> pairs ver c' p = false) ->
  pairLater ver (mid ++ c :: rest) p = attachChecksum c p.
Proof.
  intros Hc Hrest. rewrite pairLater_app, pairLater_cons, pairLater_pairs, Hc.
  rewrite pairLater_none.
  - now apply pairLater_before.
  - intros c' Hc'. rewrite attachChecksum_pairs, pairLater_pairs. auto.
Qed.

(** Either no record of the list is paired, or there is a last one. *)
Lemma last_paired (ver : string) (later : list GoFileItem) (p : Package) :
  (forall c, c ∈ later -> pairs ver c p = false)
  \/ exists mid c rest,
       later = mid ++ c :: rest /\ pairs ver c p = true
       /\ forall c', c' ∈ rest -> pairs ver c' p = false.
Proof.
  induction later as [|x later IH].
  - left. intros c Hc. inversion Hc.
  - destruct IH as [Hnone|(mid & c & rest & -> & Hc & Hrest)].
    + destruct (pairs ver x p) eqn:Ex.
      * right. exists [], x, later. auto.
      * left. intros c Hc. apply elem_of_cons in Hc as [->|Hc]; auto.
    + right. exists (x :: mid), c, rest. auto.
Qed.

Lemma packagesOf_elem (ver : string) (items : list GoFileItem) (p : Package) :
  p ∈ packagesOf osOrder archOrder ver items ->
  exists before pitem after,
    items = before ++ pitem :: after
    /\ isPackageFile pitem = true /\ getGoVersion pitem = Ret ver
    /\ p = pairLater ver after (newPackage osOrder archOrder pitem).
Proof.
  induction items as [|x items IH]; simpl; [intros H; inversion H|].
  destruct (isPackageFile x && versionIs ver x) eqn:E.
  - rewrite elem_of_cons. intros [->|Hin].
    + apply andb_true_iff in E as [Ep Ev]. apply versionIs_spec in Ev.
      exists [], x, items. auto.
    + destruct (IH Hin) as (before & pitem & after & -> & H).
      exists (x :: before), pitem, after. auto.
  - intros Hin. destruct (IH Hin) as (before & pitem & after & -> & H).
    exists (x :: before), pitem, after. auto.
Qed.

End PairingFacts.
Section ConvertExtras.

Variable osOrder : GoFileItem -> list (string * string).
Variable archOrder : GoFileItem -> list (string * string).
Variable rangeMap : gmap string (list Package) -> list (string * list Package).

(** The range over the grouped map visits every entry once, in some
    order. *)
Hypothesis rangeMap_entries : forall m, rangeMap m ≡ₚ map_to_list m.

Lemma newVersions_Ok (entries : list (string * list Package))
  (vers : list Version) :
  newVersions entries = Ok vers ->
  Forall2 (fun e v => name v = e.1 /\ pkgs v = e.2
                      /\ Semantify e.1 = Ok (sv v)) entries vers.
Proof.
  revert vers. induction entries as [|[k ps] rest IH]; intros vers; simpl.
  - intros [= <-]. constructor.
  - unfold New. destruct (Semantify k) as [s|e] eqn:Es; [|discriminate].
    destruct (newVersions rest) as [vs|e]; [|discriminate].
    intros [= <-]. constructor; [simpl; auto | now apply IH].
Qed.

Lemma newVersions_Err (entries : list (string * list Package)) (e : error) :
  newVersions entries = Err e ->
  exists k ps, (k, ps) ∈ entries /\ Semantify k = Err e.
Proof.
  induction entries as [|[k ps] rest IH]; simpl; [discriminate|].
  unfold New. destruct (Semantify k) as [s|e'] eqn:Es.
  - destruct (newVersions rest) as [vs|e']; [discriminate|].
    intros [= <-]. destruct IH as (k' & ps' & Hin & Hk); [reflexivity|].
    exists k', ps'. split; [now right | exact Hk].
  - intros [= <-]. exists k, ps. split; [left | exact Es].
Qed.

Lemma grouped_keys (items : list GoFileItem) (m : gmap string (list Package))
  (k : string) :
  groupItems osOrder archOrder ∅ items = Ret m ->
  is_Some (m !! k) <->
  exists pitem, pitem ∈ items /\ getGoVersion pitem = Ret k.
Proof.
  intros H. split.
  - intros Hk. destruct (groupItems_keys_inv _ _ _ _ _ k H Hk) as [H0|H0];
      [|exact H0].
    rewrite lookup_empty in H0. now destruct H0.
  - intros (pitem & Hin & Hv).
    exact (proj2 (groupItems_keys _ _ _ _ _ H) pitem k Hin Hv).
Qed.

Lemma rangeMap_elem (m : gmap string (list Package)) (k : string)
  (ps : list Package) :
  (k, ps) ∈ rangeMap m <-> m !! k = Some ps.
Proof. now rewrite rangeMap_entries, elem_of_map_to_list. Qed.

(** What a successful conversion returns, before sorting. *)
Lemma converted_versions (items : list GoFileItem)
  (m : gmap string (list Package)) (vers : list Version) :
  groupItems osOrder archOrder ∅ items = Ret m ->
  newVersions (rangeMap m) = Ok vers ->
  NoDup (name <$> vers)
  /\ (forall n, n ∈ name <$> vers <->
                exists pitem, pitem ∈ items /\ getGoVersion pitem = Ret n)
  /\ forall v, v ∈ vers ->
       Semantify (name v) = Ok (sv v)
       /\ pkgs v = packagesOf osOrder archOrder (name v) items.
Proof.
  intros Hg Hn. apply newVersions_Ok in Hn.
  assert (name <$> vers = (rangeMap m).*1) as Hnames.
  { clear -Hn. induction Hn as [|e v es vs (Hv & _) _ IH];
      [reflexivity | rewrite !fmap_cons; now f_equal]. }
  assert (forall v, v ∈ vers ->
            (name v, pkgs v) ∈ rangeMap m
            /\ Semantify (name v) = Ok (sv v)) as Hentry.
  { clear -Hn. induction Hn as [|[k ps] v es vs (Hv & Hp & Hs) _ IH];
      intros w Hw; [inversion Hw|].
    simpl in *. apply elem_of_cons in Hw as [->|Hw].
    - rewrite Hv, Hp. split; [left | exact Hs].
    - destruct (IH w Hw). split; [now right | assumption]. }
  split; [|split].
  - rewrite Hnames, rangeMap_entries. apply NoDup_fst_map_to_list.
  - intros n. rewrite Hnames, rangeMap_entries, <- (grouped_keys _ _ _ Hg).
    rewrite list_elem_of_fmap. split.
    + intros ([k ps] & -> & Hin). apply elem_of_map_to_list in Hin. eauto.
    + intros [ps Hps]. exists (n, ps). split; [reflexivity|].
      now apply elem_of_map_to_list.
  - intros v Hv. destruct (Hentry v Hv) as [Hin Hs]. split; [exact Hs|].
    apply rangeMap_elem in Hin.
    rewrite <- (app_nil_l (packagesOf _ _ _ _)).
    change (@nil Package) with
      (pairLater (name v) items <$> pkgsOf ∅ (name v)).
    rewrite <- (groupItems_pkgsOf _ _ _ _ _ (name v) Hg).
    unfold pkgsOf. now rewrite Hin.
Qed.

Lemma Convert2Versions_Ok (items : list GoFileItem) (vers : list Version) :
  Convert2Versions osOrder archOrder rangeMap items = Ret (Ok vers) ->
  exists m vers0,
    groupItems osOrder archOrder ∅ items = Ret m
    /\ newVersions (rangeMap m) = Ok vers0 /\ vers ≡ₚ vers0.
Proof.
  unfold Convert2Versions.
  destruct (groupItems osOrder archOrder ∅ items) as [m|]; [|discriminate].
  destruct (newVersions (rangeMap m)) as [vers0|e] eqn:Hn; [|discriminate].
  intros [= <-]. exists m, vers0. split; [reflexivity|].
  split; [exact Hn|]. unfold sortCollection. apply merge_sort_Permutation.
Qed.

(** X7: [Convert2Versions] has three outcomes.  It panics exactly when the
    version of some record cannot be extracted without an index error.
    Otherwise it fails exactly when the version extracted from some record
    is rejected by [Semantify], and then with the MalformedVersion error
    of such a record; one bad record fails the whole listing.  Otherwise
    it succeeds. *)
Theorem convert_outcome (items : list GoFileItem) :
  (Convert2Versions osOrder archOrder rangeMap items = Panic <->
   exists pitem, pitem ∈ items /\ getGoVersion pitem = Panic)
  /\ (forall e,
        Convert2Versions osOrder archOrder rangeMap items = Ret (Err e) ->
        exists pitem n, pitem ∈ items /\ getGoVersion pitem = Ret n
                        /\ Semantify n = Err e
                        /\ e = MalformedVersionError (hyphenate n))
  /\ ((exists vers,
         Convert2Versions osOrder archOrder rangeMap items = Ret (Ok vers)) <->
      forall pitem, pitem ∈ items ->
        exists n s, getGoVersion pitem = Ret n /\ Semantify n = Ok s).
Proof.
  unfold Convert2Versions.
  pose proof (groupItems_Panic osOrder archOrder items ∅) as Hp.
  destruct (groupItems osOrder archOrder ∅ items) as [m|] eqn:Hg.
  - split; [|split].
    + rewrite <- Hp. destruct (newVersions (rangeMap m)); split; discriminate.
    + intros e. destruct (newVersions (rangeMap m)) as [vers|e'] eqn:Hn;
        [discriminate|]. intros [= <-].
      apply newVersions_Err in Hn as (k & ps & Hin & Hk).
      apply rangeMap_elem in Hin.
      destruct (proj1 (grouped_keys _ _ k Hg)) as (pitem & Hi & Hv); [eauto|].
      exists pitem, k. repeat split; try assumption.
      unfold Semantify in Hk. destruct (Semver.NewVersion _); congruence.
    + split.
      * intros [vers Hv] pitem Hin.
        destruct (newVersions (rangeMap m)) as [vers0|e] eqn:Hn;
          [|discriminate].
        destruct (getGoVersion pitem) as [n|] eqn:En.
        -- destruct (proj2 (grouped_keys _ _ n Hg)) as [ps Hps]; [eauto|].
           apply rangeMap_elem in Hps. apply newVersions_Ok in Hn.
           apply list_elem_of_lookup in Hps as [i Hi].
           destruct (Forall2_lookup_l _ _ _ _ _ Hn Hi) as (v & _ & _ & _ & Hs).
           exists n, (sv v). now split.
        -- exfalso. assert (Ret m = @Panic (gmap string (list Package)));
             [|discriminate]. apply Hp. eauto.
      * intros Hall.
        destruct (newVersions (rangeMap m)) as [vers0|e] eqn:Hn; [eauto|].
        exfalso. apply newVersions_Err in Hn as (k & ps & Hin & Hk).
        apply rangeMap_elem in Hin.
        destruct (proj1 (grouped_keys _ _ k Hg)) as (pitem & Hi & Hv);
          [eauto|].
        destruct (Hall pitem Hi) as (n & s & Hn' & Hs). congruence.
  - split; [|split].
    + split; [intros _; now apply Hp | reflexivity].
    + discriminate.
    + split; [intros [? ?]; discriminate|].
      intros Hall. destruct (proj1 Hp eq_refl) as (pitem & Hin & Hv).
      destruct (Hall pitem Hin) as (n & s & Hn & _). congruence.
Qed.

(** X8: the versions that [Convert2Versions] returns have pairwise
    different names, one for each version extracted from a record of the
    listing, whether or not the record is a package file; each carries the
    semantic version of its name, and its packages are the package files
    of that version in the order of the listing, each paired with the
    checksum files listed after it. *)
Theorem convert_result (items : list GoFileItem) (vers : list Version) :
  Convert2Versions osOrder archOrder rangeMap items = Ret (Ok vers) ->
  NoDup (name <$> vers)
  /\ (forall n, n ∈ name <$> vers <->
                exists pitem, pitem ∈ items /\ getGoVersion pitem = Ret n)
  /\ forall v, v ∈ vers ->
       Semantify (name v) = Ok (sv v)
       /\ pkgs v = packagesOf osOrder archOrder (name v) items.
Proof.
  intros H. apply Convert2Versions_Ok in H as (m & vers0 & Hg & Hn & Hperm).
  destruct (converted_versions _ _ _ Hg Hn) as (Hnd & Hnames & Hv).
  split; [|split].
  - now rewrite Hperm.
  - intros n. now rewrite Hperm.
  - intros v Hin. apply Hv. now rewrite <- Hperm.
Qed.

(** Where a package of a converted listing comes from. *)
Lemma converted_package (items : list GoFileItem)
  (vers : list Version) (v : Version) (p : Package) :
  Convert2Versions osOrder archOrder rangeMap items = Ret (Ok vers) ->
  v ∈ vers -> p ∈ pkgs v ->
  exists before pitem after,
    items = before ++ pitem :: after
    /\ isPackageFile pitem = true /\ getGoVersion pitem = Ret (name v)
    /\ FileName p = ItemFileName pitem /\ URL p = ItemURL pitem
    /\ Size p = ItemSize pitem
    /\ Kind p = getKind pitem /\ Kind p <> "Unknown"
    /\ OS p = getOS (osOrder pitem) pitem
    /\ Arch p = getArch (archOrder pitem) pitem
    /\ Checksum p = ""
    /\ ((ChecksumURL p = "" /\ Algorithm p = ""
         /\ forall c, c ∈ after -> pairs (name v) c p = false)
        \/ exists mid c rest,
             after = mid ++ c :: rest
             /\ pairs (name v) c p = true
             /\ (forall c', c' ∈ rest -> pairs (name v) c' p = false)
             /\ ChecksumURL p = ItemURL c /\ Algorithm p = "SHA256").
Proof.
  intros H Hv Hp. apply Convert2Versions_Ok in H as (m & vers0 & Hg & Hn & Hperm).
  destruct (converted_versions _ _ _ Hg Hn) as (_ & _ & Hpk).
  rewrite Hperm in Hv. destruct (Hpk v Hv) as [_ Epk]. rewrite Epk in Hp.
  apply packagesOf_elem in Hp as (before & pitem & after & -> & Hf & Hver & ->).
  exists before, pitem, after.
  set (np := newPackage osOrder archOrder pitem).
  assert (forall c, pairs (name v) c (pairLater (name v) after np)
                    = pairs (name v) c np) as Hsame
    by (intros c; apply pairLater_pairs).
  destruct (last_paired (name v) after np)
    as [Hnone|(mid & c & rest & -> & Hc & Hrest)].
  - rewrite (pairLater_none _ _ _ Hnone). repeat split; try reflexivity;
      try assumption.
    + now apply packaged_kind_known.
    + left. auto.
  - rewrite pairLater_last in * by assumption.
    assert (HasPrefix (ItemFileName c) (FileName np) = true) as Hpre.
    { unfold pairs in Hc. now apply andb_true_iff in Hc as [_ Hc]. }
    unfold attachChecksum. rewrite Hpre. simpl.
    repeat split; try reflexivity; try assumption.
    + now apply packaged_kind_known.
    + right. exists mid, c, rest. repeat split; auto.
Qed.

(** X9: every package of a converted listing comes from a package file of
    its version: name, URL and size are the record's, the kind is
    decoded from the name and is never "Unknown", the checksum value is
    empty.  Its checksum URL is that of the last checksum file of the
    version that is listed after the package file and whose name extends
    the package's file name, with the algorithm "SHA256"; without such a
    file both are empty, also when the checksum file is listed before the
    package file. *)
Theorem converted_package_fields (items : list GoFileItem)
  (vers : list Version) (v : Version) (p : Package) :
  Convert2Versions osOrder archOrder rangeMap items = Ret (Ok vers) ->
  v ∈ vers -> p ∈ pkgs v ->
  exists before pitem after,
    items = before ++ pitem :: after
    /\ isPackageFile pitem = true /\ getGoVersion pitem = Ret (name v)
    /\ FileName p = ItemFileName pitem /\ URL p = ItemURL pitem
    /\ Size p = ItemSize pitem
    /\ Kind p = getKind pitem /\ Kind p <> "Unknown"
    /\ OS p = getOS (osOrder pitem) pitem
    /\ Arch p = getArch (archOrder pitem) pitem
    /\ Checksum p = ""
    /\ ((ChecksumURL p = "" /\ Algorithm p = ""
         /\ forall c, c ∈ after -> pairs (name v) c p = false)
        \/ exists mid c rest,
             after = mid ++ c :: rest
             /\ pairs (name v) c p = true
             /\ (forall c', c' ∈ rest -> pairs (name v) c' p = false)
             /\ ChecksumURL p = ItemURL c /\ Algorithm p = "SHA256").
Proof. apply converted_package. Qed.

End ConvertExtras.

(** ** The URLs that the registry hands on *)

Section TrimFacts.

Lemma rev_app_append (s acc : string) :
  String.rev_app s acc = String.rev_app s "" +:+ acc.
Proof.
  revert acc. induction s as [|c s IH]; intros acc; simpl; [reflexivity|].
  rewrite (IH (String c acc)), (IH (String c "")), append_assoc. reflexivity.
Qed.

Lemma rev_cons (c : ascii) (s : string) :
  String.rev (String c s) = String.rev s +:+ String c "".
Proof. unfold String.rev. simpl. apply rev_app_append. Qed.

Lemma rev_append (a b : string) :
  String.rev (a +:+ b) = String.rev b +:+ String.rev a.
Proof.
  induction a as [|c a IH]; simpl.
  - now rewrite append_nil_r.
  - now rewrite !rev_cons, IH, append_assoc.
Qed.

Lemma rev_involutive (s : string) : String.rev (String.rev s) = s.
Proof.
  induction s as [|c s IH]; [reflexivity|].
  now rewrite rev_cons, rev_append, IH.
Qed.

Lemma lastByte_snoc (s : string) (c : ascii) :
  lastByte s = Some c <-> exists p, s = p +:+ String c "".
Proof.
  split.
  - induction s as [|b s IH]; simpl; [discriminate|].
    destruct s as [|b' s'].
    + intros [= ->]. now exists "".
    + intros H. destruct (IH H) as [p ->]. now exists (String b p).
  - intros [p ->]. now rewrite lastByte_append.
Qed.

Lemma slash_no_space2 (b : ascii) : space2 b "/" = false.
Proof. unfold space2. simpl. apply andb_false_r. Qed.

Lemma slash_no_space3 (b1 b2 : ascii) : space3 b1 b2 "/" = false.
Proof.
  unfold space3. simpl. now rewrite !andb_false_r.
Qed.

(** A final slash is no part of a white-space rune: trimming on the left
    leaves it in place. *)
Lemma TrimLeftSpace_slash (n : nat) (s : string) :
  (String.length s <= n)%nat ->
  lastByte s = Some "/"%char -> lastByte (TrimLeftSpace s) = Some "/"%char.
Proof.
  revert s. induction n as [|n IH]; intros s Hn Hl.
  - destruct s; [discriminate | simpl in Hn; lia].
  - destruct s as [|b1 s1]; [discriminate|]. simpl in Hn.
    cbn [TrimLeftSpace].
    destruct (asciiSpace b1) eqn:E1.
    { destruct s1 as [|b2 s2]; [simpl in Hl; injection Hl as ->; discriminate E1|].
      apply IH; [simpl in *; lia | exact Hl]. }
    destruct s1 as [|b2 s2]; [exact Hl|].
    destruct (space2 b1 b2) eqn:E2.
    { destruct s2 as [|b3 s3].
      - simpl in Hl. injection Hl as ->. now rewrite slash_no_space2 in E2.
      - apply IH; [simpl in *; lia | exact Hl]. }
    destruct s2 as [|b3 s3]; [exact Hl|].
    destruct (space3 b1 b2 b3) eqn:E3; [|exact Hl].
    destruct s3 as [|b4 s4].
    + simpl in Hl. injection Hl as ->. now rewrite slash_no_space3 in E3.
    + apply IH; [simpl in *; lia | exact Hl].
Qed.

Lemma TrimRightSpace_slash (p : string) :
  TrimRightSpace (p +:+ "/") = p +:+ "/".
Proof.
  unfold TrimRightSpace. rewrite rev_append.
  change (String.rev "/") with "/"%string.
  change ("/" +:+ String.rev p) with (String "/" (String.rev p)).
  assert (TrimLeftSpaceRev (String "/" (String.rev p))
          = String "/" (String.rev p)) as ->.
  { cbn [TrimLeftSpaceRev]. change (asciiSpace "/") with false. cbv iota.
    destruct (String.rev p) as [|b2 r2]; [reflexivity|].
    rewrite slash_no_space2. destruct r2 as [|b3 r3]; [reflexivity|].
    now rewrite slash_no_space3. }
  now rewrite rev_cons, rev_involutive.
Qed.

Lemma TrimSpace_slash (s : string) :
  ends_with s "/" -> ends_with (TrimSpace s) "/".
Proof.
  intros [p ->]. unfold TrimSpace.
  assert (lastByte (TrimLeftSpace (p +:+ "/")) = Some "/"%char) as H.
  { apply (TrimLeftSpace_slash (String.length (p +:+ "/"))); [lia|].
    now rewrite lastByte_append. }
  apply lastByte_snoc in H as [q ->]. rewrite TrimRightSpace_slash.
  now exists q.
Qed.

End TrimFacts.
Section TrimStable.

Lemma TrimLeftSpace_length (n : nat) (s : string) :
  (String.length s <= n)%nat ->
  (String.length (TrimLeftSpace s) <= String.length s)%nat.
Proof.
  revert s. induction n as [|n IH]; intros s Hn.
  - destruct s; [simpl; lia | simpl in Hn; lia].
  - destruct s as [|b1 s1]; [simpl; lia|]. simpl in Hn. cbn [TrimLeftSpace].
    destruct (asciiSpace b1).
    { specialize (IH s1 ltac:(lia)). simpl. lia. }
    destruct s1 as [|b2 s2]; [lia|].
    destruct (space2 b1 b2).
    { specialize (IH s2 ltac:(simpl in *; lia)). simpl. lia. }
    destruct s2 as [|b3 s3]; [lia|].
    destruct (space3 b1 b2 b3); [|lia].
    specialize (IH s3 ltac:(simpl in *; lia)). simpl. lia.
Qed.

(** The first rune of a string that trimming on the left leaves alone is
    no white space. *)
Lemma TrimLeftSpace_fixed (s : string) :
  TrimLeftSpace s = s <->
  match s with
  | EmptyString => True
  | String b1 s1 =>
      asciiSpace b1 = false
      /\ match s1 with
         | EmptyString => True
         | String b2 s2 =>
             space2 b1 b2 = false
             /\ match s2 with
                | EmptyString => True
                | String b3 _ => space3 b1 b2 b3 = false
                end
         end
  end.
Proof.
  assert (forall t u : string,
            (String.length t < String.length u)%nat -> TrimLeftSpace t <> u)
    as Hshort.
  { intros t u Hlt E.
    pose proof (TrimLeftSpace_length (String.length t) t (le_n _)) as Hle.
    rewrite E in Hle. lia. }
  destruct s as [|b1 s1]; [easy|]. cbn [TrimLeftSpace].
  destruct (asciiSpace b1).
  { split; [|intros [? _]; discriminate].
    intros E. exfalso. revert E. apply Hshort. simpl. lia. }
  destruct s1 as [|b2 s2]; [easy|].
  destruct (space2 b1 b2).
  { split; [|intros (_ & ? & _); discriminate].
    intros E. exfalso. revert E. apply Hshort. simpl. lia. }
  destruct s2 as [|b3 s3]; [easy|].
  destruct (space3 b1 b2 b3); [|easy].
  split; [|intros (_ & _ & ?); discriminate].
  intros E. exfalso. revert E. apply Hshort. simpl. lia.
Qed.

Lemma TrimLeftSpace_trimmed (P : string -> Prop) :
  (forall u, TrimLeftSpace u = u -> P u) ->
  forall (n : nat) (s : string),
    (String.length s <= n)%nat -> P (TrimLeftSpace s).
Proof.
  intros HP n. induction n as [|n IH]; intros s Hn.
  - destruct s; [now apply HP | simpl in Hn; lia].
  - destruct s as [|b1 s1]; [now apply HP|]. simpl in Hn.
    cbn [TrimLeftSpace].
    destruct (asciiSpace b1) eqn:E1; [apply IH; lia|].
    destruct s1 as [|b2 s2];
      [apply HP, TrimLeftSpace_fixed; now rewrite E1|].
    destruct (space2 b1 b2) eqn:E2; [apply IH; simpl in *; lia|].
    destruct s2 as [|b3 s3];
      [apply HP, TrimLeftSpace_fixed; now rewrite E1, E2|].
    destruct (space3 b1 b2 b3) eqn:E3; [apply IH; simpl in *; lia|].
    apply HP, TrimLeftSpace_fixed. now rewrite E1, E2, E3.
Qed.

Lemma TrimLeftSpace_idem (s : string) :
  TrimLeftSpace (TrimLeftSpace s) = TrimLeftSpace s.
Proof.
  apply (TrimLeftSpace_trimmed (fun u => TrimLeftSpace u = u))
    with (n := String.length s); auto.
Qed.

(** A prefix of a string without white space in front has none in front,
    and neither has the prefix with a slash after it. *)
Lemma TrimLeftSpace_prefix (t w : string) :
  TrimLeftSpace (t +:+ w) = t +:+ w ->
  TrimLeftSpace t = t /\ TrimLeftSpace (t +:+ "/") = t +:+ "/".
Proof.
  rewrite !TrimLeftSpace_fixed.
  destruct t as [|b1 [|b2 [|b3 t3]]]; simpl.
  - intros _. split; [exact I | now split].
  - intros [H1 _]. split; [now split|].
    split; [exact H1|]. split; [apply slash_no_space2 | exact I].
  - intros (H1 & H2 & _). split; [now split|].
    split; [exact H1|]. split; [exact H2 | apply slash_no_space3].
  - intros (H1 & H2 & H3). now split.
Qed.

Lemma rev_inj (a b : string) : String.rev a = String.rev b -> a = b.
Proof. intros H. now rewrite <- (rev_involutive a), H, rev_involutive. Qed.

Lemma TrimLeftSpaceRev_suffix (n : nat) (r : string) :
  (String.length r <= n)%nat ->
  exists w, r = w +:+ TrimLeftSpaceRev r.
Proof.
  revert r. induction n as [|n IH]; intros r Hn.
  - destruct r; [now exists "" | simpl in Hn; lia].
  - destruct r as [|b1 r1]; [now exists ""|]. simpl in Hn.
    cbn [TrimLeftSpaceRev].
    destruct (asciiSpace b1).
    { destruct (IH r1 ltac:(lia)) as [w Hw]. exists (String b1 w).
      simpl. now f_equal. }
    destruct r1 as [|b2 r2]; [now exists ""|].
    destruct (space2 b2 b1).
    { destruct (IH r2 ltac:(simpl in *; lia)) as [w Hw].
      exists (String b1 (String b2 w)). simpl. now do 2 f_equal. }
    destruct r2 as [|b3 r3]; [now exists ""|].
    destruct (space3 b3 b2 b1); [|now exists ""].
    destruct (IH r3 ltac:(simpl in *; lia)) as [w Hw].
    exists (String b1 (String b2 (String b3 w))). simpl. now do 3 f_equal.
Qed.

(** Trimming on the right keeps a prefix. *)
Lemma TrimRightSpace_prefix (s : string) :
  exists w, s = TrimRightSpace s +:+ w.
Proof.
  unfold TrimRightSpace.
  destruct (TrimLeftSpaceRev_suffix (String.length (String.rev s))
              (String.rev s) (le_n _)) as [w Hw].
  exists (String.rev w). rewrite <- rev_append, <- Hw.
  now rewrite rev_involutive.
Qed.

Lemma normalize_fixed (s : string) : TrimSpace (normalize s) = normalize s.
Proof.
  assert (exists t, normalize s = t +:+ "/"
                    /\ TrimLeftSpace (t +:+ "/") = t +:+ "/") as (t & E & Hl).
  { unfold normalize.
    assert (TrimLeftSpace (TrimSpace s) = TrimSpace s
            /\ TrimLeftSpace (TrimSpace s +:+ "/") = TrimSpace s +:+ "/")
      as [H1 H2].
    { unfold TrimSpace.
      destruct (TrimRightSpace_prefix (TrimLeftSpace s)) as [w Hw].
      apply (TrimLeftSpace_prefix _ w). rewrite <- Hw.
      apply TrimLeftSpace_idem. }
    destruct (HasSuffix (TrimSpace s) "/") eqn:Es.
    - apply HasSuffix_spec in Es as [p Hp]. exists p. rewrite Hp in *.
      now split.
    - exists (TrimSpace s). now split. }
  unfold TrimSpace at 1. rewrite E, Hl. apply TrimRightSpace_slash.
Qed.

Lemma normalize_idem (s : string) : normalize (normalize s) = normalize s.
Proof.
  unfold normalize at 1. rewrite normalize_fixed.
  now rewrite normalize_slash.
Qed.

End TrimStable.
Section RegistryExtras.

Variable Document : Type.
Variable loadDocument : Adapter -> string -> result Document.

Lemma select_slash (s : string) (a : Adapter) (u : string) :
  selectAdapter (normalize s) = Some (a, u) -> ends_with u "/".
Proof.
  intros H. pose proof (normalize_slash s) as Hs.
  apply HasSuffix_spec in Hs.
  apply select_inv in H as [(nm & rest & E & _ & ->)|[_ ->]]; [|exact Hs].
  apply TrimSpace_slash. destruct Hs as [p Hp].
  assert (lastByte (normalize s) = Some "/"%char) as Hl
    by (rewrite Hp; now apply lastByte_append).
  rewrite E in Hl. destruct rest as [|c rest].
  - rewrite lastByte_append in Hl by discriminate. discriminate.
  - rewrite <- append_assoc, lastByte_append in Hl by discriminate.
    apply lastByte_snoc in Hl as [q Hq]. exists q. exact Hq.
Qed.

Lemma firstSelected_elem (l : list string) (sel : Adapter * string) :
  firstSelected l = Some sel ->
  exists s, s ∈ l /\ selectAdapter (normalize s) = Some sel.
Proof.
  induction l as [|s rest IH]; simpl; [discriminate|].
  destruct (selectAdapter (normalize s)) as [sel'|] eqn:E.
  - intros [= <-]. exists s. split; [left | exact E].
  - intros H. destruct (IH H) as (t & Ht & Hsel). exists t.
    split; [now right | exact Hsel].
Qed.

Lemma NewCollector_selected (h : heap) (urls : addr) :
  snd (NewCollector Document loadDocument h urls) = Err ErrCollectorNotFound
  \/ exists a u, ends_with u "/"
       /\ snd (NewCollector Document loadDocument h urls)
          = newAdapter Document loadDocument a u.
Proof.
  rewrite NewCollector_resolve.
  set (l := if defaulted (elems h urls) then [OfficialDownloadPageURL]
            else elems h urls).
  assert (snd (if defaulted (elems h urls)
               then (<[fresh (dom h) := fst (resolve [OfficialDownloadPageURL])]> h,
                     construct loadDocument
                       (snd (resolve [OfficialDownloadPageURL])))
               else (<[urls := fst (resolve (elems h urls))]> h,
                     construct loadDocument (snd (resolve (elems h urls)))))
          = construct loadDocument (firstSelected l)) as ->.
  { subst l. destruct (defaulted (elems h urls)); simpl;
      now rewrite ?resolve_selected. }
  destruct (firstSelected l) as [[a u]|] eqn:E; [|now left].
  right. exists a, u. split; [|reflexivity].
  apply firstSelected_elem in E as (s & _ & Hs). exact (select_slash _ _ _ Hs).
Qed.

Lemma resolve_idem (l : list string) : resolve (fst (resolve l)) = resolve l.
Proof.
  induction l as [|s rest IH]; [reflexivity|]. simpl.
  destruct (selectAdapter (normalize s)) as [sel|] eqn:E; simpl.
  - now rewrite normalize_idem, E.
  - destruct (resolve rest) as [rest' r] eqn:Er. simpl in *.
    now rewrite normalize_idem, E, IH.
Qed.

Lemma resolve_defaulted (l : list string) :
  defaulted l = false -> defaulted (fst (resolve l)) = false.
Proof.
  unfold defaulted. destruct l as [|s [|t rest]]; [discriminate| |].
  - intros _. simpl.
    assert (normalize s <> "") as Hne.
    { intros E. pose proof (normalize_slash s) as H. rewrite E in H.
      discriminate. }
    destruct (selectAdapter (normalize s)); simpl;
      now apply String.eqb_neq in Hne as ->.
  - intros _. simpl. destruct (selectAdapter (normalize s)); simpl;
      [reflexivity|].
    destruct (selectAdapter (normalize t)); simpl; [reflexivity|].
    now destruct (resolve rest).
Qed.

(** X10: the URL that [NewCollector] hands to an adapter always ends in a
    slash: the final slash of a normalized candidate survives the cut at
    the bar and the trimming.  So the adapters' test for an empty URL
    never fires there: a failure of [NewCollector] is CollectorNotFound or
    the failure of the fetch for the selected URL, and a collector it
    returns holds a URL that ends in a slash together with the document
    fetched from it. *)
Theorem adapter_url_slash :
  (forall s a u, selectAdapter (normalize s) = Some (a, u) -> ends_with u "/")
  /\ (forall h urls c,
        snd (NewCollector Document loadDocument h urls) = Ok c ->
        ends_with (url _ c) "/"
        /\ loadDocument (adapter _ c) (url _ c) = Ok (doc _ c))
  /\ (forall h urls e,
        snd (NewCollector Document loadDocument h urls) = Err e ->
        e = ErrCollectorNotFound
        \/ exists a u, ends_with u "/" /\ loadDocument a u = Err e).
Proof.
  split; [apply select_slash|].
  assert (forall a u, ends_with u "/" ->
            newAdapter Document loadDocument a u =
            match loadDocument a u with
            | Err e => Err e
            | Ok d => Ok (mkCollector Document a u d)
            end) as Hnew.
  { intros a u [p ->]. unfold newAdapter.
    destruct (String.eqb (p +:+ "/") "") eqn:E; [|reflexivity].
    apply String.eqb_eq in E. destruct p; discriminate. }
  split.
  - intros h urls c H.
    destruct (NewCollector_selected h urls) as [E|(a & u & Hu & E)];
      rewrite E in H; [discriminate|].
    rewrite (Hnew a u Hu) in H.
    destruct (loadDocument a u) as [d|e] eqn:Ed; [|discriminate].
    injection H as <-. simpl. now split.
  - intros h urls e H.
    destruct (NewCollector_selected h urls) as [E|(a & u & Hu & E)];
      rewrite E in H; [left; congruence|].
    rewrite (Hnew a u Hu) in H. right. exists a, u. split; [exact Hu|].
    destruct (loadDocument a u); [discriminate | congruence].
Qed.

(** X11: normalizing a candidate twice is normalizing it once, so a second
    call of [NewCollector] on the slice that a first call has rewritten
    finds the slice as it expects it: it returns the same result and
    leaves the heap as it is. *)
Theorem second_call_stable (h : heap) (urls : addr) :
  (forall s, normalize (normalize s) = normalize s)
  /\ (defaulted (elems h urls) = false ->
      NewCollector Document loadDocument
        (fst (NewCollector Document loadDocument h urls)) urls
      = NewCollector Document loadDocument h urls).
Proof.
  split; [apply normalize_idem|]. intros Hd.
  rewrite (NewCollector_resolve _ loadDocument h urls), Hd. simpl.
  rewrite NewCollector_resolve.
  assert (elems (<[urls := (resolve (elems h urls)).1]> h) urls
          = (resolve (elems h urls)).1) as ->
    by (unfold elems at 1; now rewrite lookup_insert_eq).
  rewrite (resolve_defaulted _ Hd), resolve_idem, insert_insert_eq.
  reflexivity.
Qed.

End RegistryExtras.

(** ** The commands and the mirror listing *)

Section AssetFacts.

Variable GOOS GOARCH : string.

Lemma findAssetFrom_spec (items : list Github.Asset) (i : Z) :
  (Cli.findAssetFrom GOOS GOARCH items i = -1
   /\ forall a, a ∈ items ->
        HasSuffix (Github.BrowserDownloadURL a) (Cli.assetSuffix GOOS GOARCH)
        = false)
  \/ exists (k : nat) a,
       Cli.findAssetFrom GOOS GOARCH items i = i + Z.of_nat k
       /\ items !! k = Some a
       /\ HasSuffix (Github.BrowserDownloadURL a) (Cli.assetSuffix GOOS GOARCH)
          = true
       /\ forall j b, (j < k)%nat -> items !! j = Some b ->
            HasSuffix (Github.BrowserDownloadURL b)
              (Cli.assetSuffix GOOS GOARCH) = false.
Proof.
  revert i. induction items as [|x items IH]; intros i; simpl.
  - left. split; [reflexivity | intros a Ha; inversion Ha].
  - destruct (HasSuffix (Github.BrowserDownloadURL x) _) eqn:Ex.
    + right. exists 0%nat, x. split; [lia|]. split; [reflexivity|].
      split; [exact Ex | intros j b Hj; lia].
    + destruct (IH (i + 1)) as [[E Hnone]|(k & a & E & Hk & Ha & Hbefore)].
      * left. split; [exact E|]. intros a Ha.
        apply elem_of_cons in Ha as [->|Ha]; auto.
      * right. exists (S k), a. split; [lia|]. split; [exact Hk|].
        split; [exact Ha|]. intros j b Hj Hb. destruct j as [|j].
        -- simpl in Hb. now injection Hb as <-.
        -- apply (Hbefore j); [lia | exact Hb].
Qed.

(** X12: [findAsset] returns -1 exactly when no asset's download URL ends
    in [GOOS-GOARCH.tar.gz] ([GOOS-GOARCH.zip] on windows); otherwise it
    returns the index of the first such asset, which is within the
    slice, so the index that [Apply] uses after its test for a negative
    result is never out of range. *)
Theorem find_asset_index (items : list Github.Asset) :
  (Cli.findAsset GOOS GOARCH items = -1
   /\ forall a, a ∈ items ->
        ~ ends_with (Github.BrowserDownloadURL a)
            (Cli.assetSuffix GOOS GOARCH))
  \/ exists (k : nat) a,
       Cli.findAsset GOOS GOARCH items = Z.of_nat k
       /\ 0 <= Cli.findAsset GOOS GOARCH items < Z.of_nat (length items)
       /\ items !! k = Some a
       /\ ends_with (Github.BrowserDownloadURL a) (Cli.assetSuffix GOOS GOARCH)
       /\ forall j b, (j < k)%nat -> items !! j = Some b ->
            ~ ends_with (Github.BrowserDownloadURL b)
                (Cli.assetSuffix GOOS GOARCH).
Proof.
  unfold Cli.findAsset.
  destruct (findAssetFrom_spec items 0)
    as [[E Hnone]|(k & a & E & Hk & Ha & Hbefore)].
  - left. split; [exact E|]. intros a Ha. apply HasSuffix_false. auto.
  - right. exists k, a. rewrite E. split; [lia|].
    split; [apply lookup_lt_Some in Hk; lia|]. split; [exact Hk|].
    split; [now apply HasSuffix_spec|].
    intros j b Hj Hb. apply HasSuffix_false. now apply (Hbefore j).
Qed.

End AssetFacts.

Section LocalFacts.

Lemma localItems_elem (dirs : list Cli.DirEntry) (v : Version) :
  v ∈ Cli.localItems dirs <->
  exists d, d ∈ dirs /\ Cli.IsDir d = true
            /\ NewWith (Cli.EntryName d) [] = Ok v.
Proof.
  induction dirs as [|x dirs IH]; simpl.
  - split; [intros H; inversion H | intros (d & H & _); inversion H].
  - destruct (Cli.IsDir x) eqn:Ex; simpl.
    + destruct (NewWith (Cli.EntryName x) []) as [w|e] eqn:Ew.
      * rewrite elem_of_cons, IH. split.
        -- intros [->|(d & Hd & Hdir & Hn)].
           ++ exists x. split; [left | auto].
           ++ exists d. split; [now right | auto].
        -- intros (d & Hd & Hdir & Hn).
           apply elem_of_cons in Hd as [->|Hd]; [left; congruence|].
           right. eauto.
      * rewrite IH. split.
        -- intros (d & Hd & Hdir & Hn). exists d. split; [now right | auto].
        -- intros (d & Hd & Hdir & Hn).
           apply elem_of_cons in Hd as [->|Hd]; [congruence | eauto].
    + rewrite IH. split.
      * intros (d & Hd & Hdir & Hn). exists d. split; [now right | auto].
      * intros (d & Hd & Hdir & Hn).
        apply elem_of_cons in Hd as [->|Hd]; [congruence | eauto].
Qed.

Lemma localItems_length (dirs : list Cli.DirEntry) :
  (length (Cli.localItems dirs) <= length dirs)%nat.
Proof.
  induction dirs as [|x dirs IH]; simpl; [lia|].
  destruct (negb (Cli.IsDir x)); [lia|].
  destruct (NewWith (Cli.EntryName x) []); simpl; lia.
Qed.

(** X13: [listLocalVersions] fails only when the directory cannot be read.
    Otherwise it returns one version for every entry that is a directory
    and whose name [Semantify] accepts, and nothing else: files and
    directories with other names are passed over without an error.  A
    local version carries no package. *)
Theorem local_versions (dirs : list Cli.DirEntry) :
  exists vs,
    Cli.listLocalVersions (Some dirs) = Some vs
    /\ (length vs <= length dirs)%nat
    /\ (forall n, n ∈ name <$> vs <->
          exists d, d ∈ dirs /\ Cli.IsDir d = true /\ Cli.EntryName d = n
                    /\ exists s, Semantify n = Ok s)
    /\ forall v, v ∈ vs ->
         pkgs v = [] /\ Semantify (name v) = Ok (sv v).
Proof.
  exists (sortCollection (Cli.localItems dirs)). split; [reflexivity|].
  assert (sortCollection (Cli.localItems dirs) ≡ₚ Cli.localItems dirs) as Hp
    by apply merge_sort_Permutation.
  assert (forall n v, NewWith n [] = Ok v <->
            exists s, Semantify n = Ok s /\ v = mkVersion n s []) as Hnew.
  { intros n v. unfold NewWith. simpl. destruct (Semantify n) as [s|e].
    - split; [intros [= <-]; eauto | intros (s' & [= <-] & ->); reflexivity].
    - split; [discriminate | intros (s' & H & _); discriminate]. }
  split; [rewrite Hp; apply localItems_length|]. split.
  - intros n. rewrite Hp, list_elem_of_fmap. split.
    + intros (v & -> & Hv). apply localItems_elem in Hv as (d & Hd & Hdir & Hn).
      apply Hnew in Hn as (s & Hs & ->). exists d. simpl. eauto 6.
    + intros (d & Hd & Hdir & <- & s & Hs).
      exists (mkVersion (Cli.EntryName d) s []). split; [reflexivity|].
      apply localItems_elem. exists d. split; [exact Hd|].
      split; [exact Hdir|]. apply Hnew. eauto.
  - intros v Hv. rewrite Hp in Hv.
    apply localItems_elem in Hv as (d & _ & _ & Hn).
    apply Hnew in Hn as (s & Hs & ->). now split.
Qed.

End LocalFacts.
Section CommandFacts.

Variable Constraints : Type.
Variable NewConstraint : string -> option Constraints.
Variable Check : Constraints -> Semver.Version -> bool.

Lemma strictLoop_Some (versions : list Version) (vname : string)
  (v : Version) :
  Cli.strictLoop versions vname = Some v -> v ∈ versions /\ name v = vname.
Proof.
  induction versions as [|x versions IH]; simpl; [discriminate|].
  unfold Name. destruct (String.eqb (name x) vname) eqn:Ex; simpl.
  - intros [= <-]. split; [left | now apply String.eqb_eq].
  - intros H. destruct (IH H). split; [now right | assumption].
Qed.

Lemma strictLoop_None (versions : list Version) (vname : string) :
  Cli.strictLoop versions vname = None <->
  forall v, v ∈ versions -> name v <> vname.
Proof.
  induction versions as [|x versions IH]; simpl.
  - split; [intros _ v Hv; inversion Hv | reflexivity].
  - unfold Name. destruct (String.eqb (name x) vname) eqn:Ex; simpl.
    + apply String.eqb_eq in Ex. split; [discriminate|].
      intros H. exfalso. apply (H x); [left | exact Ex].
    + apply String.eqb_neq in Ex. rewrite IH. split.
      * intros H v Hv. apply elem_of_cons in Hv as [->|Hv]; auto.
      * intros H v Hv. apply H. now right.
Qed.

Lemma fuzzyLoop_scan (versions : list Version) (cs : Constraints) (n : nat) :
  Cli.fuzzyLoop _ Check versions cs n =
  scanDown (fun v => Check cs (sv v)) versions n.
Proof.
  induction n as [|j IH]; simpl; [reflexivity|]. rewrite IH.
  unfold MatchConstraint.
  destruct (versions !! j) as [v|]; [|reflexivity].
  now destruct (Check cs (sv v)).
Qed.

(** X14: [use] never switches to a version that is not installed.  A
    version whose name is the expression wins, whether or not the
    expression parses as a constraint; otherwise the expression must
    parse, and the last local version that satisfies the constraint is
    taken; when there is none, or the expression does not parse, the
    command exits without switching. *)
Theorem use_target (versions : list Version) (vname : string) :
  (forall n, Cli.useTarget _ NewConstraint Check versions vname = Some n ->
     exists v, v ∈ versions /\ name v = n
       /\ (n = vname
           \/ exists cs, NewConstraint vname = Some cs
                         /\ Check cs (sv v) = true))
  /\ ((exists v, v ∈ versions /\ name v = vname) ->
      Cli.useTarget _ NewConstraint Check versions vname = Some vname)
  /\ ((forall w, w ∈ versions -> name w <> vname) ->
      (NewConstraint vname = None ->
       Cli.useTarget _ NewConstraint Check versions vname = None)
      /\ forall cs, NewConstraint vname = Some cs ->
           (forall below v above,
              versions = below ++ v :: above ->
              Check cs (sv v) = true ->
              (forall w, w ∈ above -> Check cs (sv w) = false) ->
              Cli.useTarget _ NewConstraint Check versions vname
              = Some (name v))
           /\ ((forall w, w ∈ versions -> Check cs (sv w) = false) ->
               Cli.useTarget _ NewConstraint Check versions vname = None)).
Proof.
  unfold Cli.useTarget. split; [|split].
  - intros n. destruct (Cli.strictLoop versions vname) as [v|] eqn:Es.
    + intros [= <-]. apply strictLoop_Some in Es as [Hv Hn].
      exists v. unfold Name. auto.
    + destruct (NewConstraint vname) as [cs|]; [|discriminate].
      rewrite fuzzyLoop_scan.
      destruct (scanDown _ _ _) as [v|] eqn:E; [|discriminate].
      intros [= <-]. apply scanDown_elem in E as [Hv Hc].
      exists v. unfold Name. split; [exact Hv|]. split; [reflexivity|].
      right. exists cs. now split.
  - intros (v & Hv & Hn).
    destruct (Cli.strictLoop versions vname) as [w|] eqn:Es.
    + apply strictLoop_Some in Es as [_ Hw]. unfold Name. now rewrite Hw.
    + exfalso. rewrite strictLoop_None in Es. now apply (Es v).
  - intros Hnone. apply strictLoop_None in Hnone. rewrite Hnone.
    split; [now intros ->|]. intros cs ->. rewrite fuzzyLoop_scan. split.
    + intros below v above -> Hc Habove.
      now rewrite scanDown_last.
    + intros Hno. now rewrite (proj2 (scanDown_full_None _ _) Hno).
Qed.

Lemma matchLoop_Some (cs : Constraints) (vs : list Version) :
  Cli.matchLoop _ Check (Some cs) vs =
  Ret (List.filter (fun v => Check cs (sv v)) vs).
Proof.
  induction vs as [|v vs IH]; simpl; [reflexivity|]. rewrite IH.
  unfold MatchConstraint. now destruct (Check cs (sv v)).
Qed.

(** X15: [listRemote] panics exactly when it is asked for "latest" and the
    collector lists no version at all.  On a listing with versions,
    "latest" shows the last one alone, whatever its packages; a channel
    name shows the channel's list and no argument shows every version,
    none of them parsed as a constraint; any other argument must parse as
    a constraint, or the command exits before a collector is looked for,
    and shows the versions that satisfy the constraint in the order of
    the listing. *)
Theorem list_remote_outcome (newCollector : option Cli.Remote)
  (vname : string) :
  (Cli.listRemote _ NewConstraint Check newCollector vname = Panic <->
   vname = Latest
   /\ exists c, newCollector = Some c /\ Cli.AllVersions c = Some [])
  /\ (forall c vs v,
        vname = Latest -> newCollector = Some c ->
        Cli.AllVersions c = Some (vs ++ [v]) ->
        Cli.listRemote _ NewConstraint Check newCollector vname
        = Ret (Some [v]))
  /\ (forall c, newCollector = Some c ->
        (vname = "stable" ->
         Cli.listRemote _ NewConstraint Check newCollector vname
         = Ret (Cli.StableVersions c))
        /\ (vname = "unstable" ->
            Cli.listRemote _ NewConstraint Check newCollector vname
            = Ret (Cli.UnstableVersions c))
        /\ (vname = "archived" ->
            Cli.listRemote _ NewConstraint Check newCollector vname
            = Ret (Cli.ArchivedVersions c))
        /\ (vname = "" ->
            Cli.listRemote _ NewConstraint Check newCollector vname
            = Ret (Cli.AllVersions c)))
  /\ (vname <> "" -> vname <> "stable" -> vname <> "unstable" ->
      vname <> "archived" -> vname <> Latest ->
      (NewConstraint vname = None ->
       Cli.listRemote _ NewConstraint Check newCollector vname = Ret None)
      /\ forall cs c vs,
           NewConstraint vname = Some cs -> newCollector = Some c ->
           Cli.AllVersions c = Some vs ->
           Cli.listRemote _ NewConstraint Check newCollector vname
           = Ret (Some (List.filter (fun v => Check cs (sv v)) vs))).
Proof.
  unfold Cli.listRemote, Cli.stableChannel, Cli.unstableChannel,
    Cli.archivedChannel.
  split; [|split; [|split]].
  - destruct (String.eqb vname "") eqn:E0;
      [apply String.eqb_eq in E0; subst vname; simpl;
       destruct newCollector as [c|];
       [destruct (Cli.AllVersions c)|];
       (split; [discriminate | intros [? _]; discriminate])|].
    destruct (String.eqb vname "stable") eqn:E1;
      [apply String.eqb_eq in E1; subst vname; simpl;
       destruct newCollector as [c|];
       (split; [discriminate | intros [? _]; discriminate])|].
    destruct (String.eqb vname "unstable") eqn:E2;
      [apply String.eqb_eq in E2; subst vname; simpl;
       destruct newCollector as [c|];
       (split; [discriminate | intros [? _]; discriminate])|].
    destruct (String.eqb vname "archived") eqn:E3;
      [apply String.eqb_eq in E3; subst vname; simpl;
       destruct newCollector as [c|];
       (split; [discriminate | intros [? _]; discriminate])|].
    destruct (String.eqb vname Latest) eqn:E4; simpl.
    + apply String.eqb_eq in E4. subst vname.
      destruct newCollector as [c|];
        [|split; [discriminate | intros (_ & c & ? & _); discriminate]].
      destruct (Cli.AllVersions c) as [vs|] eqn:Ea;
        [|split; [discriminate | intros (_ & c' & [= <-] & ?); congruence]].
      destruct vs as [|x vs].
      * simpl. split; [intros _; split; [reflexivity | eauto] | reflexivity].
      * destruct ((x :: vs) !! (length (x :: vs) - 1)%nat) as [v|] eqn:El.
        -- split; [discriminate|].
           intros (_ & c' & [= <-] & ?). congruence.
        -- apply lookup_ge_None in El. simpl in El. lia.
    + apply String.eqb_neq in E4.
      destruct (NewConstraint vname) as [cs|];
        [|split; [discriminate | intros [? _]; contradiction]].
      destruct newCollector as [c|];
        [|split; [discriminate | intros [? _]; contradiction]].
      destruct (Cli.AllVersions c) as [vs|];
        [|split; [discriminate | intros [? _]; contradiction]].
      rewrite matchLoop_Some.
      split; [discriminate | intros [? _]; contradiction].
  - intros c vs v -> -> Ha. simpl. rewrite Ha.
    rewrite length_app. simpl.
    replace (length vs + 1 - 1)%nat with (length vs) by lia.
    rewrite lookup_app_r, Nat.sub_diag by lia. reflexivity.
  - intros c ->. repeat split; intros ->; simpl; try reflexivity.
    now destruct (Cli.AllVersions c).
  - intros H0 H1 H2 H3 H4.
    apply String.eqb_neq in H0, H1, H2, H3, H4.
    rewrite H0, H1, H2, H3, H4. simpl. split; [now intros ->|].
    intros cs c vs -> -> ->. now rewrite matchLoop_Some.
Qed.

End CommandFacts.
Section MirrorFacts.

Variable osOrder : GoFileItem -> list (string * string).
Variable archOrder : GoFileItem -> list (string * string).
Variable rangeMap : gmap string (list Package) -> list (string * list Package).

Hypothesis rangeMap_entries : forall m, rangeMap m ≡ₚ map_to_list m.

Lemma findGoFileItems_elem (url : string) (rows : list Fancyindex.Row)
  (pitem : GoFileItem) :
  pitem ∈ Fancyindex.findGoFileItems url rows <->
  exists tr, tr ∈ rows
    /\ HasPrefix (Fancyindex.Href tr) "go" = true
    /\ HasSuffix (Fancyindex.Href tr) "/" = false
    /\ pitem = mkItem (Fancyindex.Text tr) (url +:+ Fancyindex.Href tr)
                 (TrimSpace (Fancyindex.SizeText tr)).
Proof.
  induction rows as [|x rows IH]; simpl.
  - split; [intros H; inversion H | intros (tr & H & _); inversion H].
  - destruct (HasPrefix (Fancyindex.Href x) "go") eqn:Ep,
             (HasSuffix (Fancyindex.Href x) "/") eqn:Es; simpl;
      rewrite ?elem_of_cons, IH; split;
      try (intros (tr & Htr & H1 & H2 & H3); exists tr;
           split; [now right | auto]; fail);
      try (intros (tr & Htr & H1 & H2 & H3);
           apply elem_of_cons in Htr as [->|Htr]; [congruence | eauto]; fail).
    + intros [->|(tr & Htr & H)].
      * exists x. split; [left | auto].
      * exists tr. split; [now right | exact H].
    + intros (tr & Htr & H1 & H2 & H3).
      apply elem_of_cons in Htr as [->|Htr]; [now left | right; eauto].
Qed.

(** The early return of [AllVersions] on an empty list of records is what
    the conversion returns on it. *)
Lemma AllVersions_convert (url : string) (rows : list Fancyindex.Row) :
  Fancyindex.AllVersions osOrder archOrder rangeMap url rows =
  Convert2Versions osOrder archOrder rangeMap
    (Fancyindex.findGoFileItems url rows).
Proof.
  unfold Fancyindex.AllVersions.
  destruct (Fancyindex.findGoFileItems url rows) as [|x l]; [|reflexivity].
  simpl. unfold Convert2Versions. simpl.
  assert (rangeMap ∅ = []) as ->.
  { apply Permutation_nil_r. rewrite rangeMap_entries.
    now rewrite map_to_list_empty. }
  reflexivity.
Qed.

Lemma pairs_row (ver : string) (c : GoFileItem) (p : Package) :
  pairs ver c p = true ->
  ends_with (ItemFileName c) ".sha256"
  /\ starts_with (ItemFileName c) (FileName p).
Proof.
  unfold pairs, isSHA256File. rewrite !andb_true_iff.
  intros [[Hs _] Hp]. split; [now apply HasSuffix_spec|].
  now apply HasPrefix_spec.
Qed.

Lemma mirror_package (url : string) (rows : list Fancyindex.Row)
  (vers : list Version) (v : Version) (p : Package) :
  Fancyindex.AllVersions osOrder archOrder rangeMap url rows = Ret (Ok vers) ->
  v ∈ vers -> p ∈ pkgs v ->
  exists tr, tr ∈ rows
    /\ starts_with (Fancyindex.Href tr) "go"
    /\ ~ ends_with (Fancyindex.Href tr) "/"
    /\ FileName p = Fancyindex.Text tr
    /\ URL p = url +:+ Fancyindex.Href tr
    /\ Size p = TrimSpace (Fancyindex.SizeText tr)
    /\ Checksum p = ""
    /\ ((ChecksumURL p = "" /\ Algorithm p = "")
        \/ exists ctr, ctr ∈ rows
             /\ starts_with (Fancyindex.Href ctr) "go"
             /\ ends_with (Fancyindex.Text ctr) ".sha256"
             /\ starts_with (Fancyindex.Text ctr) (Fancyindex.Text tr)
             /\ ChecksumURL p = url +:+ Fancyindex.Href ctr
             /\ Algorithm p = "SHA256").
Proof.
  rewrite AllVersions_convert. intros H Hv Hp.
  destruct (converted_package _ _ _ rangeMap_entries _ _ _ _ H Hv Hp)
    as (before & pitem & after & Hitems & _ & _ & Hf & Hu & Hs & _ & _ & _ & _
        & Hc & Hpair).
  assert (pitem ∈ Fancyindex.findGoFileItems url rows) as Hin
    by (rewrite Hitems; apply elem_of_app; right; left).
  apply findGoFileItems_elem in Hin as (tr & Htr & Hgo & Hdir & ->).
  exists tr. simpl in *. split; [exact Htr|].
  split; [now apply HasPrefix_spec|]. split; [now apply HasSuffix_false|].
  repeat (split; [assumption|]).
  destruct Hpair as [(H1 & H2 & _)|(mid & c & rest & -> & Hc' & _ & H1 & H2)];
    [left; now split|].
  right.
  assert (c ∈ Fancyindex.findGoFileItems url rows) as Hcin.
  { rewrite Hitems. apply elem_of_app. right. right.
    apply elem_of_app. right. left. }
  apply findGoFileItems_elem in Hcin as (ctr & Hctr & Hcgo & _ & ->).
  apply pairs_row in Hc' as [He Hs']. simpl in *. rewrite Hf in Hs'.
  exists ctr. split; [exact Hctr|]. split; [now apply HasPrefix_spec|].
  auto.
Qed.

(** X16: the versions that the fancyindex adapter returns are the
    conversion of the rows it keeps: a row whose [href] does not start
    with "go" or ends in a slash leaves no trace.  Every package carries
    the text of its row's anchor as file name, the collector's URL
    followed by the row's [href] as URL and the trimmed size text; its
    checksum URL, when it has one, is the collector's URL followed by the
    [href] of a kept row whose text ends in [.sha256] and extends the
    package's file name. *)
Theorem mirror_packages (url : string) (rows : list Fancyindex.Row) :
  Fancyindex.AllVersions osOrder archOrder rangeMap url rows =
  Convert2Versions osOrder archOrder rangeMap
    (Fancyindex.findGoFileItems url rows)
  /\ forall vers v p,
       Fancyindex.AllVersions osOrder archOrder rangeMap url rows
       = Ret (Ok vers) ->
       v ∈ vers -> p ∈ pkgs v ->
       exists tr, tr ∈ rows
         /\ starts_with (Fancyindex.Href tr) "go"
         /\ ~ ends_with (Fancyindex.Href tr) "/"
         /\ FileName p = Fancyindex.Text tr
         /\ URL p = url +:+ Fancyindex.Href tr
         /\ Size p = TrimSpace (Fancyindex.SizeText tr)
         /\ Checksum p = ""
         /\ ((ChecksumURL p = "" /\ Algorithm p = "")
             \/ exists ctr, ctr ∈ rows
                  /\ starts_with (Fancyindex.Href ctr) "go"
                  /\ ends_with (Fancyindex.Text ctr) ".sha256"
                  /\ starts_with (Fancyindex.Text ctr) (Fancyindex.Text tr)
                  /\ ChecksumURL p = url +:+ Fancyindex.Href ctr
                  /\ Algorithm p = "SHA256").
Proof.
  split; [apply AllVersions_convert | apply mirror_package].
Qed.

Section VerifyFacts.

Variable E : Type.
Variable checksum_SHA1 : string.
Variable DownloadAsBytes : string -> E + string.
Variable VerifyFile : string -> string -> string -> option E.

(** X17: the checksum of a package from a mirror listing is verified as
    follows.  A package without a checksum file cannot be verified: no
    download is made and the result is UnsupportedChecksumAlgorithm.  For
    a package with a checksum file, the file is downloaded from the
    checksum URL; a failed download is the result; otherwise the whole
    downloaded text becomes the package's checksum value and the result is
    the verdict of [VerifyFile] for SHA256 on it. *)
Theorem verify_mirror_package (url : string) (rows : list Fancyindex.Row)
  (vers : list Version) (v : Version) (p : Package) (filename : string) :
  checksum_SHA1 <> "" ->
  Fancyindex.AllVersions osOrder archOrder rangeMap url rows = Ret (Ok vers) ->
  v ∈ vers -> p ∈ pkgs v ->
  (ChecksumURL p = ""
   /\ Verify.VerifyChecksum E checksum_SHA1 DownloadAsBytes VerifyFile p
        filename
      = (p, Some Verify.ErrUnsupportedChecksumAlgorithm))
  \/ (exists ctr, ctr ∈ rows
        /\ ChecksumURL p = url +:+ Fancyindex.Href ctr
        /\ Verify.VerifyChecksum E checksum_SHA1 DownloadAsBytes VerifyFile p
             filename
           = match DownloadAsBytes (url +:+ Fancyindex.Href ctr) with
             | inl e => (p, Some (Verify.External e))
             | inr data =>
                 ({| FileName := FileName p;
                     URL := URL p;
                     Kind := Kind p;
                     OS := OS p;
                     Arch := Arch p;
                     Size := Size p;
                     Checksum := data;
                     ChecksumURL := ChecksumURL p;
                     Algorithm := Algorithm p |},
                  option_map Verify.External
                    (VerifyFile "SHA256" data filename))
             end).
Proof.
  intros Hsha1 H Hv Hp.
  destruct (mirror_package _ _ _ _ _ H Hv Hp)
    as (tr & _ & _ & _ & _ & _ & _ & Hc & Hpair).
  unfold Verify.VerifyChecksum. rewrite Hc. simpl.
  destruct Hpair as [[Hu Ha]|(ctr & Hctr & Hgo & _ & _ & Hu & Ha)].
  - left. split; [exact Hu|]. rewrite Hu. simpl. rewrite Ha. simpl.
    destruct checksum_SHA1; [congruence | reflexivity].
  - right. exists ctr. split; [exact Hctr|]. split; [exact Hu|].
    rewrite Hu.
    assert (String.eqb (url +:+ Fancyindex.Href ctr) "" = false) as ->.
    { apply String.eqb_neq. destruct Hgo as [q ->]. intros E0.
      apply (f_equal String.length) in E0. rewrite length_append in E0.
      simpl in E0. lia. }
    simpl. destruct (DownloadAsBytes _) as [e|data]; [reflexivity|].
    simpl. now rewrite Ha.
Qed.

End VerifyFacts.

End MirrorFacts.

(** ** The architecture token, whatever the order of the table *)

Section ArchFacts.

(** Two ways to cut a string at a byte [c], the first one at its first
    occurrence, agree when the second is at the first occurrence too or
    [c] does not occur again. *)
Lemma first_cut (c : ascii) (a1 b1 a2 b2 : string) :
  occurs c a1 = false ->
  occurs c a2 = false \/ occurs c b1 = false ->
  a1 +:+ String c b1 = a2 +:+ String c b2 ->
  a1 = a2 /\ b1 = b2.
Proof.
  revert a2. induction a1 as [|d a1 IH]; intros a2 H1 H2 E.
  - destruct a2 as [|d2 a2]; simpl in E.
    + injection E as ->. now split.
    + injection E as <- ->. exfalso. destruct H2 as [H2|H2].
      * simpl in H2. now rewrite Ascii.eqb_refl in H2.
      * rewrite occurs_append in H2. simpl in H2.
        rewrite Ascii.eqb_refl, orb_true_r in H2. discriminate.
  - simpl in H1. apply orb_false_iff in H1 as [Hd H1].
    destruct a2 as [|d2 a2]; simpl in E.
    + injection E as -> _. now rewrite Ascii.eqb_refl in Hd.
    + injection E as <- E. destruct (IH a2 H1) as [-> ->]; auto.
      destruct H2 as [H2|H2]; [|now right]. left. simpl in H2.
      now apply orb_false_iff in H2 as [_ H2].
Qed.

(** In a name with a single hyphen, the only key that occurs is the one
    between the hyphen and the next dot. *)
Lemma archKey_occurs (p x q x' : string) :
  occurs "-" p = false -> occurs "-" q = false ->
  occurs "-" x = false -> occurs "." x = false -> occurs "." x' = false ->
  Contains (p +:+ archKey x +:+ q) (archKey x') = true -> x' = x.
Proof.
  intros Hp Hq Hx Hxd Hx'd H. apply Contains_spec in H as (a & b & E).
  unfold archKey in E. rewrite !append_assoc in E. simpl in E.
  apply first_cut in E as [_ E]; [|exact Hp|].
  - apply first_cut in E as [E _]; auto.
  - right. rewrite !occurs_append. simpl. now rewrite Hx, Hq.
Qed.

Lemma archKey_inj (x y : string) : archKey x = archKey y -> x = y.
Proof.
  unfold archKey. simpl. intros [= E]. revert y E.
  induction x as [|c x IH]; intros [|d y] E; simpl in E.
  - reflexivity.
  - injection E as _ E. destruct y; discriminate.
  - injection E as _ E. destruct x; discriminate.
  - injection E as -> E. f_equal. now apply IH.
Qed.

(** Every key of the table is a token without hyphen and dot between a
    hyphen and a dot, and no key occurs twice. *)
Lemma archMapping_keys (k l : string) :
  (k, l) ∈ archMapping ->
  exists x, k = archKey x /\ occurs "-" x = false /\ occurs "." x = false.
Proof.
  unfold archMapping. intros Hin.
  repeat (apply elem_of_cons in Hin as [Hin|Hin];
          [injection Hin as -> _;
           match goal with
           | |- exists x, String "-" ?t = _ /\ _ =>
               let x' := eval cbv in
                 (String.substring 0 (String.length t - 1) t) in
               exists x'; repeat split
           end|]).
  inversion Hin.
Qed.

Lemma archMapping_functional (k l1 l2 : string) :
  (k, l1) ∈ archMapping -> (k, l2) ∈ archMapping -> l1 = l2.
Proof.
  assert (NoDup archMapping.*1) as Hnd
    by (apply (bool_decide_unpack _); vm_compute; exact I).
  intros H1 H2.
  apply list_elem_of_lookup in H1 as [i Hi], H2 as [j Hj].
  assert (i = j) as ->.
  { apply (NoDup_lookup _ _ _ k Hnd); rewrite list_lookup_fmap;
      [now rewrite Hi | now rewrite Hj]. }
  congruence.
Qed.

(** X18: a file name with a single hyphen, followed by a token of the
    architecture table and a dot, decodes to the label of that token in
    whatever order the range over the table visits its entries. *)
Theorem arch_label_order_free (x label p q url size : string)
  (order : list (string * string)) :
  (archKey x, label) ∈ archMapping ->
  order ≡ₚ archMapping ->
  occurs "-" p = false -> occurs "-" q = false ->
  getArch order (mkItem (p +:+ archKey x +:+ q) url size) = label.
Proof.
  intros Hin Hperm Hp Hq. unfold getArch. cbn [ItemFileName].
  destruct (archMapping_keys _ _ Hin) as (x0 & E0 & Hx & Hxd).
  apply archKey_inj in E0. subst x0.
  apply (lookupToken_unique archMapping); [exact Hperm| |].
  - apply forallb_forall. intros [k' l'] Hkv. cbn [fst snd].
    destruct (Contains (p +:+ archKey x +:+ q) k') eqn:Hc; [|reflexivity].
    cbn [implb]. apply String.eqb_eq. apply list_elem_of_In in Hkv.
    destruct (archMapping_keys _ _ Hkv) as (x' & -> & _ & Hx'd).
    apply archKey_occurs in Hc; try assumption. subst x'.
    exact (archMapping_functional _ _ _ Hkv Hin).
  - apply existsb_exists. exists (archKey x, label).
    split; [now apply list_elem_of_In|].
    apply Contains_spec. now exists p, q.
Qed.

End ArchFacts.

(** ** The decoded labels, whatever the order of the tables *)

Section LabelFacts.

Lemma lookupToken_cases (order : list (string * string)) (fileName : string) :
  (lookupToken order fileName = ""
   /\ forall k v, (k, v) ∈ order -> Contains fileName k = false)
  \/ exists k, (k, lookupToken order fileName) ∈ order
               /\ Contains fileName k = true.
Proof.
  induction order as [|[k v] rest IH]; simpl.
  - left. split; [reflexivity | intros k v H; inversion H].
  - destruct (Contains fileName k) eqn:E.
    + right. exists k. split; [left | exact E].
    + destruct IH as [[E0 Hnone]|(k' & Hin & Hc)].
      * left. split; [exact E0|]. intros k' v' Hin.
        apply elem_of_cons in Hin as [[= -> ->]|Hin]; eauto.
      * right. exists k'. split; [now right | exact Hc].
Qed.

Lemma lookupToken_label (table order : list (string * string))
  (fileName : string) :
  order ≡ₚ table ->
  (forall k v, (k, v) ∈ table -> v <> "") ->
  (lookupToken order fileName = "" <->
   forall k v, (k, v) ∈ table -> ~ substring_of k fileName)
  /\ (lookupToken order fileName <> "" ->
      exists k, (k, lookupToken order fileName) ∈ table
                /\ substring_of k fileName).
Proof.
  intros Hperm Hlabels.
  assert (forall kv, kv ∈ order <-> kv ∈ table) as Hsame
    by (intros kv; now rewrite Hperm).
  destruct (lookupToken_cases order fileName) as [[E Hnone]|(k & Hin & Hc)].
  - split; [|congruence]. split; [|intros _; exact E].
    intros _ k v Hin Hsub. apply Contains_spec in Hsub.
    apply Hsame in Hin. rewrite (Hnone k v Hin) in Hsub. discriminate.
  - apply Hsame in Hin. apply Contains_spec in Hc. split.
    + split.
      * intros E. rewrite E in Hin. now apply Hlabels in Hin.
      * intros Hnone. exfalso. exact (Hnone _ _ Hin Hc).
    + intros _. exists k. now split.
Qed.

Lemma labels_not_empty (table : list (string * string)) :
  forallb (fun kv => negb (String.eqb (snd kv) "")) table = true ->
  forall k v, (k, v) ∈ table -> v <> "".
Proof.
  intros H k v Hin. rewrite forallb_forall in H.
  apply list_elem_of_In in Hin. specialize (H _ Hin). simpl in H.
  apply negb_true_iff in H. now apply String.eqb_neq.
Qed.

(** X19: in whatever order the two tables are visited, the OS (the
    architecture) decoded from a file name is empty exactly when no key of
    the table occurs in the name, and otherwise it is the label of a key
    that occurs in the name: the order can only choose among the keys
    that occur. *)
Theorem decoded_label_in_table (item : GoFileItem)
  (order : list (string * string)) :
  (order ≡ₚ osMapping ->
   (getOS order item = "" <->
    forall k v, (k, v) ∈ osMapping -> ~ substring_of k (ItemFileName item))
   /\ (getOS order item <> "" ->
       exists k, (k, getOS order item) ∈ osMapping
                 /\ substring_of k (ItemFileName item)))
  /\ (order ≡ₚ archMapping ->
      (getArch order item = "" <->
       forall k v, (k, v) ∈ archMapping ->
                   ~ substring_of k (ItemFileName item))
      /\ (getArch order item <> "" ->
          exists k, (k, getArch order item) ∈ archMapping
                    /\ substring_of k (ItemFileName item))).
Proof.
  split; intros Hperm.
  - apply (lookupToken_label osMapping); [exact Hperm|].
    now apply labels_not_empty.
  - apply (lookupToken_label archMapping); [exact Hperm|].
    now apply labels_not_empty.
Qed.

End LabelFacts.

(** ** From a listing to the finder *)

Section ListingFinder.

Variable osOrder : GoFileItem -> list (string * string).
Variable archOrder : GoFileItem -> list (string * string).
Variable rangeMap : gmap string (list Package) -> list (string * list Package).

Hypothesis rangeMap_entries : forall m, rangeMap m ≡ₚ map_to_list m.

Variable Constraints : Type.
Variable NewConstraint : string -> option Constraints.
Variable Check : Constraints -> Semver.Version -> bool.

Lemma Semantify_not_latest (s : Semver.Version) :
  Semantify Latest <> Ok s.
Proof. discriminate. Qed.

(** X20: every version of a converted listing that has a package for the
    finder's platform is found by its own name: the names of a converted
    listing are pairwise different and none of them is "latest", so the
    exact-name pass of [Find] stops at this version, whatever the
    constraint grammar makes of the name. *)
Theorem find_converted_by_name (items : list GoFileItem)
  (vers : list Version) (v : Version) (k : PackageKind) (os arch : string) :
  Convert2Versions osOrder archOrder rangeMap items = Ret (Ok vers) ->
  v ∈ vers -> platform_match v os arch ->
  Find NewConstraint Check (mkFinder k os arch vers) (name v) = Ok v.
Proof.
  intros H Hv Hm.
  destruct (Convert2Versions_Ok _ _ _ _ _ H) as (m & vers0 & Hg & Hn & Hperm).
  destruct (converted_versions _ _ _ rangeMap_entries _ _ _ Hg Hn)
    as (Hnd & _ & Hsv).
  rewrite <- Hperm in Hnd.
  assert (name v <> Latest) as Hne.
  { intros E. destruct (Hsv v) as [Hs _]; [now rewrite <- Hperm|].
    rewrite E in Hs. now apply Semantify_not_latest in Hs. }
  rewrite (Find_other _ _ _ _ _ Hne). simpl.
  apply list_elem_of_split in Hv as (below & above & ->).
  rewrite (scanDown_last _ below above v).
  - reflexivity.
  - unfold passExact. simpl. rewrite String.eqb_refl. now apply match_spec.
  - intros w Hw. unfold passExact. simpl.
    replace (String.eqb (name w) (name v)) with false; [reflexivity|].
    symmetry. apply String.eqb_neq. intros E.
    rewrite fmap_app, fmap_cons in Hnd. apply NoDup_app in Hnd as (_ & _ & Hnd).
    apply NoDup_cons in Hnd as [Hnot _]. apply Hnot. rewrite <- E.
    apply list_elem_of_fmap. now exists w.
Qed.

End ListingFinder.

(** ** The further statements on the sample data *)

Section FurtherWitnesses.

Import Samples.

Lemma entries_visited (m : gmap string (list Package)) :
  map_to_list m ≡ₚ map_to_list m.
Proof. reflexivity. Qed.

Lemma find_returns_qualifying_witness :
  go1_19_0 ∈ items (darwinArm64 corpus)
  /\ platform_match go1_19_0 "darwin" "arm64"
  /\ (">=1.19.0" = Latest
      \/ (">=1.19.0" <> Latest
          /\ (name go1_19_0 = ">=1.19.0"
              \/ exists cs, Comparators.NewConstraint ">=1.19.0" = Some cs
                            /\ Comparators.Check cs (sv go1_19_0) = true))).
Proof.
  apply (find_returns_qualifying _ Comparators.NewConstraint
           Comparators.Check (darwinArm64 corpus) ">=1.19.0" go1_19_0).
  reflexivity.
Defined.

Lemma must_find_panics_witness :
  ~ exists v, qualifies Comparators.NewConstraint Comparators.Check
                (darwinArm64 corpus) "<1.19.0" v.
Proof.
  apply (proj1 (must_find_panics _ Comparators.NewConstraint
                  Comparators.Check (darwinArm64 corpus) "<1.19.0")).
  reflexivity.
Defined.

Lemma find_failure_order_free_witness :
  Find Comparators.NewConstraint Comparators.Check
    (darwinArm64 (rev corpus)) "<1.19.0"
  = Err (PackageNotFoundError "Archive" "darwin" "arm64").
Proof.
  apply (find_failure_order_free _ Comparators.NewConstraint
           Comparators.Check (darwinArm64 corpus) (darwinArm64 (rev corpus))).
  - apply Permutation_rev.
  - reflexivity.
  - reflexivity.
  - reflexivity.
  - reflexivity.
Defined.

Lemma new_finder_options_witness :
  NewFinder "linux" "amd64" corpus
    [Some (WithFinderGoos "darwin"); None] = Panic
  /\ forall fdr,
       NewFinder "linux" "amd64" (rev corpus)
         [Some (WithFinderGoos "darwin"); Some (WithFinderGoarch "arm64")]
       = Ret fdr ->
       items fdr ≡ₚ rev corpus /\ goarch fdr = "arm64".
Proof.
  pose proof (new_finder_options "linux" "amd64" corpus) as (Hp & _).
  pose proof (new_finder_options "linux" "amd64" (rev corpus))
    as (_ & Hi & Hl & _).
  split.
  - apply Hp. right. left.
  - intros fdr H. split.
    + apply (Hi [Some (WithFinderGoos "darwin");
                  Some (WithFinderGoarch "arm64")] fdr); [|exact H].
      apply Forall_cons. split; [right; left; now exists "darwin"|].
      apply Forall_cons. split; [right; right; now exists "arm64"|].
      apply Forall_nil_2.
    + exact (proj2 (proj2 (Hl [Some (WithFinderGoos "darwin")] fdr
                             ArchiveKind "" "arm64")) H).
Defined.

Lemma find_packages_spec_witness :
  archive "go1.19.0.linux-amd64.tar.gz"
    ∈ [archive "go1.19.0.darwin-arm64.tar.gz"] <->
  archive "go1.19.0.linux-amd64.tar.gz" ∈ pkgs go1_19_0
  /\ String.eqb (Kind (archive "go1.19.0.linux-amd64.tar.gz")) "Archive"
     = true
  /\ starts_with (FileName (archive "go1.19.0.linux-amd64.tar.gz"))
       (platformPrefix go1_19_0 "darwin" "arm64").
Proof.
  exact (proj2 (proj2 (proj1 (find_packages_spec String.eqb go1_19_0
                                "Archive" "darwin" "arm64")
                         [archive "go1.19.0.darwin-arm64.tar.gz"] eq_refl))
           (archive "go1.19.0.linux-amd64.tar.gz")).
Defined.

Lemma find_packages_platform_witness :
  match_ go1_19_0 "darwin" "arm64" = true.
Proof.
  apply (find_packages_platform String.eqb go1_19_0 "Archive" "darwin" "arm64"
           [archive "go1.19.0.darwin-arm64.tar.gz"]).
  reflexivity.
Defined.

Lemma convert_outcome_witness :
  convert [mkItem "go1.21.4.src.tar.gz" "" ""; mkItem "go.1.2.3" "" ""]
  = Panic
  /\ exists vers, convert listing = Ret (Ok vers).
Proof.
  split.
  - apply (proj1 (convert_outcome (fun _ => osMapping) (fun _ => archMapping)
                    map_to_list entries_visited _)).
    exists (mkItem "go.1.2.3" "" ""). split; [right; left | reflexivity].
  - apply (proj2 (proj2 (convert_outcome (fun _ => osMapping)
                           (fun _ => archMapping) map_to_list entries_visited
                           listing))).
    intros pitem Hin.
    exists "1.21.4", (Semver.mkVersion 1 21 4 "" "" "1.21.4").
    unfold listing in Hin.
    repeat (apply elem_of_cons in Hin as [->|Hin]; [now split|]).
    inversion Hin.
Defined.

Lemma convert_result_witness :
  convert listing = Ret (Ok [go1_21_4])
  /\ NoDup (name <$> [go1_21_4])
  /\ pkgs go1_21_4 = packagesOf (fun _ => osMapping) (fun _ => archMapping)
                       "1.21.4" listing.
Proof.
  assert (convert listing = Ret (Ok [go1_21_4])) as H by reflexivity.
  destruct (convert_result (fun _ => osMapping) (fun _ => archMapping)
              map_to_list entries_visited listing [go1_21_4] H)
    as (Hnd & _ & Hv).
  split; [exact H|]. split; [exact Hnd|].
  exact (proj2 (Hv go1_21_4 ltac:(left))).
Defined.

Lemma converted_package_fields_witness :
  exists before pitem after,
    listing = before ++ pitem :: after
    /\ isPackageFile pitem = true
    /\ FileName linuxArchive = ItemFileName pitem
    /\ Kind linuxArchive <> "Unknown".
Proof.
  destruct (converted_package_fields (fun _ => osMapping)
              (fun _ => archMapping) map_to_list entries_visited
              listing [go1_21_4] go1_21_4 linuxArchive eq_refl
              ltac:(left) ltac:(left))
    as (before & pitem & after & Hl & Hf & _ & Hn & _ & _ & _ & Hk & _).
  exists before, pitem, after. auto.
Defined.

Lemma adapter_url_slash_witness :
  ends_with "https://mirrors.hust.edu.cn/golang/" "/".
Proof.
  apply (proj1 (adapter_url_slash unit noFetch)
           " fancyindex|https://mirrors.hust.edu.cn/golang " Fancyindex).
  reflexivity.
Defined.

Lemma second_call_stable_witness :
  let h : heap := {[ 0%nat := [" https://go.dev/dl "; "second"] ]} in
  NewCollector unit noFetch (fst (NewCollector unit noFetch h 0%nat)) 0%nat
  = NewCollector unit noFetch h 0%nat.
Proof.
  intros h.
  apply (proj2 (second_call_stable unit noFetch h 0%nat)).
  reflexivity.
Defined.

Lemma find_asset_index_witness :
  exists (k : nat) a,
    Cli.findAsset "linux" "amd64" assets = Z.of_nat k
    /\ assets !! k = Some a
    /\ ends_with (Github.BrowserDownloadURL a) "linux-amd64.tar.gz".
Proof.
  destruct (find_asset_index "linux" "amd64" assets)
    as [[E _]|(k & a & E & _ & Hk & Ha & _)]; [discriminate E|].
  exists k, a. auto.
Defined.

Lemma local_versions_witness :
  exists vs,
    Cli.listLocalVersions (Some entries) = Some vs
    /\ forall n, n ∈ name <$> vs ->
         exists d, d ∈ entries /\ Cli.IsDir d = true /\ Cli.EntryName d = n.
Proof.
  destruct (local_versions entries) as (vs & E & _ & Hn & _).
  exists vs. split; [exact E|]. intros n Hin.
  destruct (proj1 (Hn n) Hin) as (d & Hd & Hdir & Hname & _). eauto.
Defined.

Lemma use_target_witness :
  Cli.useTarget _ Comparators.NewConstraint Comparators.Check corpus "1.19.0"
  = Some "1.19.0".
Proof.
  apply (proj1 (proj2 (use_target _ Comparators.NewConstraint
                         Comparators.Check corpus "1.19.0"))).
  exists go1_19_0. split; [right; left | reflexivity].
Defined.

Lemma list_remote_outcome_witness :
  Cli.listRemote _ Comparators.NewConstraint Comparators.Check
    (Some (Cli.mkRemote (Some []) (Some []) (Some []) (Some []))) "latest"
  = Panic.
Proof.
  apply (proj1 (list_remote_outcome _ Comparators.NewConstraint
                  Comparators.Check _ "latest")).
  split; [reflexivity|]. eexists. split; reflexivity.
Defined.

Lemma mirror_packages_witness :
  exists tr, tr ∈ rows
    /\ URL sourceArchive
       = "https://mirrors.aliyun.com/golang/" +:+ Fancyindex.Href tr.
Proof.
  destruct (proj2 (mirror_packages (fun _ => osMapping) (fun _ => archMapping)
                     map_to_list entries_visited
                     "https://mirrors.aliyun.com/golang/" rows)
              [go1_21_4] go1_21_4 sourceArchive eq_refl
              ltac:(left) ltac:(right; left))
    as (tr & Htr & _ & _ & _ & Hu & _).
  exists tr. now split.
Defined.

Lemma verify_mirror_package_witness :
  snd (Verify.VerifyChecksum unit "SHA1" fetched agrees linuxArchive
         "go1.21.4.linux-amd64.tar.gz") = None
  /\ snd (Verify.VerifyChecksum unit "SHA1" fetched agrees sourceArchive
            "go1.21.4.src.tar.gz")
     = Some Verify.ErrUnsupportedChecksumAlgorithm.
Proof.
  split.
  - destruct (verify_mirror_package (fun _ => osMapping)
                (fun _ => archMapping) map_to_list entries_visited unit
                "SHA1" fetched agrees "https://mirrors.aliyun.com/golang/"
                rows [go1_21_4] go1_21_4 linuxArchive
                "go1.21.4.linux-amd64.tar.gz" ltac:(discriminate) eq_refl
                ltac:(left) ltac:(left))
      as [[Hu _]|(ctr & _ & _ & ->)]; [discriminate Hu | reflexivity].
  - destruct (verify_mirror_package (fun _ => osMapping)
                (fun _ => archMapping) map_to_list entries_visited unit
                "SHA1" fetched agrees "https://mirrors.aliyun.com/golang/"
                rows [go1_21_4] go1_21_4 sourceArchive
                "go1.21.4.src.tar.gz" ltac:(discriminate) eq_refl
                ltac:(left) ltac:(right; left))
      as [[_ ->]|(ctr & _ & Hu & _)]; [reflexivity | discriminate Hu].
Defined.

Lemma arch_label_order_free_witness :
  getArch (rev archMapping) (mkItem "go1.21.4.linux-arm64.tar.gz" "" "")
  = "ARM64".
Proof.
  apply (arch_label_order_free "arm64" "ARM64" "go1.21.4.linux" "tar.gz"
           "" "" (rev archMapping)).
  - unfold archMapping. do 3 right. left.
  - apply Permutation_rev.
  - reflexivity.
  - reflexivity.
Defined.

Lemma decoded_label_in_table_witness :
  exists k, (k, getOS (rev osMapping)
                  (mkItem "go1.21.4.darwin-arm64.pkg" "" "")) ∈ osMapping
            /\ substring_of k "go1.21.4.darwin-arm64.pkg".
Proof.
  apply (proj2 (proj1 (decoded_label_in_table
                         (mkItem "go1.21.4.darwin-arm64.pkg" "" "")
                         (rev osMapping))
                  (Permutation_sym (Permutation_rev osMapping)))).
  discriminate.
Defined.

Lemma find_converted_by_name_witness :
  Find Comparators.NewConstraint Comparators.Check
    (mkFinder ArchiveKind "linux" "amd64" [go1_21_4]) "1.21.4"
  = Ok go1_21_4.
Proof.
  apply (find_converted_by_name (fun _ => osMapping) (fun _ => archMapping)
           map_to_list entries_visited _ Comparators.NewConstraint
           Comparators.Check listing [go1_21_4] go1_21_4 ArchiveKind
           "linux" "amd64" eq_refl).
  - left.
  - exists linuxArchive. split; [left|].
    split; [now exists "go1.21.4.", "-amd64.tar.gz"
           | now exists "go1.21.4.linux-", ".tar.gz"].
Defined.

End FurtherWitnesses.
